(** * The criteria compiler of the MySQL adapter (src/MySQLAdapter.js)

    A shallow embedding of the private [sql] object of the adapter: the
    recursive predicate translator ([where] / [predicate] /
    [prepareCriterion]), the options serializer, the schema builder and
    the join utility [build], together with models of the library
    routines they call ([mysql.escape] and [mysql.escapeId] of the driver,
    [_.each], [_.extend] and [_.find] of underscore, [_.str.rtrim] of
    underscore.string); then the statements that the methods of the
    adapter build, its registry of databases, and the methods
    themselves, as the events they give rise to for a driver that is
    known by its answers.

    JavaScript values are a tagged union; objects are the list of their
    own enumerable properties in iteration order; exceptions are an
    explicit [Throw] result.  The translator functions call each other
    recursively on the criteria tree, so they take a fuel argument;
    [fuel_for] gives an amount that is always enough. *)

From Stdlib Require Import ZArith List String Ascii Bool Lia Arith.
From Stdlib Require Import DecimalString Btauto.
Import ListNotations.

Open Scope string_scope.

(** ** Results of possibly throwing code *)

Inductive result (A : Type) : Type :=
| Ok (a : A)
| Throw (msg : string)
| OutOfFuel.

Arguments Ok {A} a.
Arguments Throw {A} msg.
Arguments OutOfFuel {A}.

Definition bind {A B : Type} (r : result A) (k : A -> result B) : result B :=
  match r with
  | Ok a => k a
  | Throw m => Throw m
  | OutOfFuel => OutOfFuel
  end.

Declare Scope js_scope.
Delimit Scope js_scope with js.
Notation "x <- e ;; k" := (bind e (fun x => k))
  (at level 61, e at next level, right associativity) : js_scope.
Open Scope js_scope.

(** ** JavaScript values *)

(** A [Date] is known through the observations the adapter and the driver
    make of it. *)
Record jsdate : Type := mkDate {
  getFullYear : Z;
  getMonth : Z;
  getDate : Z;
  toLocaleTimeString : string;
  (** the driver's own rendering, [SqlString.dateToString] *)
  driverDateString : string;
  (** [Date.prototype.toString] *)
  dateToString : string
}.

(** Numbers are the integer-valued ones, of a size JavaScript prints in
    plain decimal, and [NaN].  A function is known by its arity and
    source text, a regular expression by its text.  An object is the
    list of its own enumerable properties in iteration order. *)
#[warnings="-register-all"]
Inductive jsval : Type :=
| JUndefined
| JNull
| JBool (b : bool)
| JNum (n : Z)
| JNaN
| JStr (s : string)
| JDate (d : jsdate)
| JFunc (arity : nat) (source : string)
| JRegExp (text : string)
| JArr (elems : list jsval)
| JObj (props : list (string * jsval)).

(** The key handed to an iteratee: a property name, or an array index. *)
Inductive jskey : Type :=
| KStr (s : string)
| KIdx (i : nat).

Definition number_to_string (n : Z) : string :=
  NilZero.string_of_int (Z.to_int n).

Definition key_to_string (k : jskey) : string :=
  match k with
  | KStr s => s
  | KIdx i => number_to_string (Z.of_nat i)
  end.

(** Truthiness, as [if (v)] and [a || b] test it. *)
Definition truthy (v : jsval) : bool :=
  match v with
  | JUndefined | JNull => false
  | JBool b => b
  | JNum n => negb (n =? 0)%Z
  | JNaN => false
  | JStr s => negb (s =? "")
  | JDate _ | JFunc _ _ | JRegExp _ | JArr _ | JObj _ => true
  end.

Definition key_truthy (k : option jskey) : bool :=
  match k with
  | None => false
  | Some (KStr s) => negb (s =? "")
  | Some (KIdx i) => negb (i =? 0)%nat
  end.

(** Property access [c.name] / [c[name]] on a value that is not null. *)
Fixpoint lookup (name : string) (props : list (string * jsval)) : jsval :=
  match props with
  | [] => JUndefined
  | (k, v) :: rest => if k =? name then v else lookup name rest
  end.

Definition get (c : jsval) (name : string) : jsval :=
  match c with
  | JObj props => lookup name props
  | _ => JUndefined
  end.

(** Assignment [obj[name] = v]: an own property keeps its place, a new
    one goes last.  (Names are not array indices, which JavaScript would
    enumerate first.) *)
Fixpoint assign {A : Type} (name : string) (v : A) (props : list (string * A))
  : list (string * A) :=
  match props with
  | [] => [(name, v)]
  | (k, x) :: rest =>
      if k =? name then (k, v) :: rest else (k, x) :: assign name v rest
  end.

(** The own property [name] of an object used as a map, if it has one. *)
Fixpoint own {A : Type} (name : string) (props : list (string * A))
  : option A :=
  match props with
  | [] => None
  | (k, x) :: rest => if k =? name then Some x else own name rest
  end.

(** [a === b] on the primitive values.  Objects, arrays, dates, functions
    and regular expressions are compared by identity, which the embedding
    does not have: two of them are taken to be distinct. *)
Definition strict_equals (a b : jsval) : bool :=
  match a, b with
  | JUndefined, JUndefined => true
  | JNull, JNull => true
  | JBool x, JBool y => Bool.eqb x y
  | JNum x, JNum y => (x =? y)%Z
  | JStr x, JStr y => x =? y
  | _, _ => false
  end.

Definition join (sep : string) (l : list string) : string :=
  String.concat sep l.

(** [String(v)], as string concatenation applies it. *)
Fixpoint to_string (v : jsval) : string :=
  match v with
  | JUndefined => "undefined"
  | JNull => "null"
  | JBool b => if b then "true" else "false"
  | JNum n => number_to_string n
  | JNaN => "NaN"
  | JStr s => s
  | JDate d => dateToString d
  | JFunc _ source => source
  | JRegExp text => text
  | JArr elems =>
      join "," (map (fun e => match e with
                              | JUndefined | JNull => ""
                              | _ => to_string e
                              end) elems)
  | JObj _ => "[object Object]"
  end.

Definition toLowerCase_ascii (c : ascii) : ascii :=
  let n := nat_of_ascii c in
  if ((65 <=? n) && (n <=? 90))%nat then ascii_of_nat (n + 32) else c.

Fixpoint toLowerCase (s : string) : string :=
  match s with
  | EmptyString => EmptyString
  | String c s' => String (toLowerCase_ascii c) (toLowerCase s')
  end.

(** [key.toLowerCase()]: a number has no such method. *)
Definition key_toLowerCase (k : jskey) : result string :=
  match k with
  | KStr s => Ok (toLowerCase s)
  | KIdx _ => Throw "TypeError"
  end.

Definition key_is (k : jskey) (s : string) : bool :=
  match k with
  | KStr t => t =? s
  | KIdx _ => false
  end.

(** ** The [mysql] driver's escaping routines *)

Module mysql.

Definition backslash : ascii := ascii_of_nat 92.
Definition quote : ascii := ascii_of_nat 39.
Definition dquote : ascii := ascii_of_nat 34.
Definition backtick : ascii := ascii_of_nat 96.

Definition esc (c : ascii) : string := String backslash (String c "").

(** The replacement the driver applies to NUL, newline, carriage
    return, backspace, tab, backslash, both quotes and Ctrl-Z. *)
Definition escape_char (c : ascii) : string :=
  match nat_of_ascii c with
  | 0 => esc "0"
  | 10 => esc "n"
  | 13 => esc "r"
  | 8 => esc "b"
  | 9 => esc "t"
  | 26 => esc "Z"
  | 92 | 39 | 34 => esc c
  | _ => String c ""
  end%nat.

Fixpoint escape_chars (s : string) : string :=
  match s with
  | EmptyString => EmptyString
  | String c s' => escape_char c ++ escape_chars s'
  end.

Definition quoted (s : string) : string :=
  String quote (escape_chars s ++ String quote "").

Fixpoint double_backticks (s : string) : string :=
  match s with
  | EmptyString => EmptyString
  | String c s' =>
      if Ascii.eqb c backtick
      then String backtick (String backtick (double_backticks s'))
      else String c (double_backticks s')
  end.

(** Modelled from the spec: the Identifier Escaper.  [mysql.escapeId] is a
    routine of the driver, a dependency that src/ does not hold.  It wraps
    the name in the identifier quote of MySQL, the backtick, and doubles
    every backtick inside it.  It takes a string. *)
Definition escapeId (val : string) : string :=
  String backtick (double_backticks val ++ String backtick "").

(** Modelled from the spec: the Value Escaper.  [mysql.escape] is a
    routine of the driver, a dependency that src/ does not hold.  [null]
    and [undefined] are the keyword NULL, booleans and numbers are printed
    bare, strings (and dates, through their text) are put in single quotes
    with quote, backslash and NUL-class characters neutralised.  As the
    driver does, an array is the comma list of its elements (a nested
    array in parentheses), an object the comma list of its [key = value]
    pairs, with nested objects stringified first; a function has no
    [replace] method to escape it with. *)
Fixpoint escape (stringifyObjects : bool) (val : jsval) : result string :=
  match val with
  | JUndefined | JNull => Ok "NULL"
  | JBool b => Ok (if b then "true" else "false")
  | JNum n => Ok (number_to_string n)
  | JNaN => Ok "NaN"
  | JStr s => Ok (quoted s)
  | JDate d => Ok (quoted (driverDateString d))
  | JFunc _ _ => Throw "TypeError"
  | JRegExp text => if stringifyObjects then Ok (quoted text) else Ok ""
  | JArr elems =>
      let arrayToList :=
        fix arrayToList (l : list jsval) : result (list string) :=
          match l with
          | [] => Ok []
          | v :: rest =>
              s <- match v with
                   | JArr _ =>
                       inner <- escape true v ;; Ok ("(" ++ inner ++ ")")
                   | _ => escape true v
                   end ;;
              ss <- arrayToList rest ;;
              Ok (s :: ss)
          end in
      ss <- arrayToList elems ;; Ok (join ", " ss)
  | JObj props =>
      if stringifyObjects then Ok (quoted "[object Object]")
      else
        let objectToValues :=
          fix objectToValues (l : list (string * jsval))
            : result (list string) :=
            match l with
            | [] => Ok []
            | (k, v) :: rest =>
                match v with
                | JFunc _ _ => objectToValues rest
                | _ =>
                    s <- escape true v ;;
                    ss <- objectToValues rest ;;
                    Ok ((escapeId k ++ " = " ++ s) :: ss)
                end
            end in
        ss <- objectToValues props ;; Ok (join ", " ss)
  end.

End mysql.

(** The pairs the driver makes of an object, [SqlString.objectToValues]. *)
Definition objectToValues (props : list (string * jsval))
  : result (list string) :=
  (fix objectToValues (l : list (string * jsval)) : result (list string) :=
     match l with
     | [] => Ok []
     | (k, v) :: rest =>
         match v with
         | JFunc _ _ => objectToValues rest
         | _ =>
             s <- mysql.escape true v ;;
             ss <- objectToValues rest ;;
             Ok ((mysql.escapeId k ++ " = " ++ s) :: ss)
         end
     end) props.

(** The list the driver makes of an array, [SqlString.arrayToList]. *)
Definition arrayToList (elems : list jsval) : result (list string) :=
  (fix arrayToList (l : list jsval) : result (list string) :=
     match l with
     | [] => Ok []
     | v :: rest =>
         s <- match v with
              | JArr _ =>
                  inner <- mysql.escape true v ;; Ok ("(" ++ inner ++ ")")
              | _ => mysql.escape true v
              end ;;
         ss <- arrayToList rest ;;
         Ok (s :: ss)
     end) elems.

(** ** underscore and underscore.string *)

Module underscore.

Definition isObject (v : jsval) : bool :=
  match v with
  | JDate _ | JFunc _ _ | JRegExp _ | JArr _ | JObj _ => true
  | _ => false
  end.

Definition isArray (v : jsval) : bool :=
  match v with JArr _ => true | _ => false end.

Definition isNull (v : jsval) : bool :=
  match v with JNull => true | _ => false end.

Definition isDate (v : jsval) : bool :=
  match v with JDate _ => true | _ => false end.

Definition isFunction (v : jsval) : bool :=
  match v with JFunc _ _ => true | _ => false end.

Definition isRegExp (v : jsval) : bool :=
  match v with JRegExp _ => true | _ => false end.

Fixpoint indexed_from (i : nat) (l : list jsval) : list (jskey * jsval) :=
  match l with
  | [] => []
  | v :: rest => (KIdx i, v) :: indexed_from (S i) rest
  end.

(** [_.each(obj, iterator)] of underscore, a dependency that src/ does
    not hold: the entries it hands to the iteratee, in order.  Anything
    with a numeric [length] ([obj.length === +obj.length]: an array, a
    string, a function, and also an object that has a property [length]
    holding a number) is walked by index, from 0 up to the length, a
    missing index giving [undefined]; any other object is walked by its
    own properties, and nothing else has entries. *)
Definition each (obj : jsval) : list (jskey * jsval) :=
  match obj with
  | JArr elems => indexed_from 0 elems
  | JStr s =>
      indexed_from 0 (map (fun c => JStr (String c "")) (list_ascii_of_string s))
  | JFunc arity _ => indexed_from 0 (repeat JUndefined arity)
  | JObj props =>
      match lookup "length" props with
      | JNum length =>
          indexed_from 0
            (map (fun i => lookup (number_to_string (Z.of_nat i)) props)
                 (seq 0 (Z.to_nat length)))
      | _ => map (fun kv => (KStr (fst kv), snd kv)) props
      end
  | JUndefined | JNull | JBool _ | JNum _ | JNaN | JDate _ | JRegExp _ => []
  end.

Definition in_chars (c : ascii) (characters : string) : bool :=
  existsb (Ascii.eqb c) (list_ascii_of_string characters).

(** [_.str.rtrim(str, characters)] of underscore.string, a dependency
    that src/ does not hold, for a non-empty [characters] of plain
    characters (the adapter passes ', ', ' AND ' and ' OR ').  It deletes
    the match of the regular expression [[characters]+$]: the longest run
    of characters of [characters] that ends the string, which can be more
    than one copy of the separator. *)
Fixpoint rtrim (str characters : string) : string :=
  match str with
  | EmptyString => EmptyString
  | String c rest =>
      let r := rtrim rest characters in
      if (r =? "") && in_chars c characters then "" else String c r
  end.

(** [_.extend(obj, source)] of underscore, on plain objects: every
    property of [source] is assigned to [obj], in order; [obj] itself is
    written to and returned. *)
Definition extend (obj source : list (string * jsval))
  : list (string * jsval) :=
  fold_left (fun o kv => assign (fst kv) (snd kv) o) source obj.

(** [_.find(obj, iterator)] of underscore, on an object used as a map:
    the first value, in iteration order, that passes the test. *)
Definition find {A : Type} (obj : list (string * A)) (iterator : A -> bool)
  : option A :=
  option_map snd (List.find (fun kv => iterator (snd kv)) obj).

End underscore.

(** ** The adapter's helpers *)

(** Never called. *)
Definition wrapInQuotes (val : string) : string :=
  String mysql.dquote (val ++ String mysql.dquote "").

(** Year, month and day joined by dashes, then the locale's time. *)
Definition toSqlDate (date : jsdate) : string :=
  join " "
    [ join "-"
        [ number_to_string (getFullYear date);
          (if (getMonth date <? 9)%Z then "0" else "")
            ++ number_to_string (getMonth date + 1);
          (if (getDate date <? 10)%Z then "0" else "")
            ++ number_to_string (getDate date) ];
      toLocaleTimeString date ].

(** Return whether this criteria is valid as an object inside of an
    attribute. *)
Definition validSubAttrCriteria (c : jsval) : bool :=
  underscore.isObject c && (
    truthy (get c "not") || truthy (get c "greaterThan")
    || truthy (get c "lessThan")
    || truthy (get c "greaterThanOrEqual") || truthy (get c "lessThanOrEqual")
    || truthy (get c "<") || truthy (get c "<=") || truthy (get c "!")
    || truthy (get c ">") || truthy (get c ">=")
    || truthy (get c "startsWith") || truthy (get c "endsWith")
    || truthy (get c "contains")).

(** Cast waterline types into SQL data types.  [type.toLowerCase()] is a
    method of strings only, and a type outside the [switch] falls through
    it: the function then returns [undefined]. *)
Definition sqlTypeCast (type : jsval) : result jsval :=
  match type with
  | JStr type =>
      let type := toLowerCase type in
      if type =? "string" then Ok (JStr "TEXT")
      else if (type =? "int") || (type =? "integer") then Ok (JStr "INT")
      else if (type =? "float") || (type =? "double") then Ok (JStr "FLOAT")
      else if type =? "date" then Ok (JStr "DATE")
      else Ok JUndefined
  | _ => Throw "TypeError"
  end.

(** Convert standard adapter config into a custom configuration object
    for node-mysql: the four settings are read, then written back into
    [config] itself, so that each of them is an own property. *)
Definition marshalConfig (config : list (string * jsval))
  : list (string * jsval) :=
  underscore.extend config
    [ ("host", lookup "host" config);
      ("user", lookup "user" config);
      ("password", lookup "password" config);
      ("database", lookup "database" config) ].

(** The criteria object handed to [find], [update] and [destroy]; an absent
    field is [JUndefined]. *)
Record options : Type := mkOptions {
  opt_where : jsval;
  opt_sort : jsval;
  opt_limit : jsval;
  opt_skip : jsval
}.

(** ** The private [sql] object *)

(** Every function of [sql] takes [collectionName] first and hands it on;
    none reads it, so the embedding leaves it out. *)

Module sql.

(** The iteratee type of [build]: [fn(collectionName, value, key,
    parentKey)]. *)
Definition iteratee : Type := jsval -> jskey -> option jskey -> result string.

Definition prepareValue (value : jsval) (attrName : option jskey)
  : result string :=
  (* Cast dates to SQL *)
  let value := match value with
               | JDate d => JStr (toSqlDate d)
               | _ => value
               end in
  (* Cast functions to strings *)
  let value := match value with
               | JFunc _ source => JStr source
               | _ => value
               end in
  (* Escape (also wraps in quotes) *)
  mysql.escape false value.

(** [mysql.escapeId(attrName)]: the driver calls [replace] on the name,
    a method an array index does not have. *)
Definition prepareAttribute (value : jsval) (attrName : jskey)
  : result string :=
  match attrName with
  | KStr s => Ok (mysql.escapeId s)
  | KIdx _ => Throw "TypeError"
  end.

(** The loop [_.each(collection, ...)] of [build], with its accumulator
    [$sql]. *)
Fixpoint build_each (fn : iteratee) (separator : string)
    (keyOverride parentKey : option jskey)
    (entries : list (jskey * jsval)) (sql : string) : result string :=
  match entries with
  | [] => Ok sql
  | (k, value) :: rest =>
      part <- fn value
                (if key_truthy keyOverride
                 then match keyOverride with Some o => o | None => k end
                 else k)
                parentKey ;;
      (* (always append separator) *)
      build_each fn separator keyOverride parentKey rest
        (sql ++ part ++ separator)
  end.

(** Put together the CSV aggregation. *)
Definition build (collection : jsval) (fn : iteratee)
    (separator : option string) (keyOverride parentKey : option jskey)
  : result string :=
  let separator := match separator with
                   | Some s => if s =? "" then ", " else s
                   | None => ", "
                   end in
  sql <- build_each fn separator keyOverride parentKey
           (underscore.each collection) "" ;;
  (* (then remove final one) *)
  Ok (underscore.rtrim sql separator).

(** Create a value csv for a DQL query. *)
Definition values (values : jsval) (key : option jskey) : result string :=
  build values (fun v k _ => prepareValue v (Some k)) (Some ", ") key None.

(** [valueStr.replace(/%%%/g, '\\%')] *)
Fixpoint replace_escaped_percent (s : string) : string :=
  match s with
  | EmptyString => EmptyString
  | String c rest =>
      match rest with
      | String c1 (String c2 rest') =>
          if Ascii.eqb c "%" && Ascii.eqb c1 "%" && Ascii.eqb c2 "%"
          then String mysql.backslash
                 (String "%" (replace_escaped_percent rest'))
          else String c (replace_escaped_percent rest)
      | _ => String c (replace_escaped_percent rest)
      end
  end.

(** The iteratee of the LIKE branch of [predicate]. *)
Definition like (value : jsval) (attrName : jskey) (_ : option jskey)
  : result string :=
  attrStr <- prepareAttribute value attrName ;;
  if underscore.isRegExp value
  then Throw "RegExp LIKE criterias not supported by the MySQLAdapter yet.  Please contribute @ http://github.com/balderdashy/waterline-mysql"
  else
    valueStr <- prepareValue value (Some attrName) ;;
    (* Handle escaped percent (%) signs [encoded as %%%] *)
    let valueStr := replace_escaped_percent valueStr in
    Ok (attrStr ++ " LIKE " ++ valueStr).

(** [where], [predicate] and [prepareCriterion] call each other.  Each
    is first written as one call of the source function, with the
    functions of [sql] it calls as parameters; the recursion is then
    closed over a fuel counter, one unit per call.  ([where] is a
    reserved word, hence [where_].) *)

Definition where_type : Type :=
  jsval -> option jskey -> option jskey -> result string.

(* Starting point for predicate evaluation
   parentKey => if set, look for comparators and apply them to the
   parent key *)
Definition where_step (predicate : iteratee)
    (whereObj : jsval) (key parentKey : option jskey) : result string :=
  build whereObj predicate (Some " AND ") None parentKey.

(* Recursively parse a predicate calculus and build a SQL query *)
Definition predicate_step (where_ : where_type) (prepareCriterion : iteratee)
    (criterion : jsval) (key : jskey) (parentKey : option jskey)
  : result string :=
  if key_truthy parentKey
  then prepareCriterion criterion key parentKey
  else
    lower <- key_toLowerCase key ;;
    (* OR *)
    if lower =? "or" then
      queryPart <- build criterion (fun v k pk => where_ v (Some k) pk)
                     (Some " OR ") None None ;;
      Ok (" ( " ++ queryPart ++ " ) ")
    (* AND *)
    else if lower =? "and" then
      queryPart <- build criterion (fun v k pk => where_ v (Some k) pk)
                     (Some " AND ") None None ;;
      Ok (" ( " ++ queryPart ++ " ) ")
    (* IN *)
    else if underscore.isArray criterion then
      attrStr <- prepareAttribute JNull key ;;
      vals <- values criterion (Some key) ;;
      Ok (attrStr ++ " IN (" ++ vals ++ ")")
    (* LIKE *)
    else if lower =? "like" then
      build criterion like (Some " AND ") None None
    (* NOT *)
    else if lower =? "not" then
      Throw "NOT not supported yet!"
    (* Basic criteria item *)
    else prepareCriterion criterion key None.

Definition prepareCriterion_step (where_ : where_type)
    (value : jsval) (key : jskey) (parentKey : option jskey)
  : result string :=
  (* Special sub-attr case *)
  if validSubAttrCriteria value
  then where_ value None (Some key)
  else
    match (if key_truthy parentKey then parentKey else None) with
    (* Special comparator case *)
    | Some parent =>
        attrStr <- prepareAttribute value parent ;;
        valueStr <- prepareValue value (Some parent) ;;
        if key_is key "<" || key_is key "lessThan"
        then Ok (attrStr ++ "<" ++ valueStr)
        else if key_is key "<=" || key_is key "lessThanOrEqual"
        then Ok (attrStr ++ "<=" ++ valueStr)
        else if key_is key ">" || key_is key "greaterThan"
        then Ok (attrStr ++ ">" ++ valueStr)
        else if key_is key ">=" || key_is key "greaterThanOrEqual"
        then Ok (attrStr ++ ">=" ++ valueStr)
        else if key_is key "!" || key_is key "not"
        then
          if underscore.isNull value
          then Ok (attrStr ++ "IS NOT NULL")
          else Ok (attrStr ++ "<>" ++ valueStr)
        else if key_is key "contains"
        then Ok (attrStr ++ " LIKE %" ++ valueStr ++ "%")
        else if key_is key "startsWith"
        then Ok (attrStr ++ " LIKE " ++ valueStr ++ "%")
        else if key_is key "endsWith"
        then Ok (attrStr ++ " LIKE %" ++ valueStr)
        else Throw ("Unknown comparator: " ++ key_to_string key)
    | None =>
        attrStr <- prepareAttribute value key ;;
        valueStr <- prepareValue value (Some key) ;;
        (* Special IS NULL case *)
        if underscore.isNull value
        then Ok (attrStr ++ " IS NULL")
        else Ok (attrStr ++ "=" ++ valueStr)
    end.

Fixpoint where_ (fuel : nat) : where_type :=
  match fuel with
  | O => fun _ _ _ => OutOfFuel
  | S n => where_step (predicate n)
  end
with predicate (fuel : nat) : iteratee :=
  match fuel with
  | O => fun _ _ _ => OutOfFuel
  | S n => predicate_step (where_ n) (prepareCriterion n)
  end
with prepareCriterion (fuel : nat) : iteratee :=
  match fuel with
  | O => fun _ _ _ => OutOfFuel
  | S n => prepareCriterion_step (where_ n)
  end.

(** Create an attribute csv for a DQL query. *)
Definition attributes (attrs : jsval) : result string :=
  build attrs (fun v k _ => prepareAttribute v k) None None None.

(** Create a WHERE criteria snippet for a DQL query. *)
Definition criteria (fuel : nat) (vals : jsval) : result string :=
  build vals (prepareCriterion fuel) None None None.

(** The loop over [options.sort] in [serializeOptions]. *)
Fixpoint sort_each (entries : list (jskey * jsval)) (queryPart : string)
  : result string :=
  match entries with
  | [] => Ok queryPart
  | (attrName, direction) :: rest =>
      attrStr <- prepareAttribute JNull attrName ;;
      let queryPart := queryPart ++ attrStr ++ " " in
      (* Basic MongoDB-style numeric sort direction *)
      let queryPart :=
        match direction with
        | JNum 1 => queryPart ++ "ASC "
        | _ => queryPart ++ "DESC "
        end in
      sort_each rest queryPart
  end.

Definition serializeOptions (fuel : nat) (options : options)
  : result string :=
  let queryPart := "" in
  queryPart <-
    (if truthy (opt_where options)
     then w <- where_ fuel (opt_where options) None None ;;
          Ok (queryPart ++ "WHERE " ++ w ++ " ")
     else Ok queryPart) ;;
  queryPart <-
    (if truthy (opt_sort options)
     then sort_each (underscore.each (opt_sort options))
            (queryPart ++ "ORDER BY ")
     else Ok queryPart) ;;
  let queryPart :=
    if truthy (opt_limit options)
    then queryPart ++ "LIMIT " ++ to_string (opt_limit options) ++ " "
    else
      (* Some MySQL hackery here. *)
      queryPart ++ "LIMIT 18446744073709551610 " in
  let queryPart :=
    if truthy (opt_skip options)
    then queryPart ++ "OFFSET " ++ to_string (opt_skip options) ++ " "
    else queryPart in
  Ok queryPart.

(** The iteratee of [schema]: one column of a DDL query.  The driver
    calls [replace] on the name, which an array index does not have;
    [attribute.type] fails on [null] and [undefined]. *)
Definition _schema (attribute : jsval) (attrName : jskey) (_ : option jskey)
  : result string :=
  attrName <- match attrName with
              | KStr s => Ok (mysql.escapeId s)
              | KIdx _ => Throw "TypeError"
              end ;;
  type <- match attribute with
          | JUndefined | JNull => Throw "TypeError"
          | _ => sqlTypeCast (get attribute "type")
          end ;;
  Ok (attrName ++ " " ++ to_string type ++ " "
        ++ (if truthy (get attribute "autoIncrement")
            then "NOT NULL AUTO_INCREMENT, "
                   ++ "PRIMARY KEY(" ++ attrName ++ ")"
            else "")).

(** Create a schema csv for a DDL query. *)
Definition schema (attributes : jsval) : result string :=
  build attributes _schema None None None.

End sql.

(** ** Enough fuel for a value *)

(** The nesting depth of arrays and objects. *)
Fixpoint height (v : jsval) : nat :=
  match v with
  | JArr elems =>
      S ((fix heights (l : list jsval) : nat :=
            match l with
            | [] => 0
            | x :: rest => Nat.max (height x) (heights rest)
            end) elems)
  | JObj props =>
      S ((fix heights (l : list (string * jsval)) : nat :=
            match l with
            | [] => 0
            | (_, x) :: rest => Nat.max (height x) (heights rest)
            end) props)
  | _ => 0
  end.

(** Three calls per level of nesting, and five for the last level. *)
Definition fuel_for (v : jsval) : nat := 5 + 3 * height v.

(** The translator at the fuel of its argument: the spec's [Translate]
    is [where] without parent key. *)
Definition Translate (node : jsval) : result string :=
  sql.where_ (fuel_for node) node None None.

Definition Predicate (criterion : jsval) (key : jskey)
    (parentKey : option jskey) : result string :=
  sql.predicate (fuel_for criterion) criterion key parentKey.

Definition Criterion (value : jsval) (key : jskey)
    (parentKey : option jskey) : result string :=
  sql.prepareCriterion (fuel_for value) value key parentKey.

Definition Assignment (vals : jsval) : result string :=
  sql.criteria (fuel_for vals) vals.

Definition SerializeOptions (options : options) : result string :=
  sql.serializeOptions (fuel_for (opt_where options)) options.

(** [r'] is [r], unless [r] ran out of fuel. *)
Definition refines {A : Type} (r r' : result A) : Prop :=
  r = OutOfFuel \/ r' = r.

(** Pointwise, for iteratees and for [where]. *)
Definition refines_fn (f f' : sql.iteratee) : Prop :=
  forall v k pk, refines (f v k pk) (f' v k pk).

Definition refines_where (w w' : sql.where_type) : Prop :=
  forall v k pk, refines (w v k pk) (w' v k pk).

(** [r] is a result: the fuel was enough. *)
Definition returns {A : Type} (r : result A) : Prop := r <> OutOfFuel.

(** ** Strings and what [build] joins *)

(** The last character of a string, if any. *)
Fixpoint last_char (s : string) : option ascii :=
  match s with
  | EmptyString => None
  | String c rest =>
      match last_char rest with
      | None => Some c
      | Some d => Some d
      end
  end.

(** [s] is not empty and its last character is none of [chars]. *)
Definition clean_end (chars s : string) : bool :=
  match last_char s with
  | Some c => negb (underscore.in_chars c chars)
  | None => false
  end.

(** Every character of [t] is one of [chars]. *)
Definition all_in (chars t : string) : bool :=
  forallb (fun c => underscore.in_chars c chars) (list_ascii_of_string t).

(** The key [build] hands to its iteratee: [keyOverride || key]. *)
Definition effective_key (keyOverride : option jskey) (k : jskey) : jskey :=
  if key_truthy keyOverride
  then match keyOverride with Some o => o | None => k end
  else k.

(** The fragments [fn] yields for the entries, in order, up to the first
    one that fails. *)
Fixpoint fragments (fn : sql.iteratee) (keyOverride parentKey : option jskey)
    (entries : list (jskey * jsval)) : result (list string) :=
  match entries with
  | [] => Ok []
  | (k, value) :: rest =>
      part <- fn value
                (if key_truthy keyOverride
                 then match keyOverride with Some o => o | None => k end
                 else k)
                parentKey ;;
      parts <- fragments fn keyOverride parentKey rest ;;
      Ok (part :: parts)
  end.

(** The fragments, each followed by the separator. *)
Definition with_sep (sep : string) (parts : list string) : string :=
  String.concat "" (map (fun p => p ++ sep) parts).

(** The separator in force: [separator || ', ']. *)
Definition separator_or_default (separator : option string) : string :=
  match separator with
  | Some s => if s =? "" then ", " else s
  | None => ", "
  end.

(** The characters of the three separators [', '], [' AND '], [' OR ']. *)
Definition separator_chars : string := " ,ANDOR".

(** [s] is not empty and ends with no separator character: the trim that
    follows a separator leaves it whole. *)
Definition tidy (s : string) : bool := clean_end separator_chars s.

(** The scalars of the data model: string, number, boolean, date, null. *)
Definition scalar (v : jsval) : bool :=
  match v with
  | JNull | JBool _ | JNum _ | JStr _ | JDate _ => true
  | _ => false
  end.

(** The SQL literal of a scalar, as [prepareValue] renders it. *)
Definition literal (v : jsval) : string :=
  match v with
  | JNull => "NULL"
  | JBool b => if b then "true" else "false"
  | JNum n => number_to_string n
  | JStr s => mysql.quoted s
  | JDate d => mysql.quoted (toSqlDate d)
  | _ => ""
  end.

(** A decimal digit. *)
Definition is_digit (c : ascii) : bool := underscore.in_chars c "0123456789".

(** ** The data model of the criteria *)

(** The recognized comparator keys. *)
Definition comparators : list string :=
  [ "<"; "lessThan"; "<="; "lessThanOrEqual"; ">"; "greaterThan";
    ">="; "greaterThanOrEqual"; "!"; "not";
    "contains"; "startsWith"; "endsWith" ].

(** [key] is one of them. *)
Definition recognized (key : jskey) : bool :=
  existsb (key_is key) comparators.

(** The falsy scalars that are valid operands. *)
Definition falsy_operands : list jsval :=
  [ JBool false; JNum 0; JStr ""; JNull ].

(** What the comparator [op] makes of the attribute [attr] and the scalar
    operand [v]. *)
Definition comparator_fragment (attr : string) (opv : string * jsval)
  : string :=
  let (op, v) := opv in
  let attrStr := mysql.escapeId attr in
  let valueStr := literal v in
  if (op =? "<") || (op =? "lessThan") then attrStr ++ "<" ++ valueStr
  else if (op =? "<=") || (op =? "lessThanOrEqual")
  then attrStr ++ "<=" ++ valueStr
  else if (op =? ">") || (op =? "greaterThan") then attrStr ++ ">" ++ valueStr
  else if (op =? ">=") || (op =? "greaterThanOrEqual")
  then attrStr ++ ">=" ++ valueStr
  else if (op =? "!") || (op =? "not")
  then match v with
       | JNull => attrStr ++ "IS NOT NULL"
       | _ => attrStr ++ "<>" ++ valueStr
       end
  else if op =? "contains" then attrStr ++ " LIKE %" ++ valueStr ++ "%"
  else if op =? "startsWith" then attrStr ++ " LIKE " ++ valueStr ++ "%"
  else attrStr ++ " LIKE %" ++ valueStr.

(** The equality or NULL test of an attribute and a scalar. *)
Definition equality_fragment (kv : string * jsval) : string :=
  let (attr, v) := kv in
  match v with
  | JNull => mysql.escapeId attr ++ " IS NULL"
  | _ => mysql.escapeId attr ++ "=" ++ literal v
  end.

(** A single-quoted SQL string literal: it opens and closes with the
    quote. *)
Definition is_string_literal (s : string) : bool :=
  match s with
  | String c rest =>
      Ascii.eqb c mysql.quote
      && match last_char rest with
         | Some d => Ascii.eqb d mysql.quote
         | None => false
         end
  | EmptyString => false
  end.

(** The typed criteria object of the data model: an optional predicate
    node, an optional ordered sort mapping, optional integer limit and
    skip. *)
Record CriteriaObject : Type := mkCriteria {
  c_where : option (list (string * jsval));
  c_sort : option (list (string * jsval));
  c_limit : option Z;
  c_skip : option Z
}.

(** The JavaScript object a typed criteria object stands for. *)
Definition js_of_mapping (m : option (list (string * jsval))) : jsval :=
  match m with Some props => JObj props | None => JUndefined end.

Definition js_of_number (n : option Z) : jsval :=
  match n with Some z => JNum z | None => JUndefined end.

Definition to_options (c : CriteriaObject) : options :=
  mkOptions (js_of_mapping (c_where c)) (js_of_mapping (c_sort c))
            (js_of_number (c_limit c)) (js_of_number (c_skip c)).

(** The four clauses, as the data model words them. *)
Definition sort_fragment (ad : string * jsval) : string :=
  let (attr, direction) := ad in
  mysql.escapeId attr ++ " "
    ++ match direction with JNum 1 => "ASC " | _ => "DESC " end.

Definition where_clause (c : CriteriaObject) (predicate : string) : string :=
  match c_where c with
  | Some _ => "WHERE " ++ predicate ++ " "
  | None => ""
  end.

Definition order_by_clause (c : CriteriaObject) : string :=
  match c_sort c with
  | Some attrs => "ORDER BY " ++ String.concat "" (map sort_fragment attrs)
  | None => ""
  end.

Definition limit_clause (c : CriteriaObject) : string :=
  match c_limit c with
  | Some n =>
      if (0 <? n)%Z then "LIMIT " ++ number_to_string n ++ " "
      else "LIMIT 18446744073709551610 "
  | None => "LIMIT 18446744073709551610 "
  end.

Definition offset_clause (c : CriteriaObject) : string :=
  match c_skip c with
  | Some n =>
      if (n =? 0)%Z then "" else "OFFSET " ++ number_to_string n ++ " "
  | None => ""
  end.

(** An optional integer that is not negative. *)
Definition nonnegative (n : option Z) : Prop :=
  match n with Some z => (0 <= z)%Z | None => True end.

(** The clause for [limit] as the code tests it, by truthiness. *)
Definition limit_clause_raw (c : CriteriaObject) : string :=
  match c_limit c with
  | Some n =>
      if (n =? 0)%Z then "LIMIT 18446744073709551610 "
      else "LIMIT " ++ number_to_string n ++ " "
  | None => "LIMIT 18446744073709551610 "
  end.

(** The same criteria without [skip]. *)
Definition without_skip (c : CriteriaObject) : CriteriaObject :=
  mkCriteria (c_where c) (c_sort c) (c_limit c) None.

(** Every key is a recognized comparator and every operand a scalar. *)
Definition comparator_object (ops : list (string * jsval)) : bool :=
  forallb (fun opv => recognized (KStr (fst opv)) && scalar (snd opv)) ops.

(** The mapping has no property [length] that holds a number, so that
    [_.each] walks it by its own properties. *)
Definition keyed (props : list (string * jsval)) : bool :=
  match lookup "length" props with
  | JNum _ => false
  | _ => true
  end.

Definition keyed_mapping (m : option (list (string * jsval))) : bool :=
  match m with
  | Some props => keyed props
  | None => true
  end.

(** [_.each] hands the first entry of the value over under an index: a
    non-empty array or string, a function with parameters, a mapping
    with a positive number for [length]. *)
Definition walked_by_index (v : jsval) : bool :=
  match underscore.each v with
  | (KIdx _, _) :: _ => true
  | _ => false
  end.

(** The entries of a mapping that is walked by its own properties. *)
Definition object_entries (props : list (string * jsval))
  : list (jskey * jsval) :=
  map (fun kv => (KStr (fst kv), snd kv)) props.

(** An attribute name that is not empty and not one of the keys the
    predicate translator dispatches on. *)
Definition plain_attribute (k : string) : bool :=
  negb (k =? "")
  && negb (toLowerCase k =? "or") && negb (toLowerCase k =? "and")
  && negb (toLowerCase k =? "like") && negb (toLowerCase k =? "not").

(** The comparison values of the data model: a scalar, an array of
    scalars, or a comparator object. *)
Definition comparison_value (v : jsval) : bool :=
  match v with
  | JArr elems => forallb scalar elems
  | JObj ops => comparator_object ops
  | _ => scalar v
  end.

(** A key that lower-cases to [or] or to [and]. *)
Definition is_combinator (k : string) : bool :=
  (toLowerCase k =? "or") || (toLowerCase k =? "and").

(** The predicate nodes that translate as the data model has it: a
    non-empty mapping, walked by its own properties, whose entries are
    an attribute with a comparison value, or an [or] / [and] key (in any
    case) with a sequence of such nodes. *)
Fixpoint predicate_node (v : jsval) : bool :=
  match v with
  | JObj props =>
      match props with [] => false | _ => true end
      && keyed props
      && forallb (fun kx : string * jsval =>
                    let (k, x) := kx in
                    (plain_attribute k && comparison_value x)
                    || (is_combinator k
                        && match x with
                           | JArr nodes => forallb predicate_node nodes
                           | _ => false
                           end)) props
  | _ => false
  end.

(** The same, as a derivation to invert. *)
Inductive node_shape : jsval -> Prop :=
| node_of (props : list (string * jsval)) :
    props <> [] -> keyed props = true -> Forall entry_shape props ->
    node_shape (JObj props)
with entry_shape : string * jsval -> Prop :=
| entry_attribute (k : string) (v : jsval) :
    plain_attribute k = true -> comparison_value v = true ->
    entry_shape (k, v)
| entry_combinator (k : string) (nodes : list jsval) :
    toLowerCase k = "or" \/ toLowerCase k = "and" ->
    Forall node_shape nodes ->
    entry_shape (k, JArr nodes).

(** A fragment that is tidy once the separator characters that end it are
    trimmed. *)
Definition trimmable (p : string) : Prop :=
  exists t u, p = t ++ u /\ tidy t = true /\ all_in " AND " u = true.

(** ** The statements of the adapter *)

(** Each method of the adapter builds one statement and hands it to
    [connection.query]; this is the statement, or the exception raised
    while building it.  The collection name is a string. *)
Module statement.

(** Fetch the schema for a collection. *)
Definition describe (collectionName : string) : string :=
  let tableName := mysql.escapeId collectionName in
  "DESCRIBE " ++ tableName.

(** Create a new collection. *)
Definition define (collectionName : string) (definition : jsval)
  : result string :=
  (* Escape table name *)
  let collectionName := mysql.escapeId collectionName in
  (* Iterate through each attribute, building a query string *)
  attributes <- match definition with
                | JUndefined | JNull => Throw "TypeError"
                | _ => Ok (get definition "attributes")
                end ;;
  schema <- sql.schema attributes ;;
  Ok ("CREATE TABLE " ++ collectionName ++ " (" ++ schema ++ ")").

(** Drop an existing collection. *)
Definition drop (collectionName : string) : string :=
  let collectionName := mysql.escapeId collectionName in
  "DROP TABLE " ++ collectionName.

(** Create one or more new models in the collection. *)
Definition create (collectionName : string) (data : jsval) : result string :=
  let tableName := mysql.escapeId collectionName in
  attributes <- sql.attributes data ;;
  values <- sql.values data None ;;
  Ok ("INSERT INTO " ++ tableName ++ " " ++ "(" ++ attributes ++ ")"
        ++ " VALUES (" ++ values ++ ")").

(** Find one or more models from the collection. *)
Definition find (collectionName : string) (options : options)
  : result string :=
  let tableName := mysql.escapeId collectionName in
  let query := "SELECT * FROM " ++ tableName ++ " " in
  clauses <- SerializeOptions options ;;
  Ok (query ++ clauses).

(** Update one or more models in the collection. *)
Definition update (collectionName : string) (options : options)
    (values : jsval) : result string :=
  let tableName := mysql.escapeId collectionName in
  assignments <- Assignment values ;;
  let query := "UPDATE " ++ tableName ++ " SET " ++ assignments ++ " " in
  clauses <- SerializeOptions options ;;
  Ok (query ++ clauses).

(** Delete one or more models from the collection. *)
Definition destroy (collectionName : string) (options : options)
  : result string :=
  let tableName := mysql.escapeId collectionName in
  let query := "DELETE FROM " ++ tableName ++ " " in
  clauses <- SerializeOptions options ;;
  Ok (query ++ clauses).

End statement.

(** ** Connections and callbacks *)

(** What a call of a method does to the outside, in order: it opens a
    connection, runs a statement on it, ends it, calls the callback that
    its caller gave, or raises an exception.  An exception that comes
    first is thrown to the caller of the method; one that comes after
    the connection was opened is raised inside a callback of the driver,
    where the caller cannot catch it. *)
Inductive event : Type :=
| CreateConnection (config : jsval)
| Query (statement : string) (data : jsval)
| EndConnection
| Callback (cb : jsval) (args : list jsval)
| Exception (msg : string).

(** The driver, seen from the adapter: the error that
    [connection.connect] reports for a configuration (a falsy one when
    the connection is made), and the error and the result that
    [connection.query] reports for a statement and its data.  Each of
    [connect], [query] and [end] calls the function it is given once. *)
Record driver : Type := mkDriver {
  connect_error : jsval -> jsval;
  query_outcome : string -> jsval -> jsval * jsval
}.

(** A function of the adapter that is handed on as a callback
    [function (err, result)]: what happens once it is called. *)
Definition continuation : Type := jsval -> jsval -> result (list event).

(** The registry [dbs] of the databases in use: from the identity of a
    collection to its configuration object. *)
Definition registry : Type := list (string * list (string * jsval)).

(** [dbs[collectionName]] *)
Definition config_of (dbs : registry) (collectionName : string) : jsval :=
  match own collectionName dbs with
  | Some config => JObj config
  | None => JUndefined
  end.

(** A call [cb(args)] of the value that the caller gave as callback.
    What a function does when called is its caller's business; a value
    that is not a function cannot be called. *)
Definition call (cb : jsval) (args : list jsval) : result (list event) :=
  match cb with
  | JFunc _ _ => Ok [Callback cb args]
  | _ => Ok [Exception "TypeError"]
  end.

(** The properties that [for (prop in source)] finds in a value. *)
Definition enumerable (source : jsval) : list (string * jsval) :=
  match source with
  | JObj props => props
  | _ => map (fun kv => (key_to_string (fst kv), snd kv))
           (match source with
            | JArr _ | JStr _ => underscore.each source
            | _ => []
            end)
  end.

(** Wrap a function in the logic necessary to provision a connection.
    Pooling is off, as [adapter.defaults] has it, so a new connection is
    used each time.  [marshalConfig] reads the settings of [config],
    which fails on [null] and [undefined]; of a configuration that is not
    a plain object the embedding keeps the value as it is.  [logic] is
    given the callback that ends the connection and then calls [cb]. *)
Definition spawnConnection (d : driver)
    (logic : continuation -> result (list event))
    (config cb : jsval) : result (list event) :=
  match config with
  | JUndefined | JNull => Ok [Exception "TypeError"]
  | _ =>
      let config := match config with
                    | JObj props => JObj (marshalConfig props)
                    | _ => config
                    end in
      let err := connect_error d config in
      trace <-
        (* Run logic using connection, then release/close it *)
        (if truthy err
         then call cb [err]
         else logic (fun err result =>
                       trace <- call cb [err; result] ;;
                       Ok (EndConnection :: trace))) ;;
      Ok (CreateConnection config :: trace)
  end.

(** ** The methods of the adapter *)

(** What becomes of the callback of [registerCollection]. *)
Inductive callback : Type :=
| Called    (* [return cb()] *)
| Pooled    (* handed to [pool.getConnection], which calls it later *)
| Dropped.  (* never called *)

(** The methods take the driver and, where they use it, the registry
    [dbs]; they return the events of the call. *)
Module adapter.

Definition escape (val : jsval) : result string :=
  mysql.escape false val.

(** Direct access to query.  [spawnConnection] is called with two
    arguments, the logic and [cb]: [cb] arrives as its [config], and its
    own [cb] is [undefined]. *)
Definition query (d : driver) (query : string) (data cb : jsval)
  : result (list event) :=
  let cb := if underscore.isFunction data then data else cb in
  let data := if underscore.isFunction data then JNull else data in
  spawnConnection d
    (fun cb' =>
       (* Run query *)
       if truthy data
       then let (err, result) := query_outcome d query data in
            trace <- cb' err result ;;
            Ok (Query query data :: trace)
       else let (err, result) := query_outcome d query JUndefined in
            trace <- cb' err result ;;
            Ok (Query query JUndefined :: trace))
    cb JUndefined.

(** Initialize the underlying data model.  The function takes the
    registry and returns it, with what becomes of [cb].  The collection
    is a plain object.  What [_.find] returns is stored under the
    identity; a configuration object being truthy, the test
    [!dbs[collection.identity]] that follows holds exactly when nothing
    was found, and the entry is then overwritten. *)
Definition registerCollection (dbs : registry)
    (collection : list (string * jsval)) : registry * callback :=
  let identity := to_string (lookup "identity" collection) in
  (* If the configuration in this collection corresponds with a known
     database, reuse it the connection(s) to that db *)
  match underscore.find dbs (fun db =>
          strict_equals (lookup "host" collection) (lookup "host" db)
          && strict_equals (lookup "database" collection)
                           (lookup "database" db)) with
  | Some db => (assign identity db dbs, Dropped)
  | None =>
      (* Otherwise initialize for the first time *)
      let dbs := assign identity (marshalConfig collection) dbs in
      if truthy (lookup "pool" collection)
      then (dbs, Pooled)
      else (dbs, Called)
  end.

(** [cb && cb()] *)
Definition teardown (cb : jsval) : result (list event) :=
  if truthy cb then call cb [] else Ok [].

(** Fetch the schema for a collection.  [schema] is [self.schema], the
    property of the adapter object that the method reads once the table
    is there; the adapter of src/ has none ([undefined]), and reading the
    schema of the collection from it fails. *)
Definition describe (d : driver) (dbs : registry) (schema : jsval)
    (collectionName : string) (cb : jsval) : result (list event) :=
  spawnConnection d
    (fun cb' =>
       let query := statement.describe collectionName in
       let (err, result) := query_outcome d query JUndefined in
       trace <-
         (if truthy err
          then if strict_equals (get err "code") (JStr "ER_NO_SUCH_TABLE")
               then cb' JNull JNull
               else cb' err JUndefined
          else if truthy result
               then match schema with
                    | JUndefined | JNull => Ok [Exception "TypeError"]
                    | _ => cb' JNull (get schema collectionName)
                    end
               else cb' JNull result) ;;
       Ok (Query query JUndefined :: trace))
    (config_of dbs collectionName) cb.

(** Create a new collection. *)
Definition define (d : driver) (dbs : registry) (collectionName : string)
    (definition cb : jsval) : result (list event) :=
  spawnConnection d
    (fun cb' =>
       match statement.define collectionName definition with
       | Ok query =>
           (* Run query *)
           let (err, result) := query_outcome d query JUndefined in
           trace <-
             (if truthy err then cb' err JUndefined else cb' JNull result) ;;
           Ok (Query query JUndefined :: trace)
       | Throw msg => Ok [Exception msg]
       | OutOfFuel => OutOfFuel
       end)
    (config_of dbs collectionName) cb.

(** Drop an existing collection. *)
Definition drop (d : driver) (dbs : registry) (collectionName : string)
    (cb : jsval) : result (list event) :=
  spawnConnection d
    (fun cb' =>
       let query := statement.drop collectionName in
       let (err, result) := query_outcome d query JUndefined in
       trace <-
         (if truthy err
          then if strict_equals (get err "code") (JStr "ER_BAD_TABLE_ERROR")
               then cb' JNull JNull
               else cb' err JUndefined
          else cb' JNull result) ;;
       Ok (Query query JUndefined :: trace))
    (config_of dbs collectionName) cb.

(** Create one or more new models in the collection.  The model handed
    back is a new object with the properties of [data], then [id]. *)
Definition create (d : driver) (dbs : registry) (collectionName : string)
    (data cb : jsval) : result (list event) :=
  spawnConnection d
    (fun cb' =>
       match statement.create collectionName data with
       | Ok query =>
           (* Run query *)
           let (err, result) := query_outcome d query JUndefined in
           trace <-
             (if truthy err then cb' err JUndefined
              else
                (* Build model to return *)
                match result with
                | JUndefined | JNull => Ok [Exception "TypeError"]
                | _ =>
                    let model :=
                      underscore.extend
                        (underscore.extend [] (enumerable data))
                        [("id", get result "insertId")] in
                    cb' err (JObj model)
                end) ;;
           Ok (Query query JUndefined :: trace)
       | Throw msg => Ok [Exception msg]
       | OutOfFuel => OutOfFuel
       end)
    (config_of dbs collectionName) cb.

(** Find one or more models from the collection. *)
Definition find (d : driver) (dbs : registry) (collectionName : string)
    (options : options) (cb : jsval) : result (list event) :=
  spawnConnection d
    (fun cb' =>
       match statement.find collectionName options with
       | Ok query =>
           (* Run query *)
           let (err, result) := query_outcome d query JUndefined in
           trace <- cb' err result ;;
           Ok (Query query JUndefined :: trace)
       | Throw msg => Ok [Exception msg]
       | OutOfFuel => OutOfFuel
       end)
    (config_of dbs collectionName) cb.

(** Update one or more models in the collection. *)
Definition update (d : driver) (dbs : registry) (collectionName : string)
    (options : options) (values cb : jsval) : result (list event) :=
  spawnConnection d
    (fun cb' =>
       match statement.update collectionName options values with
       | Ok query =>
           (* Run query *)
           let (err, result) := query_outcome d query JUndefined in
           trace <- cb' err result ;;
           Ok (Query query JUndefined :: trace)
       | Throw msg => Ok [Exception msg]
       | OutOfFuel => OutOfFuel
       end)
    (config_of dbs collectionName) cb.

(** Delete one or more models from the collection. *)
Definition destroy (d : driver) (dbs : registry) (collectionName : string)
    (options : options) (cb : jsval) : result (list event) :=
  spawnConnection d
    (fun cb' =>
       match statement.destroy collectionName options with
       | Ok query =>
           (* Run query *)
           let (err, result) := query_outcome d query JUndefined in
           trace <- cb' err result ;;
           Ok (Query query JUndefined :: trace)
       | Throw msg => Ok [Exception msg]
       | OutOfFuel => OutOfFuel
       end)
    (config_of dbs collectionName) cb.

End adapter.

(** ** Traces *)

Definition is_callback (e : event) : bool :=
  match e with Callback _ _ => true | _ => false end.

(** The callback is called at most once, and nothing happens after it. *)
Fixpoint callback_last (trace : list event) : bool :=
  match trace with
  | [] => true
  | e :: rest =>
      (if is_callback e then match rest with [] => true | _ => false end
       else true)
      && callback_last rest
  end.

(** What follows a statement is the end of the connection or an
    exception: the callback is not called on a connection that is still
    open. *)
Fixpoint connection_ended (trace : list event) : bool :=
  match trace with
  | [] => true
  | Query _ _ :: rest =>
      match rest with
      | EndConnection :: _ | Exception _ :: _ => connection_ended rest
      | _ => false
      end
  | _ :: rest => connection_ended rest
  end.

(** The run of a method: the events it gives rise to, the callback last
    if it is called, and not before the connection is ended. *)
Definition disciplined (r : result (list event)) : Prop :=
  exists trace,
    r = Ok trace
    /\ callback_last trace = true /\ connection_ended trace = true.

(** The names are pairwise distinct, as the keys of an object are. *)
Fixpoint distinct (names : list string) : bool :=
  match names with
  | [] => true
  | name :: rest => negb (existsb (String.eqb name) rest) && distinct rest
  end.

(** ** Columns, patterns and dates *)

(** The type names that [sqlTypeCast] knows, in lower case. *)
Definition known_types : list string :=
  [ "string"; "int"; "integer"; "float"; "double"; "date" ].

Definition known_type (t : string) : bool :=
  existsb (String.eqb (toLowerCase t)) known_types.

(** The attribute definition has a [type] that is a string. *)
Definition has_type (attribute : jsval) : bool :=
  match get attribute "type" with
  | JStr _ => true
  | _ => false
  end.

(** The SQL type of an attribute definition, as the text that string
    concatenation makes of it. *)
Definition sql_type (attribute : jsval) : string :=
  match sqlTypeCast (get attribute "type") with
  | Ok type => to_string type
  | _ => ""
  end.

(** One column of a DDL query, with nothing after it. *)
Definition column_text (kv : string * jsval) : string :=
  let (name, attribute) := kv in
  mysql.escapeId name ++ " " ++ sql_type attribute
    ++ (if truthy (get attribute "autoIncrement")
        then " NOT NULL AUTO_INCREMENT, PRIMARY KEY("
               ++ mysql.escapeId name ++ ")"
        else "").

(** The same, with the space that follows the type of a column that is
    not auto-incremented. *)
Definition column_padded (kv : string * jsval) : string :=
  column_text kv
    ++ (if truthy (get (snd kv) "autoIncrement") then "" else " ").

(** What the LIKE branch makes of an attribute and a scalar pattern. *)
Definition like_fragment (kv : string * jsval) : string :=
  let (attr, v) := kv in
  mysql.escapeId attr ++ " LIKE " ++ sql.replace_escaped_percent (literal v).

(** A value that [_.each] finds nothing in: neither a mapping, nor a
    sequence, nor a string. *)
Definition childless (v : jsval) : bool :=
  match v with
  | JUndefined | JNull | JBool _ | JNum _ | JNaN | JDate _ | JRegExp _ =>
      true
  | _ => false
  end.

(** A number below one hundred, in two decimal digits. *)
Definition two_digits (n : Z) : string :=
  String (ascii_of_nat (48 + Z.to_nat (n / 10)))
    (String (ascii_of_nat (48 + Z.to_nat (n mod 10))) "").

(** The errors that the translator and the statement builders raise: a
    TypeError, and the three that the adapter throws itself. *)
Inductive translator_error : string -> Prop :=
| type_error : translator_error "TypeError"
| not_unsupported : translator_error "NOT not supported yet!"
| regexp_unsupported :
    translator_error "RegExp LIKE criterias not supported by the MySQLAdapter yet.  Please contribute @ http://github.com/balderdashy/waterline-mysql"
| unknown_comparator (key : string) :
    translator_error ("Unknown comparator: " ++ key).

(** [r] is a result, or one of these errors. *)
Definition fails_properly {A : Type} (r : result A) : Prop :=
  forall msg, r = Throw msg -> translator_error msg.

(** * Lemmas and theorems *)

(** ** Strings: the last character, and what [rtrim] does *)

Section Strings.

Lemma append_nil_r (s : string) : s ++ "" = s.
Proof. induction s as [|c s IH]; simpl; [reflexivity | now rewrite IH]. Qed.

Lemma append_assoc (s t u : string) : (s ++ t) ++ u = s ++ t ++ u.
Proof. induction s as [|c s IH]; simpl; [reflexivity | now rewrite IH]. Qed.

Lemma last_char_none (s : string) : last_char s = None <-> s = "".
Proof.
  destruct s as [|c s]; simpl; [tauto|].
  destruct (last_char s); split; discriminate.
Qed.

Lemma last_char_app (s t : string) :
  t <> "" -> last_char (s ++ t) = last_char t.
Proof.
  intros Ht. induction s as [|c s IH]; simpl; [reflexivity|].
  rewrite IH. destruct (last_char t) eqn:E; [reflexivity|].
  apply last_char_none in E. contradiction.
Qed.

Lemma clean_end_app (chars s t : string) :
  t <> "" -> clean_end chars (s ++ t) = clean_end chars t.
Proof. intros Ht. unfold clean_end. now rewrite last_char_app. Qed.

Lemma clean_end_nonempty (chars s : string) :
  clean_end chars s = true -> s <> "".
Proof. intros H ->. discriminate. Qed.

Lemma clean_end_app_r (chars s t : string) :
  clean_end chars t = true -> clean_end chars (s ++ t) = true.
Proof.
  intros H. rewrite clean_end_app; [assumption|].
  now apply clean_end_nonempty with chars.
Qed.

Lemma rtrim_clean (chars s : string) :
  clean_end chars s = true -> underscore.rtrim s chars = s.
Proof.
  unfold clean_end. induction s as [|c s IH]; simpl; [discriminate|].
  destruct (last_char s) as [d|] eqn:E.
  - intros H. rewrite (IH H).
    destruct s; [discriminate|]. reflexivity.
  - apply last_char_none in E. subst s. simpl.
    intros H. apply negb_true_iff in H. now rewrite H.
Qed.

Lemma rtrim_all_in (chars t : string) :
  all_in chars t = true -> underscore.rtrim t chars = "".
Proof.
  unfold all_in. induction t as [|c t IH]; simpl; [reflexivity|].
  intros H. apply andb_true_iff in H as [Hc Ht].
  rewrite (IH Ht), Hc. reflexivity.
Qed.

Lemma rtrim_app_all_in (chars s t : string) :
  all_in chars t = true ->
  underscore.rtrim (s ++ t) chars = underscore.rtrim s chars.
Proof.
  intros Ht. induction s as [|c s IH]; simpl.
  - now apply rtrim_all_in.
  - now rewrite IH.
Qed.

(** Trimming removes exactly the separator appended last when what
    precedes it ends cleanly. *)
Lemma rtrim_app_sep (sep s : string) :
  all_in sep sep = true -> clean_end sep s = true ->
  underscore.rtrim (s ++ sep) sep = s.
Proof.
  intros Hsep Hs. rewrite rtrim_app_all_in by assumption.
  now apply rtrim_clean.
Qed.

End Strings.

(** ** [build] joins the fragments of its entries *)

Section Build.

Variable fn : sql.iteratee.
Variables keyOverride parentKey : option jskey.

Lemma with_sep_cons (sep p : string) (parts : list string) :
  with_sep sep (p :: parts) = p ++ sep ++ with_sep sep parts.
Proof.
  unfold with_sep. simpl. destruct parts as [|q parts]; simpl.
  - now rewrite append_nil_r.
  - now rewrite append_assoc.
Qed.

Lemma build_each_fragments (sep : string) (entries : list (jskey * jsval)) :
  forall acc,
    sql.build_each fn sep keyOverride parentKey entries acc
    = (parts <- fragments fn keyOverride parentKey entries ;;
       Ok (acc ++ with_sep sep parts)).
Proof.
  induction entries as [|[k v] rest IH]; intros acc; simpl.
  - now rewrite append_nil_r.
  - destruct (fn v _ parentKey) as [part| |]; simpl; try reflexivity.
    rewrite IH.
    destruct (fragments fn keyOverride parentKey rest) as [parts| |]; simpl;
      try reflexivity.
    now rewrite with_sep_cons, !append_assoc.
Qed.

Lemma with_sep_join (sep : string) (parts : list string) :
  parts <> [] -> with_sep sep parts = join sep parts ++ sep.
Proof.
  induction parts as [|p parts IH]; [congruence|]. intros _.
  rewrite with_sep_cons. destruct parts as [|q parts].
  - unfold with_sep, join. simpl. now rewrite append_nil_r.
  - rewrite IH by discriminate. unfold join. simpl.
    now rewrite !append_assoc.
Qed.

Lemma clean_end_join (chars sep : string) (parts : list string) :
  parts <> [] -> clean_end chars (last parts "") = true ->
  clean_end chars (join sep parts) = true.
Proof.
  induction parts as [|p parts IH]; [congruence|]. intros _ H.
  destruct parts as [|q parts]; [exact H|].
  unfold join. simpl String.concat.
  rewrite <- append_assoc. apply clean_end_app_r.
  apply IH; [discriminate | exact H].
Qed.

Lemma build_fragments (collection : jsval) (separator : option string) :
  sql.build collection fn separator keyOverride parentKey
  = (parts <- fragments fn keyOverride parentKey (underscore.each collection) ;;
     Ok (underscore.rtrim
           (with_sep (separator_or_default separator) parts)
           (separator_or_default separator))).
Proof.
  unfold sql.build. fold (separator_or_default separator).
  rewrite build_each_fragments.
  destruct (fragments _); reflexivity.
Qed.

(** When every entry yields a fragment and the last fragment ends
    cleanly, [build] returns the fragments joined by the separator. *)
Lemma build_join (collection : jsval) (separator : option string)
      (parts : list string) :
  let sep := separator_or_default separator in
  all_in sep sep = true ->
  fragments fn keyOverride parentKey (underscore.each collection) = Ok parts ->
  (parts = [] \/ clean_end sep (last parts "") = true) ->
  sql.build collection fn separator keyOverride parentKey
  = Ok (join sep parts).
Proof.
  intros sep Hsep Hparts Hlast. rewrite build_fragments, Hparts. simpl.
  fold sep. f_equal. destruct Hlast as [-> | Hlast]; [reflexivity|].
  assert (Hne : parts <> []) by (intros ->; discriminate).
  rewrite with_sep_join by assumption.
  apply rtrim_app_sep; [assumption|].
  now apply clean_end_join.
Qed.

(** A failing entry makes [build] fail the same way. *)
Lemma build_throw (collection : jsval) (separator : option string)
      (msg : string) :
  fragments fn keyOverride parentKey (underscore.each collection)
  = Throw msg ->
  sql.build collection fn separator keyOverride parentKey = Throw msg.
Proof. intros H. now rewrite build_fragments, H. Qed.

End Build.

(** ** Fuel: more of it never changes a result *)

Section Fuel.

Lemma refines_refl {A : Type} (r : result A) : refines r r.
Proof. now right. Qed.

Lemma refines_bind {A B : Type} (r r' : result A) (k k' : A -> result B) :
  refines r r' -> (forall a, refines (k a) (k' a)) ->
  refines (bind r k) (bind r' k').
Proof.
  intros [-> | ->] Hk; [now left|].
  destruct r as [a| |]; simpl; [apply Hk | now right | now left].
Qed.

Lemma refines_build_each (f f' : sql.iteratee) sep ko pk entries :
  refines_fn f f' ->
  forall acc,
    refines (sql.build_each f sep ko pk entries acc)
            (sql.build_each f' sep ko pk entries acc).
Proof.
  intros Hf. induction entries as [|[k v] rest IH]; intros acc; simpl.
  - apply refines_refl.
  - apply refines_bind; [apply Hf | intros part; apply IH].
Qed.

Lemma refines_build (f f' : sql.iteratee) collection sep ko pk :
  refines_fn f f' ->
  refines (sql.build collection f sep ko pk)
          (sql.build collection f' sep ko pk).
Proof.
  intros Hf. unfold sql.build. apply refines_bind.
  - now apply refines_build_each.
  - intros; apply refines_refl.
Qed.

Lemma refines_where_step (p p' : sql.iteratee) :
  refines_fn p p' -> refines_where (sql.where_step p) (sql.where_step p').
Proof. intros Hp v k pk. now apply refines_build. Qed.

Lemma refines_predicate_step (w w' : sql.where_type) (c c' : sql.iteratee) :
  refines_where w w' -> refines_fn c c' ->
  refines_fn (sql.predicate_step w c) (sql.predicate_step w' c').
Proof.
  intros Hw Hc v k pk. unfold sql.predicate_step.
  destruct (key_truthy pk); [apply Hc|].
  apply refines_bind; [apply refines_refl|]. intros lower.
  assert (Hb : forall sep,
             refines
               (sql.build v (fun x y z => w x (Some y) z) sep None None)
               (sql.build v (fun x y z => w' x (Some y) z) sep None None)).
  { intros sep. apply refines_build. intros x y z. apply Hw. }
  destruct (lower =? "or").
  { apply refines_bind; [apply Hb | intros; apply refines_refl]. }
  destruct (lower =? "and").
  { apply refines_bind; [apply Hb | intros; apply refines_refl]. }
  destruct (underscore.isArray v); [apply refines_refl|].
  destruct (lower =? "like"); [apply refines_refl|].
  destruct (lower =? "not"); [apply refines_refl|].
  apply Hc.
Qed.

Lemma refines_prepareCriterion_step (w w' : sql.where_type) :
  refines_where w w' ->
  refines_fn (sql.prepareCriterion_step w) (sql.prepareCriterion_step w').
Proof.
  intros Hw v k pk. unfold sql.prepareCriterion_step.
  destruct (validSubAttrCriteria v); [apply Hw | apply refines_refl].
Qed.

Lemma fuel_succ (n : nat) :
  refines_where (sql.where_ n) (sql.where_ (S n))
  /\ refines_fn (sql.predicate n) (sql.predicate (S n))
  /\ refines_fn (sql.prepareCriterion n) (sql.prepareCriterion (S n)).
Proof.
  induction n as [|n (IHw & IHp & IHc)].
  - repeat split; intros v k pk; now left.
  - repeat split.
    + apply refines_where_step, IHp.
    + apply refines_predicate_step; assumption.
    + apply refines_prepareCriterion_step, IHw.
Qed.

Lemma refines_trans {A : Type} (r1 r2 r3 : result A) :
  refines r1 r2 -> refines r2 r3 -> refines r1 r3.
Proof.
  intros [-> | ->]; [now left|]. intros H. exact H.
Qed.

Lemma fuel_le (n m : nat) :
  n <= m ->
  refines_where (sql.where_ n) (sql.where_ m)
  /\ refines_fn (sql.predicate n) (sql.predicate m)
  /\ refines_fn (sql.prepareCriterion n) (sql.prepareCriterion m).
Proof.
  induction 1 as [|m _ (IHw & IHp & IHc)].
  - repeat split; intros v k pk; apply refines_refl.
  - destruct (fuel_succ m) as (Hw & Hp & Hc).
    repeat split; intros v k pk.
    + eapply refines_trans; [apply IHw | apply Hw].
    + eapply refines_trans; [apply IHp | apply Hp].
    + eapply refines_trans; [apply IHc | apply Hc].
Qed.

(** A result obtained with some fuel is the result with any more. *)
Lemma where_fuel n m v k pk (s : string) :
  sql.where_ n v k pk = Ok s -> n <= m -> sql.where_ m v k pk = Ok s.
Proof.
  intros H Hle. destruct (fuel_le n m Hle) as (Hw & _).
  destruct (Hw v k pk) as [E | E]; congruence.
Qed.

Lemma where_fuel_throw n m v k pk (msg : string) :
  sql.where_ n v k pk = Throw msg -> n <= m ->
  sql.where_ m v k pk = Throw msg.
Proof.
  intros H Hle. destruct (fuel_le n m Hle) as (Hw & _).
  destruct (Hw v k pk) as [E | E]; congruence.
Qed.

Lemma predicate_fuel n m v k pk (r : result string) :
  sql.predicate n v k pk = r -> r <> OutOfFuel -> n <= m ->
  sql.predicate m v k pk = r.
Proof.
  intros H Hr Hle. destruct (fuel_le n m Hle) as (_ & Hp & _).
  destruct (Hp v k pk) as [E | E]; congruence.
Qed.

Lemma prepareCriterion_fuel n m v k pk (r : result string) :
  sql.prepareCriterion n v k pk = r -> r <> OutOfFuel -> n <= m ->
  sql.prepareCriterion m v k pk = r.
Proof.
  intros H Hr Hle. destruct (fuel_le n m Hle) as (_ & _ & Hc).
  destruct (Hc v k pk) as [E | E]; congruence.
Qed.

End Fuel.

(** ** Fragments that end cleanly *)

Section Tidy.

Lemma uint_last (d : Decimal.uint) :
  match last_char (NilEmpty.string_of_uint d) with
  | Some c => is_digit c = true
  | None => d = Decimal.Nil
  end.
Proof.
  induction d; simpl; try reflexivity;
    destruct (last_char (NilEmpty.string_of_uint d)); auto.
Qed.

Lemma number_last (n : Z) :
  exists c, last_char (number_to_string n) = Some c /\ is_digit c = true.
Proof.
  assert (H : forall d, exists c,
               last_char (NilZero.string_of_uint d) = Some c
               /\ is_digit c = true).
  { intros d. unfold NilZero.string_of_uint.
    pose proof (uint_last d) as Hd.
    destruct d; try (exists "0"%char; split; reflexivity);
      destruct (last_char (NilEmpty.string_of_uint _)) as [c|] eqn:E;
      try discriminate; exists c; split; auto. }
  unfold number_to_string. destruct n as [|p|p]; simpl.
  - exists "0"%char. split; reflexivity.
  - apply H.
  - destruct (H (Pos.to_uint p)) as (c & Hc & Hd). exists c.
    rewrite Hc. split; [reflexivity | assumption].
Qed.

Lemma digit_not_separator (c : ascii) :
  is_digit c = true -> underscore.in_chars c separator_chars = false.
Proof.
  unfold is_digit, underscore.in_chars. simpl. intros H.
  repeat (apply orb_true_iff in H as [H | H];
          [apply Ascii.eqb_eq in H; subst c; reflexivity|]).
  discriminate.
Qed.

Lemma tidy_number (n : Z) : tidy (number_to_string n) = true.
Proof.
  destruct (number_last n) as (c & Hc & Hd). unfold tidy, clean_end.
  rewrite Hc. now rewrite digit_not_separator.
Qed.

Lemma tidy_app (s t : string) : tidy t = true -> tidy (s ++ t) = true.
Proof. apply clean_end_app_r. Qed.

Lemma tidy_quoted (s : string) : tidy (mysql.quoted s) = true.
Proof.
  unfold mysql.quoted.
  change (String mysql.quote (mysql.escape_chars s ++ String mysql.quote ""))
    with ((String mysql.quote (mysql.escape_chars s))
            ++ String mysql.quote "").
  now apply tidy_app.
Qed.

Lemma tidy_literal (v : jsval) : scalar v = true -> tidy (literal v) = true.
Proof.
  destruct v; try discriminate; intros _; simpl.
  - reflexivity.
  - destruct b; reflexivity.
  - apply tidy_number.
  - apply tidy_quoted.
  - apply tidy_quoted.
Qed.

(** A tidy string ends cleanly for any separator made of separator
    characters. *)
Lemma tidy_clean_end (sep s : string) :
  all_in separator_chars sep = true -> tidy s = true ->
  clean_end sep s = true.
Proof.
  unfold tidy, clean_end, all_in. destruct (last_char s) as [c|];
    [|discriminate].
  intros Hsep Hc. apply negb_true_iff in Hc. apply negb_true_iff.
  unfold underscore.in_chars in *.
  destruct (existsb (Ascii.eqb c) (list_ascii_of_string sep)) eqn:E;
    [|reflexivity].
  apply existsb_exists in E as (x & Hin & Hx).
  apply Ascii.eqb_eq in Hx. subst x.
  rewrite forallb_forall in Hsep. specialize (Hsep c Hin).
  unfold underscore.in_chars in Hsep. congruence.
Qed.

Lemma last_in {A : Type} (l : list A) (d : A) : l <> [] -> In (last l d) l.
Proof.
  induction l as [|x l IH]; [congruence|]. intros _.
  destruct l as [|y l]; [now left|]. right. apply IH. discriminate.
Qed.

Lemma tidy_join (sep : string) (parts : list string) :
  parts <> [] -> Forall (fun p => tidy p = true) parts ->
  tidy (join sep parts) = true.
Proof.
  intros Hne Hall. apply clean_end_join; [assumption|].
  rewrite Forall_forall in Hall. now apply Hall, last_in.
Qed.

Lemma prepareValue_literal (v : jsval) (k : option jskey) :
  scalar v = true -> sql.prepareValue v k = Ok (literal v).
Proof. destruct v; try discriminate; reflexivity. Qed.

End Tidy.

(** ** Unfolding the translator at the fuel of its argument *)

Section Unfold.

Lemma fuel_for_S (v : jsval) : fuel_for v = S (4 + 3 * height v).
Proof. reflexivity. Qed.

Lemma Criterion_step (value : jsval) (key : jskey) (parentKey : option jskey) :
  Criterion value key parentKey
  = sql.prepareCriterion_step (sql.where_ (4 + 3 * height value))
      value key parentKey.
Proof. reflexivity. Qed.

Lemma Predicate_step (criterion : jsval) (key : jskey)
      (parentKey : option jskey) :
  Predicate criterion key parentKey
  = sql.predicate_step (sql.where_ (4 + 3 * height criterion))
      (sql.prepareCriterion (4 + 3 * height criterion))
      criterion key parentKey.
Proof. reflexivity. Qed.

Lemma Translate_step (node : jsval) :
  Translate node
  = sql.where_step (sql.predicate (4 + 3 * height node)) node None None.
Proof. reflexivity. Qed.

(** Outside the sub-attribute case [prepareCriterion] does not recurse:
    any fuel gives the same result. *)
Lemma prepareCriterion_leaf (w : sql.where_type) (n : nat)
      (value : jsval) (key : jskey) (parentKey : option jskey) :
  validSubAttrCriteria value = false ->
  sql.prepareCriterion (S n) value key parentKey
  = sql.prepareCriterion_step w value key parentKey.
Proof.
  intros H. simpl. unfold sql.prepareCriterion_step. now rewrite H.
Qed.

Lemma scalar_not_subattr (v : jsval) :
  scalar v = true -> validSubAttrCriteria v = false.
Proof. destruct v; try discriminate; reflexivity. Qed.

Lemma recognized_false (key : jskey) :
  recognized key = false ->
  key_is key "<" = false /\ key_is key "lessThan" = false
  /\ key_is key "<=" = false /\ key_is key "lessThanOrEqual" = false
  /\ key_is key ">" = false /\ key_is key "greaterThan" = false
  /\ key_is key ">=" = false /\ key_is key "greaterThanOrEqual" = false
  /\ key_is key "!" = false /\ key_is key "not" = false
  /\ key_is key "contains" = false /\ key_is key "startsWith" = false
  /\ key_is key "endsWith" = false.
Proof.
  unfold recognized, comparators. simpl. intros H.
  repeat (apply orb_false_iff in H as [? H]). repeat split; assumption.
Qed.

End Unfold.

(** ** The sub-attribute test *)

Section SubAttribute.

(** The test holds of an object exactly when one of the comparator keys
    has a truthy value. *)
Lemma validSubAttrCriteria_truthy (props : list (string * jsval)) :
  validSubAttrCriteria (JObj props)
  = existsb (fun op => truthy (lookup op props)) comparators.
Proof.
  unfold validSubAttrCriteria, comparators.
  cbn [underscore.isObject andb get existsb]. btauto.
Qed.

Lemma lookup_falsy (op : string) (props : list (string * jsval)) :
  forallb (fun kv => negb (truthy (snd kv))) props = true ->
  truthy (lookup op props) = false.
Proof.
  induction props as [|[k v] props IH]; intros H; [reflexivity|].
  cbn [forallb snd] in H. apply andb_true_iff in H as [Hv H].
  cbn [lookup]. destruct (k =? op); [now apply negb_true_iff | now apply IH].
Qed.

(** An object all of whose operands are falsy is never taken for a
    comparator object, whatever its keys. *)
Lemma validSubAttrCriteria_falsy (props : list (string * jsval)) :
  forallb (fun kv => negb (truthy (snd kv))) props = true ->
  validSubAttrCriteria (JObj props) = false.
Proof.
  intros H. rewrite validSubAttrCriteria_truthy.
  apply not_true_is_false. intros E.
  apply existsb_exists in E as (op & _ & Hop).
  now rewrite lookup_falsy in Hop.
Qed.

End SubAttribute.

(** ** Falsy operands, wildcards and unsupported keys *)

(** C1 (the code departs from the claim).  A comparator object whose only
    operand is falsy is not recognized by [validSubAttrCriteria]: for each
    of the thirteen comparator keys and each falsy operand the test
    answers false, and [{age: {'<': 0}}] is rendered as an equality with
    the escaped object, where translation under the parent key (shown
    last) would render the comparison. *)
Theorem C1_falsy_operand_not_recognized :
  forallb (fun op =>
     forallb (fun v => negb (validSubAttrCriteria (JObj [(op, v)])))
             falsy_operands) comparators = true
  /\ Criterion (JObj [("<", JNum 0)]) (KStr "age") None = Ok "`age`=`<` = 0"
  /\ sql.where_ (fuel_for (JObj [("<", JNum 0)])) (JObj [("<", JNum 0)]) None
       (Some (KStr "age")) = Ok "`age`<0".
Proof. repeat split; vm_compute; reflexivity. Qed.

(** C2 (the code departs from the claim).  [{name: null}] renders the
    NULL test, but [{name: {'!': null}}] is not recognized as a comparator
    object (its operand is falsy) and renders as an equality with the
    escaped object, not as IS NOT NULL. *)
Theorem C2_not_null_renders_equality :
  Translate (JObj [("name", JNull)]) = Ok "`name` IS NULL"
  /\ Translate (JObj [("name", JObj [("!", JNull)])])
     = Ok "`name`=`!` = NULL".
Proof. split; vm_compute; reflexivity. Qed.

(** C3 (the code departs from the claim).  The LIKE comparators put their
    wildcard next to the quoted literal and not inside it: what follows
    LIKE is not one string literal. *)
Theorem C3_wildcards_outside_literal :
  Translate (JObj [("name", JObj [("contains", JStr "foo")])])
  = Ok "`name` LIKE %'foo'%"
  /\ Translate (JObj [("name", JObj [("startsWith", JStr "foo")])])
     = Ok "`name` LIKE 'foo'%"
  /\ Translate (JObj [("name", JObj [("endsWith", JStr "foo")])])
     = Ok "`name` LIKE %'foo'"
  /\ is_string_literal "%'foo'%" = false
  /\ is_string_literal "'foo'%" = false
  /\ is_string_literal "%'foo'" = false
  /\ is_string_literal (literal (JStr "foo")) = true.
Proof. repeat split; vm_compute; reflexivity. Qed.

(** C4, as stated, fails twice: a [not] key whose value is an array is
    taken by the IN branch, which comes first, and an unknown key under a
    parent key whose operand is itself a comparator object is translated
    as an attribute. *)
Lemma C4_counterexample :
  Predicate (JArr [JNum 1; JNum 2]) (KStr "not") None = Ok "`not` IN (1, 2)"
  /\ Criterion (JObj [("<", JNum 5)]) (KStr "foo") (Some (KStr "age"))
     = Ok "`foo`<5".
Proof. split; vm_compute; reflexivity. Qed.

(** C4 (amended).  Under an active parent key, a key that is not a
    recognized comparator and whose operand is not itself a comparator
    object fails with "Unknown comparator: <key>" (the operand being one
    the driver escapes); and without an active parent key, a key that
    lower-cases to [not] and whose value is not an array fails with
    "NOT not supported yet!". *)
Theorem C4_unsupported_keys_fail :
  (forall (value : jsval) (key : jskey) (parent valueStr : string),
      parent <> "" ->
      validSubAttrCriteria value = false ->
      recognized key = false ->
      sql.prepareValue value (Some (KStr parent)) = Ok valueStr ->
      Criterion value key (Some (KStr parent))
      = Throw ("Unknown comparator: " ++ key_to_string key))
  /\ (forall (criterion : jsval) (key : string) (parentKey : option jskey),
         key_truthy parentKey = false ->
         toLowerCase key = "not" ->
         underscore.isArray criterion = false ->
         Predicate criterion (KStr key) parentKey
         = Throw "NOT not supported yet!").
Proof.
  split.
  - intros value key parent valueStr Hp Hsub Hkey Hval.
    rewrite Criterion_step. unfold sql.prepareCriterion_step.
    rewrite Hsub. simpl key_truthy.
    apply String.eqb_neq in Hp. rewrite Hp. simpl negb. cbv iota.
    simpl sql.prepareAttribute. rewrite Hval. simpl bind.
    destruct (recognized_false key Hkey)
      as (-> & -> & -> & -> & -> & -> & -> & -> & -> & -> & -> & -> & ->).
    reflexivity.
  - intros criterion key parentKey Hpk Hlow Harr.
    rewrite Predicate_step. unfold sql.predicate_step.
    rewrite Hpk. simpl key_toLowerCase. rewrite Hlow. simpl bind.
    rewrite Harr. reflexivity.
Qed.

Lemma C4_witness :
  Criterion (JNum 2) (KStr "foo") (Some (KStr "age"))
  = Throw "Unknown comparator: foo"
  /\ Predicate (JNum 1) (KStr "NOT") None = Throw "NOT not supported yet!".
Proof.
  split.
  - apply (proj1 C4_unsupported_keys_fail (JNum 2) (KStr "foo") "age" "2");
      [discriminate | reflexivity | reflexivity | reflexivity].
  - apply (proj2 C4_unsupported_keys_fail (JNum 1) "NOT" None);
      reflexivity.
Defined.

(** ** The options serializer, clause by clause *)

(** Both sides are the same pieces, appended in different groupings. *)
Ltac normalize_append :=
  repeat rewrite append_assoc; repeat rewrite append_nil_r;
  simpl; repeat rewrite append_nil_r; reflexivity.

Section Serialize.

Lemma concat_empty_cons (x : string) (xs : list string) :
  String.concat "" (x :: xs) = x ++ String.concat "" xs.
Proof. destruct xs; simpl; [now rewrite append_nil_r | reflexivity]. Qed.

Lemma sort_each_cons (attr : string) (direction : jsval)
      (rest : list (jskey * jsval)) (queryPart : string) :
  sql.sort_each ((KStr attr, direction) :: rest) queryPart
  = sql.sort_each rest (queryPart ++ sort_fragment (attr, direction)).
Proof.
  cbn [sql.sort_each sql.prepareAttribute bind]. unfold sort_fragment.
  destruct direction as [| | |n| | | | | | |];
    try (now rewrite !append_assoc).
  destruct n as [|p|p]; try (now rewrite !append_assoc).
  destruct p; now rewrite !append_assoc.
Qed.

Lemma sort_each_fragments (attrs : list (string * jsval)) :
  forall queryPart,
    sql.sort_each (map (fun kv => (KStr (fst kv), snd kv)) attrs) queryPart
    = Ok (queryPart ++ String.concat "" (map sort_fragment attrs)).
Proof.
  induction attrs as [|[attr direction] attrs IH]; intros queryPart.
  - simpl. now rewrite append_nil_r.
  - cbn [map fst snd]. rewrite sort_each_cons, IH, concat_empty_cons.
    now rewrite append_assoc.
Qed.

Lemma each_keyed (props : list (string * jsval)) :
  keyed props = true -> underscore.each (JObj props) = object_entries props.
Proof.
  unfold keyed. cbn [underscore.each].
  destruct (lookup "length" props); try discriminate; reflexivity.
Qed.

(** What the loop has appended so far does not matter to what it
    appends. *)
Lemma sort_each_app (entries : list (jskey * jsval)) :
  forall a b,
    sql.sort_each entries (a ++ b)
    = (o <- sql.sort_each entries b ;; Ok (a ++ o)).
Proof.
  induction entries as [|[k direction] rest IH]; intros a b;
    cbn [sql.sort_each]; [reflexivity|].
  destruct (sql.prepareAttribute JNull k) as [attrStr| |]; cbn [bind];
    try reflexivity.
  assert (Hm : forall X,
             match direction with
             | JNum 1 => X ++ "ASC "
             | _ => X ++ "DESC "
             end
             = X ++ match direction with
                    | JNum 1 => "ASC "
                    | _ => "DESC "
                    end).
  { intros X. destruct direction as [| | |n| | | | | | |]; try reflexivity.
    destruct n as [|p|p]; try reflexivity. destruct p; reflexivity. }
  rewrite !Hm.
  replace (((a ++ b) ++ attrStr ++ " ")
             ++ match direction with
                | JNum 1 => "ASC "
                | _ => "DESC "
                end)
    with (a ++ ((b ++ attrStr ++ " ")
                  ++ match direction with
                     | JNum 1 => "ASC "
                     | _ => "DESC "
                     end))
    by now rewrite !append_assoc.
  apply IH.
Qed.

(** The four parts of the result, the ORDER BY clause as the loop over
    the entries of [sort] makes it. *)
Lemma SerializeOptions_parts (c : CriteriaObject) :
  SerializeOptions (to_options c)
  = (w <- match c_where c with
          | Some node => Translate (JObj node)
          | None => Ok ""
          end ;;
     o <- match c_sort c with
          | Some attrs =>
              sql.sort_each (underscore.each (JObj attrs)) "ORDER BY "
          | None => Ok ""
          end ;;
     Ok (where_clause c w ++ o ++ limit_clause_raw c ++ offset_clause c)).
Proof.
  destruct c as [wh so li sk].
  unfold SerializeOptions, sql.serializeOptions, to_options, where_clause,
    limit_clause_raw, offset_clause.
  cbn [opt_where opt_sort opt_limit opt_skip c_where c_sort c_limit c_skip].
  destruct wh as [node|]; cbn [js_of_mapping truthy].
  - fold (Translate (JObj node)).
    destruct (Translate (JObj node)) as [w| |]; cbn [bind];
      try reflexivity.
    destruct so as [attrs|]; cbn [js_of_mapping truthy].
    + rewrite sort_each_app.
      destruct (sql.sort_each _ "ORDER BY ") as [o| |]; cbn [bind];
        try reflexivity.
      f_equal.
      destruct li as [l|], sk as [k|]; cbn [js_of_number truthy to_string];
        try destruct (l =? 0)%Z; try destruct (k =? 0)%Z; cbn [negb];
        normalize_append.
    + cbn [bind]. f_equal.
      destruct li as [l|], sk as [k|]; cbn [js_of_number truthy to_string];
        try destruct (l =? 0)%Z; try destruct (k =? 0)%Z; cbn [negb];
        normalize_append.
  - cbn [bind].
    destruct so as [attrs|]; cbn [js_of_mapping truthy].
    + change (sql.sort_each (underscore.each (JObj attrs)) ("" ++ "ORDER BY "))
        with (sql.sort_each (underscore.each (JObj attrs)) "ORDER BY ").
      destruct (sql.sort_each _ "ORDER BY ") as [o| |]; cbn [bind];
        try reflexivity.
      f_equal.
      destruct li as [l|], sk as [k|]; cbn [js_of_number truthy to_string];
        try destruct (l =? 0)%Z; try destruct (k =? 0)%Z; cbn [negb];
        normalize_append.
    + cbn [bind]. f_equal.
      destruct li as [l|], sk as [k|]; cbn [js_of_number truthy to_string];
        try destruct (l =? 0)%Z; try destruct (k =? 0)%Z; cbn [negb];
        normalize_append.
Qed.

(** The loop only appends. *)
Lemma sort_each_prefix (entries : list (jskey * jsval)) (a o : string) :
  sql.sort_each entries a = Ok o -> exists t, o = a ++ t.
Proof.
  rewrite <- (append_nil_r a) at 1. rewrite sort_each_app.
  destruct (sql.sort_each entries "") as [t| |]; cbn [bind];
    try discriminate.
  intros H. injection H as <-. now exists t.
Qed.

Lemma SerializeOptions_clauses (c : CriteriaObject) :
  keyed_mapping (c_sort c) = true ->
  SerializeOptions (to_options c)
  = (w <- match c_where c with
          | Some node => Translate (JObj node)
          | None => Ok ""
          end ;;
     Ok (where_clause c w ++ order_by_clause c
           ++ limit_clause_raw c ++ offset_clause c)).
Proof.
  intros Hsort. rewrite SerializeOptions_parts. unfold order_by_clause.
  destruct (c_sort c) as [attrs|]; [|reflexivity].
  cbn [keyed_mapping] in Hsort. rewrite (each_keyed _ Hsort).
  unfold object_entries. rewrite sort_each_fragments. reflexivity.
Qed.

Lemma limit_clause_nonnegative (c : CriteriaObject) :
  nonnegative (c_limit c) -> limit_clause_raw c = limit_clause c.
Proof.
  unfold nonnegative, limit_clause_raw, limit_clause.
  destruct (c_limit c) as [n|]; [|reflexivity]. intros Hn.
  destruct (Z.eqb_spec n 0) as [-> | Hne]; [reflexivity|].
  destruct (Z.ltb_spec 0 n); [reflexivity | lia].
Qed.

End Serialize.

(** C7 (the code departs from the claim).  A sort mapping with an
    attribute named [length] whose direction is a number is walked by
    index, as an array would be: with the direction 1 the index 0 is
    handed to the identifier escaper, which fails; with a direction that
    is not positive the mapping has no entry at all, and the sort
    attributes are dropped. *)
Theorem C7_sort_by_length :
  SerializeOptions
    (to_options (mkCriteria None (Some [("length", JNum 1)]) None None))
  = Throw "TypeError"
  /\ SerializeOptions
       (to_options (mkCriteria None
                      (Some [("name", JNum 1); ("length", JNum (-1))])
                      None None))
     = Ok "ORDER BY LIMIT 18446744073709551610 ".
Proof. split; reflexivity. Qed.

(** X24.  For a criteria object of the data model (a non-negative limit)
    whose sort attributes, if any, are walked by their own properties
    (none called [length] holds a number) and whose predicate, if any,
    translates to [w], [serializeOptions] returns the WHERE clause, the
    ORDER BY clause, the LIMIT clause and the OFFSET clause, in this
    order: each sort attribute is followed by ASC exactly when its
    direction is the number 1 and by DESC otherwise, and the LIMIT clause
    holds the limit when it is positive and the sentinel
    18446744073709551610 when it is zero or absent. *)
Theorem clause_order (c : CriteriaObject) (w : string) :
  nonnegative (c_limit c) ->
  keyed_mapping (c_sort c) = true ->
  match c_where c with
  | Some node => Translate (JObj node) = Ok w
  | None => True
  end ->
  SerializeOptions (to_options c)
  = Ok (where_clause c w ++ order_by_clause c
          ++ limit_clause c ++ offset_clause c).
Proof.
  intros Hlimit Hsort Hwhere. rewrite SerializeOptions_clauses by assumption.
  rewrite limit_clause_nonnegative by assumption.
  unfold where_clause. destruct (c_where c) as [node|].
  - now rewrite Hwhere.
  - reflexivity.
Qed.

Lemma clause_order_witness :
  SerializeOptions
    (to_options (mkCriteria (Some [("a", JNum 1)])
                            (Some [("name", JNum 1); ("age", JNum (-1))])
                            (Some 10%Z) (Some 5%Z)))
  = Ok "WHERE `a`=1 ORDER BY `name` ASC `age` DESC LIMIT 10 OFFSET 5 ".
Proof.
  apply (clause_order
           (mkCriteria (Some [("a", JNum 1)])
                       (Some [("name", JNum 1); ("age", JNum (-1))])
                       (Some 10%Z) (Some 5%Z)) "`a`=1").
  - simpl. lia.
  - reflexivity.
  - reflexivity.
Defined.

(** C8, as stated, fails: an empty [where] mapping is truthy and yields a
    WHERE clause with no predicate, and a [skip] of 0 is falsy and yields
    no OFFSET clause. *)
Lemma C8_counterexample :
  SerializeOptions (to_options (mkCriteria (Some []) None None None))
  = Ok "WHERE  LIMIT 18446744073709551610 "
  /\ SerializeOptions (to_options (mkCriteria None None None (Some 0%Z)))
     = Ok "LIMIT 18446744073709551610 ".
Proof. split; vm_compute; reflexivity. Qed.

(** C8 (amended).  The output of [serializeOptions] starts with a WHERE
    clause only if [where] is present; when [skip] is present and not 0
    the output is that of the same criteria without [skip] followed by
    OFFSET and the number; and a [skip] of 0 changes nothing. *)
Theorem C8_where_and_offset (c : CriteriaObject) (s : string) :
  SerializeOptions (to_options c) = Ok s ->
  (String.prefix "WHERE " s = true -> c_where c <> None)
  /\ (forall n, c_skip c = Some n -> n <> 0%Z ->
        exists s',
          SerializeOptions (to_options (without_skip c)) = Ok s'
          /\ s = s' ++ "OFFSET " ++ number_to_string n ++ " ")
  /\ (c_skip c = Some 0%Z ->
      SerializeOptions (to_options (without_skip c)) = Ok s).
Proof.
  rewrite !SerializeOptions_parts.
  destruct c as [wh so li sk].
  unfold where_clause, limit_clause_raw, offset_clause, without_skip.
  cbn [c_where c_sort c_limit c_skip].
  intros H. repeat split.
  - destruct wh as [node|]; [discriminate|]. cbn [bind] in H.
    intros Hp. exfalso. destruct so as [attrs|].
    + destruct (sql.sort_each _ _) as [o| |] eqn:E; cbn [bind] in H;
        try discriminate.
      apply sort_each_prefix in E as (t & ->). injection H as <-.
      discriminate Hp.
    + cbn [bind] in H. injection H as <-.
      destruct li as [l|]; [destruct (l =? 0)%Z|]; discriminate Hp.
  - intros n -> Hn. apply Z.eqb_neq in Hn. rewrite Hn in H.
    destruct (match wh with
              | Some node => Translate (JObj node)
              | None => Ok ""
              end) as [w| |]; cbn [bind] in *; try discriminate.
    destruct (match so with
              | Some attrs =>
                  sql.sort_each (underscore.each (JObj attrs)) "ORDER BY "
              | None => Ok ""
              end) as [o| |]; cbn [bind] in *; try discriminate.
    injection H as <-. eexists. split; [reflexivity|].
    rewrite !append_nil_r, !append_assoc. reflexivity.
  - intros ->. exact H.
Qed.

Lemma C8_witness :
  (String.prefix "WHERE " "ORDER BY `name` DESC LIMIT 3 OFFSET 5 " = true ->
   @None (list (string * jsval)) <> None)
  /\ (forall n, Some 5%Z = Some n -> n <> 0%Z ->
        exists s',
          SerializeOptions
            (to_options (mkCriteria None (Some [("name", JNum 2)])
                                    (Some 3%Z) None)) = Ok s'
          /\ "ORDER BY `name` DESC LIMIT 3 OFFSET 5 "
             = s' ++ "OFFSET " ++ number_to_string n ++ " ")
  /\ (Some 5%Z = Some 0%Z ->
      SerializeOptions
        (to_options (mkCriteria None (Some [("name", JNum 2)])
                                (Some 3%Z) None))
      = Ok "ORDER BY `name` DESC LIMIT 3 OFFSET 5 ").
Proof.
  apply (C8_where_and_offset
           (mkCriteria None (Some [("name", JNum 2)]) (Some 3%Z) (Some 5%Z))
           "ORDER BY `name` DESC LIMIT 3 OFFSET 5 ").
  vm_compute. reflexivity.
Defined.

(** ** Criteria on scalars *)

Section ScalarCriteria.

Lemma key_truthy_str (s : string) :
  s <> "" -> key_truthy (Some (KStr s)) = true.
Proof. intros H. simpl. apply String.eqb_neq in H. now rewrite H. Qed.

(** Plain equality, or the NULL test, without parent key. *)
Lemma prepareCriterion_equality (n : nat) (v : jsval) (attr : string)
      (parentKey : option jskey) :
  scalar v = true -> key_truthy parentKey = false ->
  sql.prepareCriterion (S n) v (KStr attr) parentKey
  = Ok (equality_fragment (attr, v)).
Proof.
  intros Hv Hpk.
  rewrite (prepareCriterion_leaf (sql.where_ n))
    by now apply scalar_not_subattr.
  unfold sql.prepareCriterion_step.
  rewrite scalar_not_subattr, Hpk by assumption.
  cbn [sql.prepareAttribute bind].
  rewrite (prepareValue_literal v) by assumption. cbn [bind].
  destruct v; try discriminate; reflexivity.
Qed.

(** The comparator dispatch under a parent key. *)
Lemma prepareCriterion_comparator (n : nat) (v : jsval) (op parent : string) :
  parent <> "" -> scalar v = true -> recognized (KStr op) = true ->
  sql.prepareCriterion (S n) v (KStr op) (Some (KStr parent))
  = Ok (comparator_fragment parent (op, v)).
Proof.
  intros Hp Hv Hop.
  rewrite (prepareCriterion_leaf (sql.where_ n))
    by now apply scalar_not_subattr.
  unfold sql.prepareCriterion_step.
  rewrite scalar_not_subattr, key_truthy_str by assumption.
  cbn [sql.prepareAttribute bind].
  rewrite (prepareValue_literal v) by assumption. cbn [bind].
  unfold recognized, comparators in Hop. cbn [existsb key_is] in Hop.
  repeat (apply orb_true_iff in Hop as [Hop | Hop];
          [apply String.eqb_eq in Hop; subst op;
           destruct v; try discriminate; reflexivity|]).
  discriminate.
Qed.

Lemma tidy_equality_fragment (attr : string) (v : jsval) :
  scalar v = true -> tidy (equality_fragment (attr, v)) = true.
Proof.
  intros Hv. unfold equality_fragment.
  destruct v; try discriminate;
    try (apply tidy_app; reflexivity);
    rewrite <- append_assoc; apply tidy_app, tidy_literal; reflexivity.
Qed.

Lemma tidy_comparator_fragment (attr op : string) (v : jsval) :
  scalar v = true -> tidy (comparator_fragment attr (op, v)) = true.
Proof.
  intros Hv. pose proof (tidy_literal v Hv) as Hl.
  unfold comparator_fragment.
  repeat match goal with
         | |- tidy (if ?b then _ else _) = true => destruct b
         | |- tidy (match ?x with JNull => _ | _ => _ end) = true =>
             destruct x; try discriminate
         end;
    try (rewrite <- append_assoc; apply tidy_app; exact Hl);
    try (now apply tidy_app);
    try (rewrite <- !append_assoc; apply tidy_app; reflexivity).
Qed.

End ScalarCriteria.

(** ** Comparator objects under their attribute *)

Section ComparatorObjects.

Lemma fragments_comparators (n : nat) (attr : string)
      (ops : list (string * jsval)) :
  attr <> "" -> comparator_object ops = true ->
  fragments (sql.predicate (S (S n))) None (Some (KStr attr))
            (object_entries ops)
  = Ok (map (comparator_fragment attr) ops).
Proof.
  intros Hattr. induction ops as [|[op v] ops IH]; intros Hops.
  - reflexivity.
  - cbn [comparator_object forallb fst snd] in Hops.
    apply andb_true_iff in Hops as [Hopv Hops].
    apply andb_true_iff in Hopv as [Hop Hv].
    cbn [object_entries map fst snd fragments key_truthy].
    change (sql.predicate (S (S n)))
      with (sql.predicate_step (sql.where_ (S n))
              (sql.prepareCriterion (S n))).
    unfold sql.predicate_step at 1.
    rewrite key_truthy_str by assumption.
    rewrite prepareCriterion_comparator by assumption. cbn [bind].
    change (sql.predicate_step (sql.where_ (S n))
              (sql.prepareCriterion (S n)))
      with (sql.predicate (S (S n))).
    fold (object_entries ops). rewrite (IH Hops). reflexivity.
Qed.

Lemma all_in_and : all_in " AND " " AND " = true.
Proof. reflexivity. Qed.

Lemma all_in_or : all_in " OR " " OR " = true.
Proof. reflexivity. Qed.

Lemma all_in_comma : all_in ", " ", " = true.
Proof. reflexivity. Qed.

Lemma tidy_last (sep : string) (parts : list string) :
  all_in separator_chars sep = true ->
  Forall (fun p => tidy p = true) parts ->
  parts = [] \/ clean_end sep (last parts "") = true.
Proof.
  intros Hsep Hall. destruct parts as [|p parts]; [now left|]. right.
  apply tidy_clean_end; [assumption|].
  rewrite Forall_forall in Hall. apply Hall, last_in. discriminate.
Qed.

Lemma tidy_comparator_fragments (attr : string)
      (ops : list (string * jsval)) :
  comparator_object ops = true ->
  Forall (fun p => tidy p = true) (map (comparator_fragment attr) ops).
Proof.
  intros Hops. apply Forall_forall. intros p Hp.
  apply in_map_iff in Hp as ([op v] & <- & Hin).
  unfold comparator_object in Hops. rewrite forallb_forall in Hops.
  specialize (Hops _ Hin). apply andb_true_iff in Hops as [_ Hv].
  now apply tidy_comparator_fragment.
Qed.

(** No comparator is named [length]: a comparator object is walked by
    its own properties. *)
Lemma comparator_object_keyed (ops : list (string * jsval)) :
  comparator_object ops = true -> keyed ops = true.
Proof.
  unfold keyed. induction ops as [|[op v] ops IH]; [reflexivity|].
  cbn [comparator_object forallb fst snd lookup]. intros H.
  apply andb_true_iff in H as [Hop Hops].
  apply andb_true_iff in Hop as [Hop Hv].
  destruct (op =? "length") eqn:E; [|now apply IH].
  apply String.eqb_eq in E. subst op. discriminate.
Qed.

(** Translation of a comparator object under its attribute as parent
    key: every comparator is rendered, joined by AND in key order. *)
Lemma where_comparators (n : nat) (attr : string)
      (ops : list (string * jsval)) (key : option jskey) :
  attr <> "" -> comparator_object ops = true ->
  sql.where_ (S (S (S n))) (JObj ops) key (Some (KStr attr))
  = Ok (join " AND " (map (comparator_fragment attr) ops)).
Proof.
  intros Hattr Hops.
  change (sql.where_ (S (S (S n))))
    with (sql.where_step (sql.predicate (S (S n)))).
  unfold sql.where_step.
  apply (build_join (sql.predicate (S (S n))) None (Some (KStr attr))
           (JObj ops) (Some " AND ")).
  - reflexivity.
  - rewrite each_keyed by now apply comparator_object_keyed.
    now apply fragments_comparators.
  - apply tidy_last; [reflexivity|].
    now apply tidy_comparator_fragments.
Qed.

(** A comparator object whose first operand is truthy passes the
    sub-attribute test. *)
Lemma validSubAttrCriteria_head (op : string) (v : jsval)
      (ops : list (string * jsval)) :
  recognized (KStr op) = true -> truthy v = true ->
  validSubAttrCriteria (JObj ((op, v) :: ops)) = true.
Proof.
  intros Hop Hv. unfold validSubAttrCriteria.
  cbn [underscore.isObject andb get].
  unfold recognized, comparators in Hop. cbn [existsb key_is] in Hop.
  repeat (apply orb_true_iff in Hop as [Hop | Hop];
          [apply String.eqb_eq in Hop; subst op; cbn [lookup String.eqb];
           simpl; rewrite Hv; rewrite ?orb_true_r; reflexivity|]).
  discriminate.
Qed.

End ComparatorObjects.


(** ** The assignment builder *)

Section Assignments.

Lemma fragments_equalities (n : nat) (entries : list (string * jsval)) :
  forallb (fun kv => scalar (snd kv)) entries = true ->
  fragments (sql.prepareCriterion (S n)) None None (object_entries entries)
  = Ok (map equality_fragment entries).
Proof.
  induction entries as [|[attr v] entries IH]; intros H.
  - reflexivity.
  - cbn [forallb snd] in H. apply andb_true_iff in H as [Hv H].
    cbn [object_entries map fst snd fragments key_truthy].
    rewrite prepareCriterion_equality by (assumption || reflexivity).
    cbn [bind]. fold (object_entries entries). now rewrite (IH H).
Qed.

Lemma tidy_equality_fragments (entries : list (string * jsval)) :
  forallb (fun kv => scalar (snd kv)) entries = true ->
  Forall (fun p => tidy p = true) (map equality_fragment entries).
Proof.
  intros H. apply Forall_forall. intros p Hp.
  apply in_map_iff in Hp as ([attr v] & <- & Hin).
  rewrite forallb_forall in H. specialize (H _ Hin).
  now apply tidy_equality_fragment.
Qed.

End Assignments.

(** C10 (the code departs from the claim).  A mapping of values with an
    attribute named [length] that holds a number is walked by index, as
    an array would be: with a positive length the index 0 is handed to
    the identifier escaper, which fails, and with the length 0 the
    mapping has no entry at all, so that the SET clause of the UPDATE is
    empty. *)
Theorem C10_values_with_length :
  Assignment (JObj [("length", JNum 2); ("a", JNum 1)]) = Throw "TypeError"
  /\ Assignment (JObj [("a", JNum 1); ("length", JNum 0)]) = Ok ""
  /\ statement.update "user" (mkOptions JUndefined JUndefined JUndefined
                                        JUndefined)
       (JObj [("a", JNum 1); ("length", JNum 0)])
     = Ok "UPDATE `user` SET  LIMIT 18446744073709551610 ".
Proof. repeat split; reflexivity. Qed.

(** X27.  The assignment builder [sql.criteria], on a mapping of scalar
    values that has no attribute [length] holding a number, renders each
    pair as escaped attribute = escaped value, a null value as the NULL
    test [attr IS NULL], and joins the pairs with ', '. *)
Theorem assignment_pairs (entries : list (string * jsval)) :
  keyed entries = true ->
  forallb (fun kv => scalar (snd kv)) entries = true ->
  Assignment (JObj entries) = Ok (join ", " (map equality_fragment entries)).
Proof.
  intros Hk H. unfold Assignment, sql.criteria. rewrite fuel_for_S.
  apply (build_join (sql.prepareCriterion _) None None (JObj entries) None).
  - reflexivity.
  - rewrite (each_keyed _ Hk). now apply fragments_equalities.
  - apply tidy_last; [reflexivity|]. now apply tidy_equality_fragments.
Qed.

Lemma assignment_pairs_witness :
  Assignment (JObj [("a", JNum 1); ("b", JNull); ("c", JStr "x")])
  = Ok "`a`=1, `b` IS NULL, `c`='x'".
Proof.
  apply (assignment_pairs [("a", JNum 1); ("b", JNull); ("c", JStr "x")]);
    reflexivity.
Defined.

(** ** Attributes with comparison values *)

Section ComparisonValues.

Lemma escape_object (props : list (string * jsval)) :
  mysql.escape false (JObj props)
  = (ss <- objectToValues props ;; Ok (join ", " ss)).
Proof. reflexivity. Qed.

Lemma escape_nested_scalar (v : jsval) :
  scalar v = true ->
  exists s, mysql.escape true v = Ok s /\ tidy s = true.
Proof.
  destruct v; try discriminate; intros _; simpl; eexists; split;
    try reflexivity.
  - destruct b; reflexivity.
  - apply tidy_number.
  - apply tidy_quoted.
  - apply tidy_quoted.
Qed.

Lemma objectToValues_scalars (props : list (string * jsval)) :
  forallb (fun kv => scalar (snd kv)) props = true ->
  exists ss, objectToValues props = Ok ss
             /\ Forall (fun p => tidy p = true) ss.
Proof.
  induction props as [|[k v] props IH]; intros H.
  - exists []. split; [reflexivity | constructor].
  - cbn [forallb snd] in H. apply andb_true_iff in H as [Hv H].
    destruct (IH H) as (ss & Hss & Htidy).
    destruct (escape_nested_scalar v Hv) as (s & Hs & Hts).
    exists ((mysql.escapeId k ++ " = " ++ s) :: ss). split.
    + unfold objectToValues in *. 
      destruct v; try discriminate; rewrite Hs; cbn [bind];
        rewrite Hss; reflexivity.
    + constructor; [|assumption].
      rewrite <- append_assoc. now apply tidy_app.
Qed.

Lemma comparator_object_scalars (ops : list (string * jsval)) :
  comparator_object ops = true ->
  forallb (fun kv => scalar (snd kv)) ops = true.
Proof.
  unfold comparator_object. rewrite !forallb_forall. intros H x Hx.
  specialize (H x Hx). now apply andb_true_iff in H as [_ ?].
Qed.

Lemma prepareValue_comparator_object (ops : list (string * jsval))
      (k : option jskey) :
  comparator_object ops = true ->
  exists s, sql.prepareValue (JObj ops) k = Ok s
            /\ (s = "" \/ tidy s = true).
Proof.
  intros H. apply comparator_object_scalars in H.
  destruct (objectToValues_scalars ops H) as (ss & Hss & Htidy).
  exists (join ", " ss). split.
  - unfold sql.prepareValue. rewrite escape_object, Hss. reflexivity.
  - destruct ss as [|p ss]; [now left | right].
    apply tidy_join; [discriminate | assumption].
Qed.

(** The value list of an IN test. *)
Lemma fragments_values (k : string) (elems : list jsval) :
  forallb scalar elems = true ->
  forall i,
    fragments (fun v key _ => sql.prepareValue v (Some key))
              (Some (KStr k)) None (underscore.indexed_from i elems)
    = Ok (map literal elems).
Proof.
  induction elems as [|v elems IH]; intros H i.
  - reflexivity.
  - cbn [forallb] in H. apply andb_true_iff in H as [Hv H].
    cbn [underscore.indexed_from fragments].
    assert (E : forall key, sql.prepareValue v (Some key) = Ok (literal v))
      by (intros; now apply prepareValue_literal).
    destruct (key_truthy (Some (KStr k))); rewrite E; cbn [bind];
      rewrite (IH H); reflexivity.
Qed.

Lemma values_scalars (k : string) (elems : list jsval) :
  forallb scalar elems = true ->
  sql.values (JArr elems) (Some (KStr k))
  = Ok (join ", " (map literal elems)).
Proof.
  intros H. unfold sql.values.
  apply (build_join _ (Some (KStr k)) None (JArr elems) (Some ", ")).
  - reflexivity.
  - now apply fragments_values.
  - apply tidy_last; [reflexivity|]. apply Forall_forall. intros p Hp.
    apply in_map_iff in Hp as (v & <- & Hin).
    rewrite forallb_forall in H. now apply tidy_literal, H.
Qed.

Lemma plain_attribute_inv (k : string) :
  plain_attribute k = true ->
  k <> ""
  /\ (toLowerCase k =? "or") = false /\ (toLowerCase k =? "and") = false
  /\ (toLowerCase k =? "like") = false /\ (toLowerCase k =? "not") = false.
Proof.
  unfold plain_attribute. intros H.
  repeat (apply andb_true_iff in H as [H ?]).
  repeat match goal with
         | X : negb _ = true |- _ => apply negb_true_iff in X
         end.
  repeat split; try assumption. now apply String.eqb_neq.
Qed.

Lemma validSubAttrCriteria_nil : validSubAttrCriteria (JObj []) = false.
Proof. reflexivity. Qed.

(** A plain attribute with a comparison value always yields a fragment,
    and the fragment ends cleanly. *)
Lemma predicate_comparison_value (k : string) (v : jsval) :
  plain_attribute k = true -> comparison_value v = true ->
  exists f, tidy f = true
            /\ forall n, sql.predicate (5 + n) v (KStr k) None = Ok f.
Proof.
  intros Hk Hv.
  destruct (plain_attribute_inv k Hk) as (Hne & Hor & Hand & Hlike & Hnot).
  assert (Hstep : forall n,
             sql.predicate (5 + n) v (KStr k) None
             = if underscore.isArray v
               then (attrStr <- sql.prepareAttribute JNull (KStr k) ;;
                     vals <- sql.values v (Some (KStr k)) ;;
                     Ok (attrStr ++ " IN (" ++ vals ++ ")"))
               else sql.prepareCriterion (4 + n) v (KStr k) None).
  { intros n.
    change (sql.predicate (5 + n))
      with (sql.predicate_step (sql.where_ (4 + n))
              (sql.prepareCriterion (4 + n))).
    unfold sql.predicate_step. cbn [key_truthy key_toLowerCase bind].
    now rewrite Hor, Hand, Hlike, Hnot. }
  destruct v as [| | | | | | | | |elems|ops]; try discriminate.
  - (* null *)
    exists (equality_fragment (k, JNull)).
    split; [now apply tidy_equality_fragment|].
    intros n. rewrite Hstep. now apply prepareCriterion_equality.
  - exists (equality_fragment (k, JBool b)).
    split; [now apply tidy_equality_fragment|].
    intros n'. rewrite Hstep. now apply prepareCriterion_equality.
  - exists (equality_fragment (k, JNum n)).
    split; [now apply tidy_equality_fragment|].
    intros n'. rewrite Hstep. now apply prepareCriterion_equality.
  - exists (equality_fragment (k, JStr s)).
    split; [now apply tidy_equality_fragment|].
    intros n'. rewrite Hstep. now apply prepareCriterion_equality.
  - exists (equality_fragment (k, JDate d)).
    split; [now apply tidy_equality_fragment|].
    intros n'. rewrite Hstep. now apply prepareCriterion_equality.
  - (* an array of scalars: IN *)
    exists (mysql.escapeId k ++ " IN (" ++ join ", " (map literal elems) ++ ")").
    split.
    + rewrite <- !append_assoc. now apply tidy_app.
    + intros n. rewrite Hstep. cbn [underscore.isArray sql.prepareAttribute bind].
      now rewrite values_scalars.
  - (* a comparator object *)
    cbn [comparison_value] in Hv.
    destruct (validSubAttrCriteria (JObj ops)) eqn:Hsub.
    + exists (join " AND " (map (comparator_fragment k) ops)). split.
      * apply tidy_join.
        -- destruct ops; [discriminate Hsub | discriminate].
        -- now apply tidy_comparator_fragments.
      * intros n. rewrite Hstep. cbn [underscore.isArray].
        change (sql.prepareCriterion (4 + n))
          with (sql.prepareCriterion_step (sql.where_ (3 + n))).
        unfold sql.prepareCriterion_step. rewrite Hsub.
        now apply where_comparators.
    + destruct (prepareValue_comparator_object ops (Some (KStr k)) Hv)
        as (s & Hs & Hts).
      exists (mysql.escapeId k ++ "=" ++ s). split.
      * destruct Hts as [-> | Hts].
        -- rewrite append_nil_r. now apply tidy_app.
        -- rewrite <- append_assoc. now apply tidy_app.
      * intros n. rewrite Hstep. cbn [underscore.isArray].
        change (sql.prepareCriterion (4 + n))
          with (sql.prepareCriterion_step (sql.where_ (3 + n))).
        unfold sql.prepareCriterion_step. rewrite Hsub.
        cbn [key_truthy sql.prepareAttribute bind]. rewrite Hs.
        reflexivity.
Qed.

End ComparisonValues.

(** ** Nodes of plain attributes *)

Section PlainNodes.

Lemma fragments_Forall2 (fn : sql.iteratee) (parentKey : option jskey)
      (entries : list (string * jsval)) (frags : list string) :
  Forall2 (fun kv f => fn (snd kv) (KStr (fst kv)) parentKey = Ok f)
          entries frags ->
  fragments fn None parentKey (object_entries entries) = Ok frags.
Proof.
  induction 1 as [|[k v] f entries frags Hf _ IH]; [reflexivity|].
  cbn [object_entries map fst snd fragments key_truthy] in *.
  rewrite Hf. cbn [bind]. fold (object_entries entries). now rewrite IH.
Qed.

Lemma plain_fragments (entries : list (string * jsval)) :
  forallb (fun kv => plain_attribute (fst kv) && comparison_value (snd kv))
          entries = true ->
  exists frags,
    Forall (fun f => tidy f = true) frags
    /\ forall n,
        Forall2 (fun kv f =>
                   sql.predicate (5 + n) (snd kv) (KStr (fst kv)) None = Ok f)
                entries frags.
Proof.
  induction entries as [|[k v] entries IH]; intros H.
  - exists []. split; constructor.
  - cbn [forallb fst snd] in H. apply andb_true_iff in H as [Hkv H].
    apply andb_true_iff in Hkv as [Hk Hv].
    destruct (IH H) as (frags & Htidy & Hfrags).
    destruct (predicate_comparison_value k v Hk Hv) as (f & Hf & Hpred).
    exists (f :: frags). split; [now constructor|].
    intros n. constructor; [apply Hpred | apply Hfrags].
Qed.

Lemma height_object_fuel (props : list (string * jsval)) :
  exists n, 4 + 3 * height (JObj props) = 5 + n.
Proof.
  cbn [height]. eexists (2 + 3 * _). rewrite Nat.mul_succ_r. 
  rewrite (Nat.add_comm _ 3). reflexivity.
Qed.

End PlainNodes.

(** ** NULL tests and LIKE comparators, in general *)

Section NullAndLike.

(** A mapping of one attribute to anything but a number is walked by its
    own property. *)
Lemma each_singleton (attr : string) (v : jsval) :
  match v with JNum _ => false | _ => true end = true ->
  underscore.each (JObj [(attr, v)]) = [(KStr attr, v)].
Proof.
  intros Hv. apply each_keyed. unfold keyed. cbn [lookup].
  destruct (attr =? "length"); [|reflexivity].
  destruct v; try reflexivity; discriminate.
Qed.

(** [{attr: null}] renders the NULL test of the attribute. *)
Lemma Translate_null (attr : string) :
  plain_attribute attr = true ->
  Translate (JObj [(attr, JNull)]) = Ok (mysql.escapeId attr ++ " IS NULL").
Proof.
  intros Hplain.
  destruct (plain_attribute_inv attr Hplain) as (_ & Hor & Hand & Hlike & Hnot).
  rewrite Translate_step. unfold sql.where_step.
  destruct (height_object_fuel [(attr, JNull)]) as (n & ->).
  rewrite (build_join (sql.predicate (5 + n)) None None
             (JObj [(attr, JNull)]) (Some " AND ")
             [equality_fragment (attr, JNull)]).
  - reflexivity.
  - reflexivity.
  - rewrite each_singleton by reflexivity.
    cbn [map fst snd fragments key_truthy].
    change (sql.predicate (5 + n))
      with (sql.predicate_step (sql.where_ (4 + n))
              (sql.prepareCriterion (4 + n))).
    unfold sql.predicate_step. cbn [key_truthy key_toLowerCase bind].
    rewrite Hor, Hand, Hlike, Hnot. cbn [underscore.isArray].
    change (4 + n) with (S (3 + n)).
    rewrite prepareCriterion_equality by reflexivity. reflexivity.
  - right. cbn [last]. apply tidy_clean_end; [reflexivity|].
    now apply tidy_equality_fragment.
Qed.

(** Under a parent key the [!] / [not] comparator renders IS NOT NULL
    exactly for a null operand, and [<>] otherwise. *)
Lemma not_comparator (v : jsval) (parent op : string) :
  parent <> "" -> scalar v = true -> op = "!" \/ op = "not" ->
  Criterion v (KStr op) (Some (KStr parent))
  = Ok (mysql.escapeId parent
          ++ (if underscore.isNull v then "IS NOT NULL"
              else "<>" ++ literal v)).
Proof.
  intros Hp Hv Hop. unfold Criterion. rewrite fuel_for_S.
  rewrite prepareCriterion_comparator; try assumption.
  - destruct Hop as [-> | ->]; destruct v; try discriminate; reflexivity.
  - destruct Hop as [-> | ->]; reflexivity.
Qed.

Lemma last_char_snoc (s : string) (c : ascii) :
  last_char (s ++ String c "") = Some c.
Proof. rewrite last_char_app by discriminate. reflexivity. Qed.

(** The three LIKE comparators, for any scalar operand: the wildcards
    stand outside the quotes of the literal, so the pattern is never one
    string literal. *)
Lemma like_comparators (v : jsval) (parent : string) :
  parent <> "" -> scalar v = true ->
  (Criterion v (KStr "contains") (Some (KStr parent))
   = Ok (mysql.escapeId parent ++ " LIKE " ++ ("%" ++ literal v ++ "%"))
   /\ is_string_literal ("%" ++ literal v ++ "%") = false)
  /\ (Criterion v (KStr "startsWith") (Some (KStr parent))
      = Ok (mysql.escapeId parent ++ " LIKE " ++ (literal v ++ "%"))
      /\ is_string_literal (literal v ++ "%") = false)
  /\ (Criterion v (KStr "endsWith") (Some (KStr parent))
      = Ok (mysql.escapeId parent ++ " LIKE " ++ ("%" ++ literal v))
      /\ is_string_literal ("%" ++ literal v) = false).
Proof.
  intros Hp Hv. unfold Criterion. rewrite fuel_for_S.
  rewrite !prepareCriterion_comparator by (assumption || reflexivity).
  split; [split; reflexivity|]. split; [|split; reflexivity].
  split; [reflexivity|].
  unfold is_string_literal. destruct (literal v) as [|c r]; [reflexivity|].
  cbn [append]. rewrite last_char_snoc. apply andb_false_r.
Qed.

End NullAndLike.

(** C6 (the code departs from the claim).  A node with an attribute
    named [length] that holds a number is walked by index, as an array
    would be: with the length 0 it has no entry at all and translates to
    the empty text, and with a positive length the index 0 is handed on
    as key, which fails.  And the trim that ends [build] removes every
    character of ' AND ' that ends the text, not only the separator
    appended last: it cuts into a last fragment that ends in [NaN]. *)
Theorem C6_length_and_trailing_letters :
  Translate (JObj [("a", JNum 1); ("length", JNum 0)]) = Ok ""
  /\ Translate (JObj [("length", JNum 5); ("a", JNum 1)]) = Throw "TypeError"
  /\ Translate (JObj [("a", JNum 1); ("b", JNaN)]) = Ok "`a`=1 AND `b`=Na"
  /\ Predicate JNaN (KStr "b") None = Ok "`b`=NaN".
Proof. repeat split; reflexivity. Qed.

(** X25.  A predicate node that has no attribute [length] holding a
    number, whose keys are plain attribute names and whose values are
    comparison values of the data model (numbers other than [NaN]),
    translates: each attribute/value pair is rendered by the predicate
    translator, and the fragments are joined with ' AND ' in the
    iteration order of the node, nothing trailing. *)
Theorem attributes_conjoined (entries : list (string * jsval)) :
  keyed entries = true ->
  forallb (fun kv => plain_attribute (fst kv) && comparison_value (snd kv))
          entries = true ->
  exists frags,
    Forall2 (fun kv f => Predicate (snd kv) (KStr (fst kv)) None = Ok f)
            entries frags
    /\ Translate (JObj entries) = Ok (join " AND " frags).
Proof.
  intros Hk H.
  destruct (plain_fragments entries H) as (frags & Htidy & Hfrags).
  exists frags. split.
  - specialize (Hfrags 0). clear H Htidy Hk.
    induction Hfrags as [|[k v] f entries' frags Hf _ IH]; constructor;
      [|exact IH].
    cbn [fst snd] in *. unfold Predicate.
    apply (predicate_fuel 5); [exact Hf | discriminate | unfold fuel_for; lia].
  - rewrite Translate_step. unfold sql.where_step.
    destruct (height_object_fuel entries) as (n & ->).
    apply (build_join (sql.predicate (5 + n)) None None (JObj entries)
             (Some " AND ")).
    + reflexivity.
    + rewrite (each_keyed _ Hk). apply fragments_Forall2, Hfrags.
    + apply tidy_last; [reflexivity | assumption].
Qed.

Lemma attributes_conjoined_witness :
  exists frags,
    Forall2 (fun kv f => Predicate (snd kv) (KStr (fst kv)) None = Ok f)
            [("a", JNum 1); ("length", JStr "x")] frags
    /\ Translate (JObj [("a", JNum 1); ("length", JStr "x")])
       = Ok (join " AND " frags).
Proof.
  apply (attributes_conjoined [("a", JNum 1); ("length", JStr "x")]);
    reflexivity.
Defined.

(** C9.  A comparator object with one or more recognized comparator keys
    and truthy scalar operands, under a non-empty attribute name, raises
    no error: every comparator is rendered and the fragments are joined
    with ' AND ' in the object's key order.  So it is for the criterion
    translator, and for the translation of the node [{attr: ops}] when
    the attribute is a plain one. *)
Theorem C9_comparators_conjoined (attr : string) (ops : list (string * jsval))
        (parentKey : option jskey) :
  attr <> "" ->
  ops <> [] ->
  comparator_object ops = true ->
  forallb (fun opv => truthy (snd opv)) ops = true ->
  Criterion (JObj ops) (KStr attr) parentKey
  = Ok (join " AND " (map (comparator_fragment attr) ops))
  /\ (plain_attribute attr = true ->
      Translate (JObj [(attr, JObj ops)])
      = Ok (join " AND " (map (comparator_fragment attr) ops))).
Proof.
  intros Hattr Hne Hops Htruthy.
  assert (Hsub : validSubAttrCriteria (JObj ops) = true).
  { destruct ops as [|[op v] ops]; [congruence|].
    apply validSubAttrCriteria_head.
    - cbn in Hops. apply andb_true_iff in Hops as [Hopv _].
      now apply andb_true_iff in Hopv as [Hop _].
    - cbn in Htruthy. now apply andb_true_iff in Htruthy as [Hv _]. }
  split.
  - rewrite Criterion_step. unfold sql.prepareCriterion_step. rewrite Hsub.
    now apply where_comparators.
  - intros Hplain.
    destruct (plain_attribute_inv attr Hplain)
      as (_ & Hor & Hand & Hlike & Hnot).
    rewrite Translate_step. unfold sql.where_step.
    destruct (height_object_fuel [(attr, JObj ops)]) as (n & ->).
    rewrite (build_join (sql.predicate (5 + n)) None None
               (JObj [(attr, JObj ops)]) (Some " AND ")
               [join " AND " (map (comparator_fragment attr) ops)]).
    + reflexivity.
    + reflexivity.
    + rewrite each_singleton by reflexivity.
      cbn [map fst snd fragments key_truthy].
      change (sql.predicate (5 + n))
        with (sql.predicate_step (sql.where_ (4 + n))
                (sql.prepareCriterion (4 + n))).
      unfold sql.predicate_step. cbn [key_truthy key_toLowerCase bind].
      rewrite Hor, Hand, Hlike, Hnot. cbn [underscore.isArray].
      change (sql.prepareCriterion (4 + n))
        with (sql.prepareCriterion_step (sql.where_ (3 + n))).
      unfold sql.prepareCriterion_step. rewrite Hsub.
      change (3 + n) with (S (S (S n))).
      rewrite where_comparators by assumption. reflexivity.
    + right. cbn [last]. apply tidy_clean_end; [reflexivity|].
      apply tidy_join; [|now apply tidy_comparator_fragments].
      destruct ops; [congruence | discriminate].
Qed.

Lemma C9_witness :
  Criterion (JObj [(">", JNum 18); ("<", JNum 65)]) (KStr "age") None
  = Ok "`age`>18 AND `age`<65"
  /\ (plain_attribute "age" = true ->
      Translate (JObj [("age", JObj [(">", JNum 18); ("<", JNum 65)])])
      = Ok "`age`>18 AND `age`<65").
Proof.
  apply (C9_comparators_conjoined "age" [(">", JNum 18); ("<", JNum 65)] None);
    [discriminate | discriminate | reflexivity | reflexivity].
Defined.

(** ** Predicate nodes, nested *)

Section Nodes.

Lemma all_in_app (chars s t : string) :
  all_in chars s = true -> all_in chars t = true ->
  all_in chars (s ++ t) = true.
Proof.
  unfold all_in. induction s as [|c s IH]; simpl; [auto|].
  intros H Ht. apply andb_true_iff in H as [Hc Hs].
  now rewrite Hc, IH.
Qed.

Lemma tidy_trimmable (p : string) : tidy p = true -> trimmable p.
Proof. intros H. exists p, "". now rewrite append_nil_r. Qed.

(** Trimming after the last separator leaves a tidy string when the last
    fragment is trimmable. *)
Lemma rtrim_trimmable (parts : list string) :
  parts <> [] -> Forall trimmable parts ->
  forall acc,
    tidy (underscore.rtrim (acc ++ with_sep " AND " parts) " AND ") = true.
Proof.
  induction parts as [|p parts IH]; [congruence|]. intros _ Hall acc.
  inversion Hall as [|? ? Hp Hrest]; subst.
  rewrite with_sep_cons. destruct parts as [|q parts].
  - destruct Hp as (t & u & -> & Ht & Hu).
    replace (acc ++ (t ++ u) ++ " AND " ++ with_sep " AND " [])
      with ((acc ++ t) ++ (u ++ " AND "))
      by (unfold with_sep; simpl; now rewrite !append_assoc).
    rewrite rtrim_app_all_in by (now apply all_in_app).
    rewrite rtrim_clean.
    + now apply tidy_app.
    + apply tidy_clean_end; [reflexivity | now apply tidy_app].
  - replace (acc ++ p ++ " AND " ++ with_sep " AND " (q :: parts))
      with ((acc ++ p ++ " AND ") ++ with_sep " AND " (q :: parts))
      by (now rewrite !append_assoc).
    apply IH; [discriminate | assumption].
Qed.

Lemma height_prop (k : string) (x : jsval) (props : list (string * jsval)) :
  In (k, x) props -> height x < height (JObj props).
Proof.
  cbn [height]. induction props as [|[k' y] props IH]; [contradiction|].
  intros [E | Hin].
  - injection E as -> ->. lia.
  - specialize (IH Hin). lia.
Qed.

Lemma height_elem (x : jsval) (elems : list jsval) :
  In x elems -> height x < height (JArr elems).
Proof.
  cbn [height]. induction elems as [|y elems IH]; [contradiction|].
  intros [-> | Hin].
  - lia.
  - specialize (IH Hin). lia.
Qed.

Lemma in_indexed_from (k : jskey) (x : jsval) (l : list jsval) :
  forall i, In (k, x) (underscore.indexed_from i l) -> In x l.
Proof.
  induction l as [|y l IH]; intros i Hin; [contradiction|].
  destruct Hin as [E | Hin]; [injection E as _ <-; now left|].
  right. now apply (IH (S i)).
Qed.

Lemma height_lookup (name : string) (props : list (string * jsval)) :
  height (lookup name props) < height (JObj props).
Proof.
  induction props as [|[k y] props IH]; [cbn; lia|].
  cbn [lookup]. destruct (k =? name).
  - apply (height_prop k). now left.
  - cbn [height] in *. lia.
Qed.

(** Whichever way a mapping is walked, what it yields lies below it. *)
Lemma height_each_object (k : jskey) (x : jsval)
      (props : list (string * jsval)) :
  In (k, x) (underscore.each (JObj props)) -> height x < height (JObj props).
Proof.
  cbn [underscore.each]. intros Hin.
  assert (Hown : In (k, x) (map (fun kv : string * jsval =>
                                   (KStr (fst kv), snd kv)) props) ->
                 height x < height (JObj props)).
  { intros H. apply in_map_iff in H as ([k0 x0] & E & H).
    injection E as _ <-. now apply height_prop in H. }
  destruct (lookup "length" props); try (now apply Hown).
  apply in_indexed_from in Hin. apply in_map_iff in Hin as (i & <- & _).
  apply height_lookup.
Qed.

Lemma fragments_indexed (N : nat) (nodes : list jsval) (frags : list string) :
  Forall2 (fun node f => forall key, sql.where_ N node key None = Ok f)
          nodes frags ->
  forall i,
    fragments (fun v k pk => sql.where_ N v (Some k) pk) None None
              (underscore.indexed_from i nodes)
    = Ok frags.
Proof.
  induction 1 as [|node f nodes frags Hf _ IH]; intros i; [reflexivity|].
  cbn [underscore.indexed_from fragments key_truthy].
  rewrite Hf. cbn [bind]. now rewrite IH.
Qed.

(** The fragment of an [or] / [and] entry, from the fragments of its
    nested nodes. *)
Lemma predicate_combinator (N : nat) (k : string) (nodes : list jsval)
      (frags : list string) (parentKey : option jskey) :
  key_truthy parentKey = false ->
  Forall2 (fun node f => forall key, sql.where_ N node key None = Ok f)
          nodes frags ->
  Forall (fun f => tidy f = true) frags ->
  (toLowerCase k = "or" ->
   sql.predicate (S N) (JArr nodes) (KStr k) parentKey
   = Ok (" ( " ++ join " OR " frags ++ " ) "))
  /\ (toLowerCase k = "and" ->
      sql.predicate (S N) (JArr nodes) (KStr k) parentKey
      = Ok (" ( " ++ join " AND " frags ++ " ) ")).
Proof.
  intros Hpk Hfrags Htidy.
  change (sql.predicate (S N))
    with (sql.predicate_step (sql.where_ N) (sql.prepareCriterion N)).
  unfold sql.predicate_step. rewrite Hpk.
  cbn [key_toLowerCase bind]. split; intros ->; cbn [String.eqb Ascii.eqb Bool.eqb].
  - rewrite (build_join _ None None (JArr nodes) (Some " OR ") frags).
    + reflexivity.
    + reflexivity.
    + now apply fragments_indexed.
    + apply tidy_last; [reflexivity | assumption].
  - rewrite (build_join _ None None (JArr nodes) (Some " AND ") frags).
    + reflexivity.
    + reflexivity.
    + now apply fragments_indexed.
    + apply tidy_last; [reflexivity | assumption].
Qed.

Lemma tidy_parenthesized (q : string) : trimmable (" ( " ++ q ++ " ) ").
Proof.
  exists (" ( " ++ q ++ " )"), " ". repeat split.
  - now rewrite !append_assoc.
  - rewrite <- append_assoc. now apply tidy_app.
Qed.

(** A value the boolean test accepts has the shape of a node. *)
Lemma predicate_node_shape (n : nat) :
  forall v, height v <= n -> predicate_node v = true -> node_shape v.
Proof.
  induction n as [|n IH]; intros v Hh Hv.
  - destruct v; try discriminate. cbn [height] in Hh. lia.
  - destruct v as [| | | | | | | | | |props]; try discriminate.
    cbn [predicate_node] in Hv. apply andb_true_iff in Hv as [Hne Hall].
    apply andb_true_iff in Hne as [Hne Hkeyed].
    constructor;
      [destruct props; [discriminate Hne | discriminate] | exact Hkeyed |].
    assert (Hlt : forall k x, In (k, x) props -> height x <= n).
    { intros k x Hin. apply height_prop in Hin. lia. }
    clear Hne Hh. apply Forall_forall. intros [k x] Hin.
    rewrite forallb_forall in Hall. specialize (Hall _ Hin).
    cbn beta iota in Hall.
    apply orb_true_iff in Hall as [Hattr | Hcomb].
    + apply andb_true_iff in Hattr as [Hk Hx]. now constructor.
    + apply andb_true_iff in Hcomb as [Hk Hnodes].
      destruct x as [| | | | | | | | |nodes|]; try discriminate.
      apply entry_combinator.
      * unfold is_combinator in Hk.
        apply orb_true_iff in Hk as [E | E]; apply String.eqb_eq in E;
          [now left | now right].
      * apply Forall_forall. intros node Hnode.
        rewrite forallb_forall in Hnodes. apply IH; [|now apply Hnodes].
        apply height_elem in Hnode. specialize (Hlt k _ Hin). lia.
Qed.

(** Every predicate node translates, to a tidy fragment. *)
Lemma where_node (n : nat) :
  forall v, node_shape v -> height v <= n ->
    exists s, tidy s = true
              /\ forall key, sql.where_ (3 + 3 * n) v key None = Ok s.
Proof.
  induction n as [|n IH]; intros v Hv Hh.
  - destruct Hv. cbn [height] in Hh. lia.
  - destruct Hv as [props Hne Hkeyed Hentries].
    replace (3 + 3 * S n) with (S (5 + 3 * n)) by lia.
    assert (Hparts : exists parts,
               Forall trimmable parts
               /\ Forall2 (fun kv p =>
                             sql.predicate (5 + 3 * n) (snd kv)
                               (KStr (fst kv)) None = Ok p)
                          props parts).
    { clear Hne Hkeyed. induction Hentries as [|[k x] props Hkx _ IHprops].
      - exists []. split; constructor.
      - destruct IHprops as (parts & Htrim & Hparts).
        { intros. etransitivity; [|exact Hh].
          cbn [height]. lia. }
        inversion Hkx as [k' v' Hk Hx | k' nodes Hcomb Hnodes]; subst.
        + destruct (predicate_comparison_value k x Hk Hx) as (f & Hf & Hp).
          exists (f :: parts). split.
          * constructor; [now apply tidy_trimmable | assumption].
          * constructor; [apply Hp | assumption].
        + assert (Hsub : exists frags,
                     Forall (fun f => tidy f = true) frags
                     /\ Forall2 (fun node f =>
                                   forall key,
                                     sql.where_ (4 + 3 * n) node key None
                                     = Ok f) nodes frags).
          { assert (Hlt : forall node, In node nodes -> height node <= n).
            { intros node Hin. apply height_elem in Hin.
              pose proof (height_prop k (JArr nodes) ((k, JArr nodes) :: props)
                            (or_introl eq_refl)). lia. }
            clear Hkx. induction Hnodes as [|node nodes Hnode _ IHnodes].
            - exists []. split; constructor.
            - destruct IHnodes as (frags & Htidy & Hfrags).
              { intros. cbn [height] in *. lia. }
              { intros node' Hin. apply Hlt. now right. }
              destruct (IH node Hnode (Hlt node (or_introl eq_refl)))
                as (s & Hs & Hw).
              exists (s :: frags). split; [now constructor|].
              constructor; [|assumption].
              intros key. apply (where_fuel (3 + 3 * n)); [apply Hw | lia]. }
          destruct Hsub as (frags & Htidy & Hfrags).
          destruct (predicate_combinator (4 + 3 * n) k nodes frags None
                      eq_refl Hfrags Htidy) as [Hor Hand].
          destruct Hcomb as [E | E].
          * exists ((" ( " ++ join " OR " frags ++ " ) ") :: parts). split.
            -- constructor; [apply tidy_parenthesized | assumption].
            -- constructor; [now apply Hor | assumption].
          * exists ((" ( " ++ join " AND " frags ++ " ) ") :: parts). split.
            -- constructor; [apply tidy_parenthesized | assumption].
            -- constructor; [now apply Hand | assumption]. }
    destruct Hparts as (parts & Htrim & Hparts).
    exists (underscore.rtrim (with_sep " AND " parts) " AND "). split.
    + apply (rtrim_trimmable parts) with (acc := ""); [|assumption].
      destruct props; [congruence|]. inversion Hparts. discriminate.
    + intros key.
      change (sql.where_ (S (5 + 3 * n)))
        with (sql.where_step (sql.predicate (5 + 3 * n))).
      unfold sql.where_step. rewrite build_fragments.
      rewrite (each_keyed _ Hkeyed).
      rewrite (fragments_Forall2 _ None props parts Hparts). reflexivity.
Qed.

End Nodes.

(** ** The [or] and [and] combinators *)

Section Combinators.

Lemma node_fragments (nodes : list jsval) :
  Forall node_shape nodes ->
  exists frags,
    Forall (fun f => tidy f = true) frags
    /\ Forall2 (fun node f =>
                  forall N key, 3 + 3 * height node <= N ->
                                sql.where_ N node key None = Ok f)
               nodes frags.
Proof.
  induction 1 as [|node nodes Hnode _ (frags & Htidy & Hfrags)].
  - exists []. split; constructor.
  - destruct (where_node (height node) node Hnode (le_n _)) as (s & Hs & Hw).
    exists (s :: frags). split; [now constructor|].
    constructor; [|assumption].
    intros N key HN. now apply (where_fuel (3 + 3 * height node)).
Qed.

Lemma node_fragments_at (H : nat) (nodes : list jsval) (frags : list string) :
  (forall node, In node nodes -> height node < H) ->
  Forall2 (fun node f =>
             forall N key, 3 + 3 * height node <= N ->
                           sql.where_ N node key None = Ok f)
          nodes frags ->
  Forall2 (fun node f =>
             forall key, sql.where_ (4 + 3 * H) node key None = Ok f)
          nodes frags.
Proof.
  intros Hlt Hfrags. induction Hfrags as [|node f nodes frags Hf _ IH].
  - constructor.
  - constructor.
    + intros key. apply Hf. specialize (Hlt node (or_introl eq_refl)). lia.
    + apply IH. intros node' Hin. apply Hlt. now right.
Qed.

End Combinators.

(** C5 (the code departs from the claim).  The fragments of the nested
    nodes are not joined with ' OR ' when one of them is empty: the trim
    that ends [build] removes every character of the separator that ends
    the text, so the disjunction of [{a: 1}] and the empty node [{}] is
    the fragment of the first alone.  And a nested node with an attribute
    named [length] that holds a number is walked by index, as an array
    would be, which fails. *)
Theorem C5_nested_nodes :
  Predicate (JArr [JObj [("a", JNum 1)]; JObj []]) (KStr "or") None
  = Ok " ( `a`=1 ) "
  /\ Forall2 (fun node f => Translate node = Ok f)
             [JObj [("a", JNum 1)]; JObj []] ["`a`=1"; ""]
  /\ " ( " ++ join " OR " ["`a`=1"; ""] ++ " ) " = " ( `a`=1 OR  ) "
  /\ Predicate (JArr [JObj [("length", JNum 1)]]) (KStr "or") None
     = Throw "TypeError"
  /\ Predicate (JArr [JObj [("length", JNum 1)]]) (KStr "and") None
     = Throw "TypeError".
Proof. repeat split; repeat constructor. Qed.

(** X26.  For a key that lower-cases to [or], without an active parent
    key, and a sequence of nested predicate nodes that are not empty and
    have no attribute [length] holding a number, the predicate translator
    translates each nested node through [where], joins the fragments with
    ' OR ' and wraps the disjunction in parentheses; a key that
    lower-cases to [and] does the same with ' AND '. *)
Theorem combinators (key : string) (nodes : list jsval)
        (parentKey : option jskey) :
  key_truthy parentKey = false ->
  forallb predicate_node nodes = true ->
  exists frags,
    Forall2 (fun node f => Translate node = Ok f) nodes frags
    /\ (toLowerCase key = "or" ->
        Predicate (JArr nodes) (KStr key) parentKey
        = Ok (" ( " ++ join " OR " frags ++ " ) "))
    /\ (toLowerCase key = "and" ->
        Predicate (JArr nodes) (KStr key) parentKey
        = Ok (" ( " ++ join " AND " frags ++ " ) ")).
Proof.
  intros Hpk Hnodes.
  assert (Hshape : Forall node_shape nodes).
  { apply Forall_forall. intros node Hin. rewrite forallb_forall in Hnodes.
    apply (predicate_node_shape (height node)); [apply le_n | now apply Hnodes]. }
  clear Hnodes.
  destruct (node_fragments nodes Hshape) as (frags & Htidy & Hfrags).
  exists frags. split.
  - clear Htidy Hshape.
    induction Hfrags as [|node f nodes frags Hf _ IH]; constructor;
      [|exact IH].
    unfold Translate. apply Hf. unfold fuel_for. lia.
  - unfold Predicate. rewrite fuel_for_S.
    apply predicate_combinator; try assumption.
    apply node_fragments_at; [|assumption].
    intros node Hin. now apply height_elem.
Qed.

Lemma combinators_witness :
  exists frags,
    Forall2 (fun node f => Translate node = Ok f)
            [JObj [("a", JNum 1)]; JObj [("length", JStr "2")]] frags
    /\ (toLowerCase "or" = "or" ->
        Predicate (JArr [JObj [("a", JNum 1)]; JObj [("length", JStr "2")]])
                  (KStr "or") None
        = Ok (" ( " ++ join " OR " frags ++ " ) "))
    /\ (toLowerCase "or" = "and" ->
        Predicate (JArr [JObj [("a", JNum 1)]; JObj [("length", JStr "2")]])
                  (KStr "or") None
        = Ok (" ( " ++ join " AND " frags ++ " ) ")).
Proof.
  apply (combinators "or"
           [JObj [("a", JNum 1)]; JObj [("length", JStr "2")]] None).
  - reflexivity.
  - reflexivity.
Defined.

(** ** The examples of the specification, evaluated *)

Example Translate_two_attributes :
  Translate (JObj [("a", JNum 1); ("b", JNum 2)]) = Ok "`a`=1 AND `b`=2".
Proof. vm_compute. reflexivity. Qed.

Example Translate_or :
  Translate (JObj [("or", JArr [JObj [("a", JNum 1)]; JObj [("a", JNum 2)]])])
  = Ok " ( `a`=1 OR `a`=2 )".
Proof. vm_compute. reflexivity. Qed.

Example Predicate_or :
  Predicate (JArr [JObj [("a", JNum 1)]; JObj [("a", JNum 2)]]) (KStr "OR") None
  = Ok " ( `a`=1 OR `a`=2 ) ".
Proof. vm_compute. reflexivity. Qed.

Example Translate_two_comparators :
  Translate (JObj [("age", JObj [(">", JNum 18); ("<", JNum 65)])])
  = Ok "`age`>18 AND `age`<65".
Proof. vm_compute. reflexivity. Qed.

Example Translate_in :
  Translate (JObj [("id", JArr [JNum 1; JNum 2; JNum 3])])
  = Ok "`id` IN (1, 2, 3)".
Proof. vm_compute. reflexivity. Qed.

Example Translate_not_null_with_another_comparator :
  Translate (JObj [("name", JObj [(">", JNum 3); ("!", JNull)])])
  = Ok "`name`>3 AND `name`IS NOT NULL".
Proof. vm_compute. reflexivity. Qed.

Example SerializeOptions_sort_limit_skip :
  SerializeOptions
    (to_options (mkCriteria None (Some [("name", JNum 1)])
                            (Some 10%Z) (Some 5%Z)))
  = Ok "ORDER BY `name` ASC LIMIT 10 OFFSET 5 ".
Proof. vm_compute. reflexivity. Qed.

Example SerializeOptions_empty :
  SerializeOptions (to_options (mkCriteria None None None None))
  = Ok "LIMIT 18446744073709551610 ".
Proof. vm_compute. reflexivity. Qed.

(** ** The fuel of an argument is always enough *)

Section Totality.

Lemma returns_bind {A B : Type} (r : result A) (k : A -> result B) :
  returns r -> (forall a, returns (k a)) -> returns (bind r k).
Proof.
  unfold returns. destruct r; simpl; auto; discriminate.
Qed.

Lemma escape_array (b : bool) (elems : list jsval) :
  mysql.escape b (JArr elems)
  = (ss <- arrayToList elems ;; Ok (join ", " ss)).
Proof. reflexivity. Qed.

Lemma escape_returns (n : nat) :
  forall v b, height v <= n -> returns (mysql.escape b v).
Proof.
  induction n as [|n IH]; intros v b Hh.
  - destruct v; try discriminate; cbn [height] in Hh; try lia.
    simpl. destruct b; discriminate.
  - destruct v as [| | | | | | | | |elems|props]; try discriminate.
    + simpl. destruct b; discriminate.
    + rewrite escape_array. apply returns_bind; [|discriminate].
      assert (Hlt : forall x, In x elems -> height x <= n).
      { intros x Hin. apply height_elem in Hin. lia. }
      clear Hh. unfold arrayToList.
      induction elems as [|x elems IHe]; [discriminate|].
      apply returns_bind.
      * destruct x; try (apply IH, Hlt; now left).
        apply returns_bind; [apply IH, Hlt; now left | discriminate].
      * intros ?. apply returns_bind; [|discriminate].
        apply IHe. intros y Hy. apply Hlt. now right.
    + destruct b; [discriminate|]. rewrite escape_object.
      apply returns_bind; [|discriminate].
      assert (Hlt : forall k x, In (k, x) props -> height x <= n).
      { intros k x Hin. apply height_prop in Hin. lia. }
      clear Hh. unfold objectToValues.
      induction props as [|[k x] props IHp]; [discriminate|].
      assert (Hrest : returns
                        ((fix objectToValues (l : list (string * jsval))
                            : result (list string) :=
                            match l with
                            | [] => Ok []
                            | (k, v) :: rest =>
                                match v with
                                | JFunc _ _ => objectToValues rest
                                | _ =>
                                    s <- mysql.escape true v ;;
                                    ss <- objectToValues rest ;;
                                    Ok ((mysql.escapeId k ++ " = " ++ s) :: ss)
                                end
                            end) props)).
      { apply IHp. intros k' y Hy. apply (Hlt k'). now right. }
      assert (Hx : returns (mysql.escape true x))
        by (apply IH, (Hlt k); now left).
      destruct x; try exact Hrest;
        (apply returns_bind; [exact Hx|]; intros ?;
         apply returns_bind; [exact Hrest | discriminate]).
Qed.

Lemma prepareValue_returns (v : jsval) (k : option jskey) :
  returns (sql.prepareValue v k).
Proof.
  unfold sql.prepareValue.
  destruct v; try discriminate;
    apply (escape_returns _ _ _ (le_n _)).
Qed.

Lemma prepareAttribute_returns (v : jsval) (k : jskey) :
  returns (sql.prepareAttribute v k).
Proof. destruct k; discriminate. Qed.

Lemma build_each_returns (fn : sql.iteratee) sep ko pk entries :
  (forall k x, In (k, x) entries -> returns (fn x (effective_key ko k) pk)) ->
  forall acc, returns (sql.build_each fn sep ko pk entries acc).
Proof.
  induction entries as [|[k x] entries IH]; intros Hfn acc.
  - discriminate.
  - cbn [sql.build_each]. apply returns_bind.
    + apply (Hfn k x). now left.
    + intros part. apply IH. intros k' y Hy. apply Hfn. now right.
Qed.

Lemma build_returns (fn : sql.iteratee) collection sep ko pk :
  (forall k x, In (k, x) (underscore.each collection) ->
               returns (fn x (effective_key ko k) pk)) ->
  returns (sql.build collection fn sep ko pk).
Proof.
  intros Hfn. unfold sql.build. apply returns_bind; [|discriminate].
  now apply build_each_returns.
Qed.

Lemma prepareCriterion_step_returns (w : sql.where_type) v key pk :
  (validSubAttrCriteria v = true -> returns (w v None (Some key))) ->
  returns (sql.prepareCriterion_step w v key pk).
Proof.
  intros Hw. unfold sql.prepareCriterion_step.
  destruct (validSubAttrCriteria v); [now apply Hw|].
  destruct (if key_truthy pk then pk else None) as [parent|].
  - apply returns_bind; [apply prepareAttribute_returns|]. intros attrStr.
    apply returns_bind; [apply prepareValue_returns|]. intros valueStr.
    repeat match goal with
           | |- returns (if ?b then _ else _) => destruct b
           end; discriminate.
  - apply returns_bind; [apply prepareAttribute_returns|]. intros attrStr.
    apply returns_bind; [apply prepareValue_returns|]. intros valueStr.
    destruct (underscore.isNull v); discriminate.
Qed.

Lemma like_returns v k pk : returns (sql.like v k pk).
Proof.
  unfold sql.like. apply returns_bind; [apply prepareAttribute_returns|].
  intros attrStr. destruct (underscore.isRegExp v); [discriminate|].
  apply returns_bind; [apply prepareValue_returns | discriminate].
Qed.

Lemma values_returns v k : returns (sql.values v k).
Proof. apply build_returns. intros. apply prepareValue_returns. Qed.

Lemma predicate_step_returns (w : sql.where_type) (c : sql.iteratee) v key pk :
  (forall k' pk', returns (c v k' pk')) ->
  (forall k x k' pk', In (k, x) (underscore.each v) ->
                      returns (w x k' pk')) ->
  returns (sql.predicate_step w c v key pk).
Proof.
  intros Hc Hw. unfold sql.predicate_step.
  destruct (key_truthy pk); [apply Hc|].
  apply returns_bind; [destruct key; discriminate|]. intros lower.
  destruct (lower =? "or").
  { apply returns_bind; [|discriminate]. apply build_returns.
    intros k x Hin. now apply (Hw k). }
  destruct (lower =? "and").
  { apply returns_bind; [|discriminate]. apply build_returns.
    intros k x Hin. now apply (Hw k). }
  destruct (underscore.isArray v).
  { apply returns_bind; [apply prepareAttribute_returns|]. intros attrStr.
    apply returns_bind; [apply values_returns | discriminate]. }
  destruct (lower =? "like").
  { apply build_returns. intros. apply like_returns. }
  destruct (lower =? "not"); [discriminate | apply Hc].
Qed.

Lemma returns_where_le n m v key pk :
  returns (sql.where_ n v key pk) -> n <= m ->
  returns (sql.where_ m v key pk).
Proof.
  intros H Hle. destruct (fuel_le n m Hle) as (Hw & _).
  destruct (Hw v key pk) as [E | E]; [contradiction | now rewrite E].
Qed.

(** The entries of anything but an array or an object come with an index
    for key, and are strings or [undefined]. *)
Lemma each_atom (v : jsval) (k : jskey) (x : jsval) :
  height v = 0 -> In (k, x) (underscore.each v) ->
  (exists i, k = KIdx i) /\ validSubAttrCriteria x = false /\ height x = 0.
Proof.
  set (atom := fun y => validSubAttrCriteria y = false /\ height y = 0).
  assert (Hidx : forall l i, (forall y, In y l -> atom y) ->
                   In (k, x) (underscore.indexed_from i l) ->
                   (exists j, k = KIdx j) /\ atom x).
  { induction l as [|y l IH]; intros i Hl; [contradiction|].
    intros [E | Hin].
    - injection E as <- <-. split; [now exists i|]. apply Hl. now left.
    - apply (IH (S i)); [|assumption]. intros z Hz. apply Hl. now right. }
  destruct v; cbn [height underscore.each]; try contradiction;
    try discriminate; intros _.
  - apply Hidx. intros y Hy. apply in_map_iff in Hy as (c & <- & _).
    split; reflexivity.
  - apply Hidx. intros y Hy. apply repeat_spec in Hy. subst y.
    split; reflexivity.
Qed.

Lemma predicate_index_returns n x i pk :
  validSubAttrCriteria x = false ->
  returns (sql.predicate (2 + n) x (KIdx i) pk).
Proof.
  intros Hx.
  change (sql.predicate (2 + n))
    with (sql.predicate_step (sql.where_ (1 + n)) (sql.prepareCriterion (1 + n))).
  unfold sql.predicate_step. destruct (key_truthy pk); [|discriminate].
  change (sql.prepareCriterion (1 + n))
    with (sql.prepareCriterion_step (sql.where_ n)).
  apply prepareCriterion_step_returns. congruence.
Qed.

Lemma fuel_returns (h : nat) :
  forall v, height v <= h ->
    (forall key pk, returns (sql.where_ (3 + 3 * h) v key pk))
    /\ (forall key pk, returns (sql.prepareCriterion (4 + 3 * h) v key pk))
    /\ (forall key pk, returns (sql.predicate (5 + 3 * h) v key pk)).
Proof.
  induction h as [|h IH].
  - assert (W : forall v, height v <= 0 ->
                  forall key pk, returns (sql.where_ 3 v key pk)).
    { intros v Hv key pk.
      change (sql.where_ 3) with (sql.where_step (sql.predicate 2)).
      unfold sql.where_step. apply build_returns. intros k x Hin.
      destruct (each_atom v k x) as ((i & ->) & Hx & _); [lia | assumption|].
      cbn [effective_key key_truthy]. now apply (predicate_index_returns 0). }
    intros v Hv. cbn [Nat.mul Nat.add].
    assert (C : forall key pk, returns (sql.prepareCriterion 4 v key pk)).
    { intros key pk.
      change (sql.prepareCriterion 4)
        with (sql.prepareCriterion_step (sql.where_ 3)).
      apply prepareCriterion_step_returns. intros _. now apply W. }
    repeat split; [now apply W | exact C |].
    intros key pk.
    change (sql.predicate 5)
      with (sql.predicate_step (sql.where_ 4) (sql.prepareCriterion 4)).
    apply predicate_step_returns; [exact C|].
    intros k x k' pk' Hin. apply (returns_where_le 3); [|lia].
    apply W. destruct (each_atom v k x) as (_ & _ & Hx); [lia | assumption|].
    lia.
  - assert (W : forall v, height v <= S h ->
                  forall key pk, returns (sql.where_ (3 + 3 * S h) v key pk)).
    { intros v Hv key pk.
      replace (3 + 3 * S h) with (S (5 + 3 * h)) by lia.
      change (sql.where_ (S (5 + 3 * h)))
        with (sql.where_step (sql.predicate (5 + 3 * h))).
      unfold sql.where_step. apply build_returns. intros k x Hin.
      cbn [effective_key key_truthy].
      destruct v as [| | | | |s| |arity src| |elems|props];
        try contradiction.
      - destruct (each_atom (JStr s) k x) as ((i & ->) & Hx & _);
          [reflexivity | assumption|].
        now apply (predicate_index_returns (3 + 3 * h)).
      - destruct (each_atom (JFunc arity src) k x) as ((i & ->) & Hx & _);
          [reflexivity | assumption|].
        now apply (predicate_index_returns (3 + 3 * h)).
      - apply IH. cbn [underscore.each] in Hin.
        assert (Hx : In x elems).
        { clear - Hin. generalize dependent 0.
          induction elems as [|y elems IHe]; intros i Hin; [contradiction|].
          destruct Hin as [E | Hin]; [injection E as _ <-; now left|].
          right. now apply (IHe (S i)). }
        apply height_elem in Hx. lia.
      - apply IH. apply height_each_object in Hin. lia. }
    intros v Hv.
    assert (C : forall key pk,
               returns (sql.prepareCriterion (4 + 3 * S h) v key pk)).
    { intros key pk.
      change (sql.prepareCriterion (4 + 3 * S h))
        with (sql.prepareCriterion_step (sql.where_ (3 + 3 * S h))).
      apply prepareCriterion_step_returns. intros _. now apply W. }
    repeat split; [now apply W | exact C |].
    intros key pk.
    change (sql.predicate (5 + 3 * S h))
      with (sql.predicate_step (sql.where_ (4 + 3 * S h))
              (sql.prepareCriterion (4 + 3 * S h))).
    apply predicate_step_returns; [exact C|].
    intros k x k' pk' Hin. apply (returns_where_le (3 + 3 * S h)); [|lia].
    apply W.
    destruct v as [| | | | |s| |arity src| |elems|props]; try contradiction.
    + destruct (each_atom (JStr s) k x) as (_ & _ & Hx);
        [reflexivity | assumption|]. lia.
    + destruct (each_atom (JFunc arity src) k x) as (_ & _ & Hx);
        [reflexivity | assumption|]. lia.
    + cbn [underscore.each] in Hin.
      assert (Hx : In x elems).
      { clear - Hin. generalize dependent 0.
        induction elems as [|y elems IHe]; intros i Hin; [contradiction|].
        destruct Hin as [E | Hin]; [injection E as _ <-; now left|].
        right. now apply (IHe (S i)). }
      apply height_elem in Hx. lia.
    + apply height_each_object in Hin. lia.
Qed.

(** The translator never runs out of the fuel of its argument. *)
Theorem translator_total (v : jsval) (key : jskey) (parentKey : option jskey) :
  Translate v <> OutOfFuel
  /\ Predicate v key parentKey <> OutOfFuel
  /\ Criterion v key parentKey <> OutOfFuel.
Proof.
  destruct (fuel_returns (height v) v (le_n _)) as (W & C & P).
  repeat split.
  - apply (returns_where_le (3 + 3 * height v)); [apply W|].
    unfold fuel_for. lia.
  - apply P.
  - unfold Criterion.
    destruct (fuel_le (4 + 3 * height v) (fuel_for v)) as (_ & _ & Hc);
      [unfold fuel_for; lia|].
    destruct (Hc v key parentKey) as [E | E]; [now apply C in E|].
    rewrite E. apply C.
Qed.

End Totality.


(** ** What [build] returns *)

Section BuildResult.

(** [rtrim] cuts off an ending made of the given characters. *)
Lemma rtrim_split (chars s : string) :
  exists t, s = underscore.rtrim s chars ++ t /\ all_in chars t = true.
Proof.
  induction s as [|c s (t & Hs & Ht)]; simpl.
  - now exists "".
  - destruct (underscore.rtrim s chars) as [|d r] eqn:E; simpl.
    + destruct (underscore.in_chars c chars) eqn:Hc.
      * exists (String c s). split; [reflexivity|].
        simpl in Hs. subst t. unfold all_in in *. simpl. now rewrite Hc.
      * exists t. split; [now rewrite Hs at 1|assumption].
    + exists t. split; [now rewrite Hs at 1|assumption].
Qed.

(** What [rtrim] leaves does not end with one of them. *)
Lemma rtrim_ends_cleanly (chars s : string) :
  underscore.rtrim s chars = ""
  \/ clean_end chars (underscore.rtrim s chars) = true.
Proof.
  induction s as [|c s IH]; simpl; [now left|].
  destruct (underscore.rtrim s chars) as [|d r] eqn:E; simpl.
  - destruct (underscore.in_chars c chars) eqn:Hc; [now left|].
    right. unfold clean_end. simpl. now rewrite Hc.
  - right. destruct IH as [IH | IH]; [discriminate|].
    unfold clean_end in *. simpl in *.
    destruct (last_char r); assumption.
Qed.

(** X1.  Whenever [build] returns, every entry yielded a fragment, and
    the text returned is the concatenation of the fragments, each followed
    by the separator, without its longest ending made of characters of the
    separator: the text is empty or ends with a character that is none of
    the separator's, whichever fragment it belonged to. *)
Theorem build_result (collection : jsval) (fn : sql.iteratee)
        (separator : option string) (keyOverride parentKey : option jskey)
        (s : string) :
  sql.build collection fn separator keyOverride parentKey = Ok s ->
  let sep := separator_or_default separator in
  exists parts t,
    fragments fn keyOverride parentKey (underscore.each collection) = Ok parts
    /\ with_sep sep parts = s ++ t
    /\ all_in sep t = true
    /\ (s = "" \/ clean_end sep s = true).
Proof.
  intros H sep. rewrite build_fragments in H.
  destruct (fragments fn keyOverride parentKey (underscore.each collection))
    as [parts| |]; simpl in H; try discriminate.
  injection H as <-. fold sep.
  destruct (rtrim_split sep (with_sep sep parts)) as (t & Hs & Ht).
  exists parts, t. repeat split; try assumption.
  apply rtrim_ends_cleanly.
Qed.

Lemma build_result_witness :
  exists parts t,
    fragments sql._schema None None
      (underscore.each (JObj [("a", JObj [("type", JStr "string")])]))
    = Ok parts
    /\ with_sep ", " parts = "`a` TEXT" ++ t
    /\ all_in ", " t = true
    /\ ("`a` TEXT" = "" \/ clean_end ", " "`a` TEXT" = true).
Proof.
  apply (build_result (JObj [("a", JObj [("type", JStr "string")])])
           sql._schema None None None "`a` TEXT").
  reflexivity.
Defined.

End BuildResult.

(** ** Failing entries, and sequences in place of mappings *)

Section Failures.

(** The first failing entry decides the result. *)
Lemma fragments_app_throw (fn : sql.iteratee)
      (keyOverride parentKey : option jskey)
      (pre post : list (jskey * jsval)) (k : jskey) (v : jsval)
      (parts : list string) (msg : string) :
  fragments fn keyOverride parentKey pre = Ok parts ->
  fn v (effective_key keyOverride k) parentKey = Throw msg ->
  fragments fn keyOverride parentKey (pre ++ (k, v) :: post)%list = Throw msg.
Proof.
  revert parts. induction pre as [|[k0 v0] pre IH]; intros parts Hpre Hv.
  - simpl. unfold effective_key in Hv. now rewrite Hv.
  - simpl in *.
    destruct (fn v0 _ parentKey) as [p| |]; simpl in *; try discriminate.
    destruct (fragments fn keyOverride parentKey pre) as [ps| |] eqn:E;
      simpl in *; try discriminate.
    now rewrite (IH ps eq_refl Hv).
Qed.

Lemma object_entries_app (pre post : list (string * jsval)) :
  object_entries (pre ++ post)%list
  = (object_entries pre ++ object_entries post)%list.
Proof. apply map_app. Qed.

(** X2.  The translation is all or nothing: in a node that has no
    attribute [length] holding a number (one that is walked by its own
    properties), when an entry fails and the entries before it translate,
    [where] fails with the error of that entry, whatever the entries that
    follow it would give. *)
Theorem Translate_first_error (pre post : list (string * jsval))
        (k : string) (v : jsval) (frags : list string) (msg : string) :
  keyed (pre ++ (k, v) :: post)%list = true ->
  Forall2 (fun kv f => Predicate (snd kv) (KStr (fst kv)) None = Ok f)
          pre frags ->
  Predicate v (KStr k) None = Throw msg ->
  Translate (JObj (pre ++ (k, v) :: post)%list) = Throw msg.
Proof.
  intros Hkeyed Hpre Hv. rewrite Translate_step. unfold sql.where_step.
  apply build_throw.
  rewrite (each_keyed _ Hkeyed). clear Hkeyed.
  rewrite object_entries_app.
  assert (Hfuel : forall k' x, In (k', x) (pre ++ (k, v) :: post)%list ->
            fuel_for x <= 4 + 3 * height (JObj (pre ++ (k, v) :: post)%list)).
  { intros k' x Hin. apply height_prop in Hin. unfold fuel_for. lia. }
  assert (Hk : fuel_for v
               <= 4 + 3 * height (JObj (pre ++ (k, v) :: post)%list)).
  { apply (Hfuel k). apply in_or_app. right. now left. }
  assert (Hin : forall k' x, In (k', x) pre ->
            fuel_for x <= 4 + 3 * height (JObj (pre ++ (k, v) :: post)%list)).
  { intros k' x Hx. apply (Hfuel k'). apply in_or_app. now left. }
  clear Hfuel.
  generalize dependent (4 + 3 * height (JObj (pre ++ (k, v) :: post)%list)).
  intros N Hk Hin.
  apply fragments_app_throw with frags.
  - apply fragments_Forall2.
    clear Hv Hk. induction Hpre as [|[k0 v0] f pre' frags' H0 Hrest IH];
      constructor.
    + cbn [fst snd] in *. apply predicate_fuel with (fuel_for v0);
        [exact H0 | discriminate |].
      apply (Hin k0). now left.
    + apply IH. intros k' x Hx. apply (Hin k'). now right.
  - unfold effective_key. cbn [key_truthy].
    apply predicate_fuel with (fuel_for v); [exact Hv | discriminate |].
    exact Hk.
Qed.

Lemma Translate_first_error_witness :
  Translate (JObj [("a", JNum 1); ("not", JNum 2); ("b", JNum 3)])
  = Throw "NOT not supported yet!".
Proof.
  apply (Translate_first_error [("a", JNum 1)] [("b", JNum 3)] "not" (JNum 2)
           ["`a`=1"]).
  - reflexivity.
  - repeat constructor.
  - reflexivity.
Defined.

Lemma walked_by_index_truthy (v : jsval) :
  walked_by_index v = true -> truthy v = true.
Proof.
  unfold walked_by_index.
  destruct v as [| | | | |s| |arity src| |elems|props];
    try discriminate; try reflexivity.
  destruct s; [discriminate | reflexivity].
Qed.

Lemma where_walked_by_index (n : nat) (v : jsval) :
  walked_by_index v = true ->
  sql.where_ (S (S n)) v None None = Throw "TypeError".
Proof.
  unfold walked_by_index. intros Hv.
  change (sql.where_ (S (S n))) with (sql.where_step (sql.predicate (S n))).
  unfold sql.where_step. apply build_throw.
  destruct (underscore.each v) as [|[[s|i] x] rest]; try discriminate.
  reflexivity.
Qed.

(** X3.  A value that [_.each] walks by index and that has an entry (a
    non-empty array or string, a function with parameters, a mapping
    with a positive number for [length]) fails with a TypeError where a
    mapping is expected, the index handed over as key having neither
    [toLowerCase] nor [replace]: as the predicate given to [where] or to
    [serializeOptions] (whatever the other options), as the [sort] of the
    options (when [where] is absent or falsy, or translates), as the
    record given to [create], as the attributes given to [schema]. *)
Theorem sequence_in_place_of_mapping (v whr sort limit skip : jsval)
        (collectionName : string) :
  walked_by_index v = true ->
  Translate v = Throw "TypeError"
  /\ SerializeOptions (mkOptions v sort limit skip) = Throw "TypeError"
  /\ (truthy whr = false \/ (exists w, Translate whr = Ok w) ->
      SerializeOptions (mkOptions whr v limit skip) = Throw "TypeError")
  /\ statement.create collectionName v = Throw "TypeError"
  /\ sql.schema v = Throw "TypeError".
Proof.
  intros Hv. pose proof (walked_by_index_truthy v Hv) as Htruthy.
  pose proof (where_walked_by_index (3 + 3 * height v) v Hv) as Hw.
  assert (Hfirst : exists i x rest, underscore.each v = (KIdx i, x) :: rest).
  { unfold walked_by_index in Hv.
    destruct (underscore.each v) as [|[[s|i] x] rest]; try discriminate.
    now exists i, x, rest. }
  destruct Hfirst as (i & x & rest & E).
  split; [exact Hw|]. split; [|split; [|split]].
  - unfold SerializeOptions, sql.serializeOptions.
    cbn [opt_where opt_sort opt_limit opt_skip]. rewrite Htruthy.
    unfold fuel_for.
    change (5 + 3 * height v) with (S (S (3 + 3 * height v))).
    now rewrite Hw.
  - intros Hwhr. unfold SerializeOptions, sql.serializeOptions.
    cbn [opt_where opt_sort opt_limit opt_skip]. rewrite Htruthy, E.
    destruct (truthy whr).
    + destruct Hwhr as [Hno | (w & Hyes)]; [discriminate|].
      unfold Translate in Hyes. now rewrite Hyes.
    + reflexivity.
  - unfold statement.create, sql.attributes.
    rewrite (build_throw _ None None v None "TypeError"); [reflexivity|].
    now rewrite E.
  - unfold sql.schema. apply build_throw. now rewrite E.
Qed.

Lemma sequence_in_place_of_mapping_witness :
  Translate (JObj [("length", JNum 1)]) = Throw "TypeError"
  /\ SerializeOptions (mkOptions (JObj [("length", JNum 1)]) JUndefined
                                 JUndefined JUndefined)
     = Throw "TypeError"
  /\ (truthy (JObj [("a", JNum 1)]) = false
      \/ (exists w, Translate (JObj [("a", JNum 1)]) = Ok w) ->
      SerializeOptions (mkOptions (JObj [("a", JNum 1)])
                                  (JObj [("length", JNum 1)])
                                  JUndefined JUndefined)
      = Throw "TypeError")
  /\ statement.create "user" (JObj [("length", JNum 1)]) = Throw "TypeError"
  /\ sql.schema (JObj [("length", JNum 1)]) = Throw "TypeError".
Proof.
  apply (sequence_in_place_of_mapping (JObj [("length", JNum 1)])
           (JObj [("a", JNum 1)]) JUndefined JUndefined JUndefined "user").
  reflexivity.
Defined.

End Failures.

(** ** IN lists, and combinators without nodes *)

Section Lists.

Lemma is_combinator_false (k : string) :
  is_combinator k = false ->
  (toLowerCase k =? "or") = false /\ (toLowerCase k =? "and") = false.
Proof. unfold is_combinator. intros H. now apply orb_false_iff in H. Qed.

(** X4.  An array of scalars under a key that is not [or] / [and], with
    no parent key, is rendered as the escaped key, [IN] and the
    parenthesized comma list of the escaped elements.  The test for an
    array comes before those for [like] and [not], so these two keys with
    an array are attribute names; an empty array gives [IN ()]. *)
Theorem in_list (k : string) (elems : list jsval) (parentKey : option jskey) :
  key_truthy parentKey = false ->
  is_combinator k = false ->
  forallb scalar elems = true ->
  Predicate (JArr elems) (KStr k) parentKey
  = Ok (mysql.escapeId k ++ " IN (" ++ join ", " (map literal elems) ++ ")").
Proof.
  intros Hpk Hk Helems. apply is_combinator_false in Hk as [Hor Hand].
  rewrite Predicate_step. unfold sql.predicate_step.
  rewrite Hpk. cbn [key_toLowerCase bind]. rewrite Hor, Hand.
  cbn [underscore.isArray sql.prepareAttribute bind].
  now rewrite values_scalars.
Qed.

Lemma in_list_witness :
  Predicate (JArr [JStr "a%"; JNull]) (KStr "like") None
  = Ok "`like` IN ('a%', NULL)".
Proof.
  apply (in_list "like" [JStr "a%"; JNull] None); reflexivity.
Defined.

Lemma where_childless (n : nat) (v : jsval) (key parentKey : option jskey) :
  childless v = true -> sql.where_ (S n) v key parentKey = Ok "".
Proof. destruct v; try discriminate; reflexivity. Qed.

Lemma fragments_childless (n : nat) (entries : list (jskey * jsval)) :
  forallb (fun e => childless (snd e)) entries = true ->
  fragments (fun v k pk => sql.where_ (S n) v (Some k) pk) None None entries
  = Ok (map (fun _ => "") entries).
Proof.
  induction entries as [|[k v] rest IH]; [reflexivity|].
  cbn [forallb snd]. intros H. apply andb_true_iff in H as [Hv Hrest].
  cbn [fragments key_truthy map]. rewrite (where_childless n v _ _ Hv).
  cbn [bind]. now rewrite (IH Hrest).
Qed.

Lemma with_sep_empty (sep : string) {A : Type} (l : list A) :
  all_in sep sep = true ->
  all_in sep (with_sep sep (map (fun _ => "") l)) = true.
Proof.
  intros Hsep. induction l as [|x l IH]; [reflexivity|].
  cbn [map]. rewrite with_sep_cons. cbn [append].
  now apply all_in_app.
Qed.

Lemma build_childless (n : nat) (criterion : jsval) (sep : string) :
  sep <> "" -> all_in sep sep = true ->
  forallb (fun e => childless (snd e)) (underscore.each criterion) = true ->
  sql.build criterion (fun v k pk => sql.where_ (S n) v (Some k) pk)
            (Some sep) None None
  = Ok "".
Proof.
  intros Hne Hsep H. rewrite build_fragments, (fragments_childless n _ H).
  cbn [bind separator_or_default].
  destruct (sep =? "") eqn:E; [apply String.eqb_eq in E; contradiction|].
  f_equal. apply rtrim_all_in. now apply with_sep_empty.
Qed.

(** X5.  Under [or] / [and], a value whose entries are all numbers,
    booleans, dates, regular expressions, [null] or [undefined] (or that
    has no entry at all) contributes no condition: the predicate
    translator returns the empty parentheses [" (  ) "] and raises no
    error. *)
Theorem combinator_without_nodes (k : string) (criterion : jsval)
        (parentKey : option jskey) :
  key_truthy parentKey = false ->
  is_combinator k = true ->
  forallb (fun e => childless (snd e)) (underscore.each criterion) = true ->
  Predicate criterion (KStr k) parentKey = Ok " (  ) ".
Proof.
  intros Hpk Hk H. rewrite Predicate_step. unfold sql.predicate_step.
  rewrite Hpk. cbn [key_toLowerCase bind].
  change (4 + 3 * height criterion) with (S (3 + 3 * height criterion)).
  unfold is_combinator in Hk.
  destruct (toLowerCase k =? "or") eqn:Hor.
  - rewrite build_childless;
      [reflexivity | discriminate | reflexivity | exact H].
  - simpl in Hk. rewrite Hk.
    rewrite build_childless;
      [reflexivity | discriminate | reflexivity | exact H].
Qed.

Lemma combinator_without_nodes_witness :
  Predicate (JObj [("a", JNum 1); ("b", JNum 2)]) (KStr "or") None
  = Ok " (  ) ".
Proof.
  apply (combinator_without_nodes "or" (JObj [("a", JNum 1); ("b", JNum 2)])
           None); reflexivity.
Defined.

End Lists.

(** ** The LIKE branch *)

Section Like.









Lemma like_scalar (attr : string) (v : jsval) (pk : option jskey) :
  scalar v = true ->
  sql.like v (KStr attr) pk = Ok (like_fragment (attr, v)).
Proof.
  intros Hv. unfold sql.like. cbn [sql.prepareAttribute bind].
  rewrite prepareValue_literal by assumption.
  destruct v; try discriminate; reflexivity.
Qed.

Lemma fragments_like (pats : list (string * jsval)) :
  forallb (fun kv => scalar (snd kv)) pats = true ->
  fragments sql.like None None (object_entries pats)
  = Ok (map like_fragment pats).
Proof.
  intros H. apply fragments_Forall2.
  induction pats as [|[attr v] pats IH]; constructor.
  - cbn [forallb snd] in H. apply andb_true_iff in H as [Hv _].
    now apply like_scalar.
  - apply IH. cbn [forallb] in H. now apply andb_true_iff in H as [_ H].
Qed.

Lemma predicate_like (n : nat) (k : string) (criterion : jsval)
      (parentKey : option jskey) :
  key_truthy parentKey = false ->
  toLowerCase k = "like" ->
  underscore.isArray criterion = false ->
  sql.predicate (S n) criterion (KStr k) parentKey
  = sql.build criterion sql.like (Some " AND ") None None.
Proof.
  intros Hpk Hk Harr. cbn [sql.predicate]. unfold sql.predicate_step.
  rewrite Hpk. cbn [key_toLowerCase bind]. rewrite Hk, Harr. reflexivity.
Qed.



(** X7.  A regular expression as a LIKE pattern is refused: in a mapping
    of patterns with no attribute [length] holding a number, when the
    patterns before the regular expression are scalars, the predicate
    translator throws the error that tells so. *)
Theorem like_regexp_unsupported (k : string) (pre post : list (string * jsval))
        (attr text : string) (parentKey : option jskey) :
  key_truthy parentKey = false ->
  toLowerCase k = "like" ->
  keyed (pre ++ (attr, JRegExp text) :: post)%list = true ->
  forallb (fun kv => scalar (snd kv)) pre = true ->
  Predicate (JObj (pre ++ (attr, JRegExp text) :: post)%list) (KStr k) parentKey
  = Throw "RegExp LIKE criterias not supported by the MySQLAdapter yet.  Please contribute @ http://github.com/balderdashy/waterline-mysql".
Proof.
  intros Hpk Hk Hkeyed Hpre. unfold Predicate. rewrite fuel_for_S.
  rewrite predicate_like by (assumption || reflexivity).
  apply build_throw. rewrite (each_keyed _ Hkeyed).
  unfold object_entries. rewrite map_app. cbn [map fst snd].
  apply fragments_app_throw with (map like_fragment pre).
  - now apply fragments_like.
  - reflexivity.
Qed.

Lemma like_regexp_unsupported_witness :
  Predicate (JObj [("a", JStr "x%"); ("b", JRegExp "/^x/")]) (KStr "like") None
  = Throw "RegExp LIKE criterias not supported by the MySQLAdapter yet.  Please contribute @ http://github.com/balderdashy/waterline-mysql".
Proof.
  apply (like_regexp_unsupported "like" [("a", JStr "x%")] [] "b" "/^x/" None);
    reflexivity.
Defined.

End Like.

(** ** Dates *)

Section Dates.

Lemma month_two_digits (m : Z) :
  (0 <= m < 12)%Z ->
  (if (m <? 9)%Z then "0" else "") ++ number_to_string (m + 1)
  = two_digits (m + 1).
Proof.
  intros H.
  assert (E : In m [0; 1; 2; 3; 4; 5; 6; 7; 8; 9; 10; 11]%Z).
  { simpl. lia. }
  simpl in E.
  repeat (destruct E as [<- | E]; [reflexivity|]). contradiction.
Qed.

Lemma day_two_digits (d : Z) :
  (1 <= d <= 31)%Z ->
  (if (d <? 10)%Z then "0" else "") ++ number_to_string d = two_digits d.
Proof.
  intros H.
  assert (E : In d [1; 2; 3; 4; 5; 6; 7; 8; 9; 10; 11; 12; 13; 14; 15; 16;
                    17; 18; 19; 20; 21; 22; 23; 24; 25; 26; 27; 28; 29; 30;
                    31]%Z).
  { simpl. lia. }
  simpl in E.
  repeat (destruct E as [<- | E]; [reflexivity|]). contradiction.
Qed.

(** X8.  For a month index from 0 to 11 and a day from 1 to 31,
    [toSqlDate] prints the year, the month number (the index plus one) and
    the day, month and day in exactly two digits, joined by dashes and
    followed by a space and the time of the locale. *)
Theorem toSqlDate_padded (date : jsdate) :
  (0 <= getMonth date < 12)%Z ->
  (1 <= getDate date <= 31)%Z ->
  toSqlDate date
  = number_to_string (getFullYear date)
      ++ "-" ++ two_digits (getMonth date + 1)
      ++ "-" ++ two_digits (getDate date)
      ++ " " ++ toLocaleTimeString date.
Proof.
  intros Hm Hd. unfold toSqlDate, join.
  rewrite (month_two_digits _ Hm), (day_two_digits _ Hd).
  cbn [String.concat]. now rewrite !append_assoc.
Qed.

Lemma toSqlDate_padded_witness :
  toSqlDate (mkDate 2013 0 9 "13:05:00" "" "")
  = "2013" ++ "-" ++ "01" ++ "-" ++ "09" ++ " " ++ "13:05:00".
Proof.
  apply (toSqlDate_padded (mkDate 2013 0 9 "13:05:00" "" "")); simpl; lia.
Defined.

End Dates.

(** ** Limits printed as they come *)

Section Verbatim.

(** X9.  A truthy [limit] and a truthy [skip] end the clauses as
    [LIMIT limit OFFSET skip], each printed by plain string conversion:
    neither is escaped nor checked to be a number, and a negative limit
    is printed as it is. *)
Theorem limit_and_skip_verbatim (o : options) (s : string) :
  SerializeOptions o = Ok s ->
  truthy (opt_limit o) = true ->
  truthy (opt_skip o) = true ->
  exists before,
    s = before ++ "LIMIT " ++ to_string (opt_limit o) ++ " "
          ++ "OFFSET " ++ to_string (opt_skip o) ++ " ".
Proof.
  unfold SerializeOptions, sql.serializeOptions. intros H Hl Hs.
  rewrite Hl, Hs in H.
  destruct (if truthy (opt_where o) then _ else _) as [q1| |];
    cbn [bind] in H; try discriminate.
  destruct (if truthy (opt_sort o) then _ else _) as [q2| |];
    cbn [bind] in H; try discriminate.
  injection H as <-. exists q2.
  rewrite append_assoc. f_equal. cbn [append]. now rewrite append_assoc.
Qed.

Lemma limit_and_skip_verbatim_witness :
  exists before,
    "LIMIT -5 OFFSET 2 or so "
    = before ++ "LIMIT " ++ to_string (JNum (-5)) ++ " "
        ++ "OFFSET " ++ to_string (JStr "2 or so") ++ " ".
Proof.
  apply (limit_and_skip_verbatim
           (mkOptions JUndefined JUndefined (JNum (-5)) (JStr "2 or so")));
    reflexivity.
Defined.

End Verbatim.

(** ** The schema builder *)

Section Schema.

Lemma tidy_escapeId (name : string) : tidy (mysql.escapeId name) = true.
Proof.
  unfold mysql.escapeId, tidy, clean_end.
  change (String mysql.backtick
            (mysql.double_backticks name ++ String mysql.backtick ""))
    with ((String mysql.backtick (mysql.double_backticks name))
            ++ String mysql.backtick "").
  now rewrite last_char_snoc.
Qed.

Lemma has_type_object (a : jsval) :
  has_type a = true ->
  exists props t, a = JObj props /\ lookup "type" props = JStr t.
Proof.
  unfold has_type. destruct a; try discriminate. simpl.
  destruct (lookup "type" props) eqn:E; try discriminate.
  intros _. now exists props, s.
Qed.

Lemma sql_type_tidy (a : jsval) :
  has_type a = true -> tidy (sql_type a) = true.
Proof.
  intros H. destruct (has_type_object a H) as (props & t & -> & Ht).
  unfold sql_type. simpl. rewrite Ht. simpl.
  destruct (toLowerCase t =? "string"); [reflexivity|].
  destruct ((toLowerCase t =? "int") || (toLowerCase t =? "integer"));
    [reflexivity|].
  destruct ((toLowerCase t =? "float") || (toLowerCase t =? "double"));
    [reflexivity|].
  destruct (toLowerCase t =? "date"); reflexivity.
Qed.

Lemma tidy_column_text (kv : string * jsval) :
  has_type (snd kv) = true -> tidy (column_text kv) = true.
Proof.
  destruct kv as [name a]. cbn [snd]. intros H. unfold column_text.
  destruct (truthy (get a "autoIncrement")).
  - repeat apply tidy_app. reflexivity.
  - rewrite append_nil_r. repeat apply tidy_app. now apply sql_type_tidy.
Qed.

Lemma schema_column (name : string) (a : jsval) (pk : option jskey) :
  has_type a = true ->
  sql._schema a (KStr name) pk = Ok (column_padded (name, a)).
Proof.
  intros H. destruct (has_type_object a H) as (props & t & -> & Ht).
  unfold sql._schema, column_padded, column_text, sql_type.
  cbn [bind get snd]. rewrite Ht.
  destruct (sqlTypeCast (JStr t)) as [ty| |] eqn:E;
    [|unfold sqlTypeCast in E;
      repeat match type of E with
             | (if ?c then _ else _) = _ => destruct c
             end; discriminate..].
  cbn [bind]. f_equal.
  destruct (truthy (lookup "autoIncrement" props)).
  - now rewrite append_nil_r.
  - rewrite !append_nil_r. now rewrite !append_assoc.
Qed.

Lemma join_snoc (sep x y : string) (l : list string) :
  join sep (l ++ [(x ++ y)%string])%list = join sep (l ++ [x])%list ++ y.
Proof.
  unfold join. induction l as [|a l IH]; [reflexivity|].
  destruct l as [|b l].
  - simpl. now rewrite !append_assoc.
  - change (String.concat sep ((a :: b :: l) ++ [(x ++ y)%string])%list)
      with (a ++ sep ++ String.concat sep ((b :: l) ++ [(x ++ y)%string])%list).
    rewrite IH. simpl. now rewrite !append_assoc.
Qed.

Lemma last_snoc {A : Type} (l : list A) (x d : A) : last (l ++ [x])%list d = x.
Proof.
  induction l as [|a l IH]; [reflexivity|].
  simpl. destruct (l ++ [x])%list eqn:E; [now destruct l|]. exact IH.
Qed.

(** Attributes that all carry a type are objects, the one called
    [length] too: the mapping is walked by its own properties. *)
Lemma has_type_keyed (attrs : list (string * jsval)) :
  forallb (fun kv => has_type (snd kv)) attrs = true -> keyed attrs = true.
Proof.
  unfold keyed. induction attrs as [|[k a] attrs IH]; [reflexivity|].
  cbn [forallb snd lookup]. intros H. apply andb_true_iff in H as [Ha H].
  destruct (k =? "length"); [|now apply IH].
  destruct (has_type_object a Ha) as (props & t & -> & _). reflexivity.
Qed.

(** The columns of [schema]: the trim that ends [build] takes the stray
    space of the last column with the separator. *)
Lemma schema_columns (cols : list (string * jsval)) (final : string * jsval) :
  forallb (fun kv => has_type (snd kv)) (cols ++ [final])%list = true ->
  sql.schema (JObj (cols ++ [final])%list)
  = Ok (join ", " (map column_padded cols ++ [column_text final])%list).
Proof.
  intros H. unfold sql.schema. rewrite build_fragments.
  rewrite (each_keyed _ (has_type_keyed _ H)).
  rewrite (fragments_Forall2 sql._schema None (cols ++ [final])%list
             (map column_padded (cols ++ [final])%list)).
  2:{ clear - H. induction (cols ++ [final])%list as [|[name a] l IH];
        constructor.
      - cbn [forallb snd] in H. apply andb_true_iff in H as [Ha _].
        now apply schema_column.
      - apply IH. cbn [forallb] in H. now apply andb_true_iff in H as [_ H]. }
  cbn [bind separator_or_default]. f_equal.
  rewrite with_sep_join
    by (rewrite map_app; intros E; apply app_eq_nil in E as [_ E];
        discriminate).
  rewrite map_app. cbn [map]. unfold column_padded at 2.
  rewrite join_snoc, append_assoc.
  rewrite rtrim_app_all_in
    by (destruct (truthy (get (snd final) "autoIncrement")); reflexivity).
  apply rtrim_clean. apply clean_end_join.
  - intros E. apply app_eq_nil in E as [_ E]. discriminate.
  - rewrite last_snoc. apply tidy_clean_end; [reflexivity|].
    apply tidy_column_text.
    rewrite forallb_app in H. apply andb_true_iff in H as [_ H].
    cbn [forallb] in H. now rewrite andb_true_r in H.
Qed.

(** X10.  A type name that is none of string, int, integer, float,
    double and date (in any case) raises no error: the column gets the
    text [undefined] as its SQL type. *)
Theorem unknown_type_is_undefined (name t : string) (attribute : jsval)
        (parentKey : option jskey) :
  get attribute "type" = JStr t ->
  known_type t = false ->
  sql._schema attribute (KStr name) parentKey
  = Ok (mysql.escapeId name ++ " undefined "
          ++ (if truthy (get attribute "autoIncrement")
              then "NOT NULL AUTO_INCREMENT, PRIMARY KEY("
                     ++ mysql.escapeId name ++ ")"
              else "")).
Proof.
  intros Ht Hk. destruct attribute; try discriminate.
  unfold sql._schema. cbn [bind]. rewrite Ht.
  unfold known_type, known_types in Hk. cbn [existsb] in Hk.
  repeat (apply orb_false_iff in Hk as [? Hk]).
  unfold sqlTypeCast.
  repeat match goal with H : (_ =? _) = false |- _ => rewrite H; clear H end.
  cbn [orb bind to_string]. f_equal.
Qed.

Lemma unknown_type_is_undefined_witness :
  sql._schema (JObj [("type", JStr "boolean")]) (KStr "active") None
  = Ok ("`active`" ++ " undefined " ++ "").
Proof.
  apply (unknown_type_is_undefined "active" "boolean"
           (JObj [("type", JStr "boolean")]) None); reflexivity.
Defined.

Lemma schema_untyped (name : string) (a : jsval) (pk : option jskey) :
  has_type a = false -> sql._schema a (KStr name) pk = Throw "TypeError".
Proof.
  unfold has_type, sql._schema. cbn [bind].
  destruct a; try reflexivity; simpl;
    destruct (lookup "type" props); try reflexivity; discriminate.
Qed.

Lemma schema_cases (a : jsval) (k : jskey) (pk : option jskey) :
  (exists s, sql._schema a k pk = Ok s)
  \/ sql._schema a k pk = Throw "TypeError".
Proof.
  destruct k as [name|i]; [|now right].
  destruct (has_type a) eqn:H.
  - left. eexists. now apply schema_column.
  - right. now apply schema_untyped.
Qed.

(** X11.  In attributes that are walked by their own properties (none
    called [length] holds a number), an attribute whose definition has no
    string [type] (the type name given directly, for one) makes [schema]
    fail with a TypeError, wherever the attribute stands among the
    others. *)
Theorem missing_type_fails (pre post : list (string * jsval))
        (name : string) (attribute : jsval) :
  keyed (pre ++ (name, attribute) :: post)%list = true ->
  has_type attribute = false ->
  sql.schema (JObj (pre ++ (name, attribute) :: post)%list)
  = Throw "TypeError".
Proof.
  intros Hkeyed H. unfold sql.schema. apply build_throw.
  rewrite (each_keyed _ Hkeyed). clear Hkeyed.
  induction pre as [|[k a] pre IH].
  - cbn [app object_entries map fragments key_truthy fst snd].
    now rewrite schema_untyped.
  - change (object_entries (((k, a) :: pre) ++ (name, attribute) :: post)%list)
      with ((KStr k, a)
              :: object_entries (pre ++ (name, attribute) :: post)%list).
    cbn [fragments key_truthy]. rewrite IH.
    destruct (schema_cases a (KStr k) None) as [(s & ->) | ->]; reflexivity.
Qed.

Lemma missing_type_fails_witness :
  sql.schema (JObj [("id", JObj [("type", JStr "int")]);
                    ("name", JStr "string")])
  = Throw "TypeError".
Proof.
  apply (missing_type_fails [("id", JObj [("type", JStr "int")])] []
           "name" (JStr "string")); reflexivity.
Defined.

End Schema.

(** ** INSERT *)

Section Insert.

(** X12.  For a record of scalar values with no attribute [length]
    holding a number, [create] runs INSERT INTO with the escaped table
    name, the escaped attribute names joined by ', ' and the escaped
    values joined by ', ', names and values in the same order; the empty
    record gives two empty lists. *)
Theorem create_insert (collectionName : string)
        (data : list (string * jsval)) :
  keyed data = true ->
  forallb (fun kv => scalar (snd kv)) data = true ->
  statement.create collectionName (JObj data)
  = Ok ("INSERT INTO " ++ mysql.escapeId collectionName
          ++ " (" ++ join ", " (map (fun kv => mysql.escapeId (fst kv)) data)
          ++ ") VALUES ("
          ++ join ", " (map (fun kv => literal (snd kv)) data) ++ ")").
Proof.
  intros Hkeyed H. unfold statement.create, sql.attributes, sql.values.
  rewrite (build_join (fun v k _ => sql.prepareAttribute v k) None None
             (JObj data) None
             (map (fun kv => mysql.escapeId (fst kv)) data)).
  - cbn [bind].
    rewrite (build_join (fun v k _ => sql.prepareValue v (Some k)) None None
               (JObj data) (Some ", ")
               (map (fun kv => literal (snd kv)) data)).
    + reflexivity.
    + reflexivity.
    + rewrite (each_keyed _ Hkeyed). apply fragments_Forall2. clear - H.
      induction data as [|[k v] data IH]; constructor.
      * cbn [forallb snd] in H. apply andb_true_iff in H as [Hv _].
        now apply prepareValue_literal.
      * apply IH. cbn [forallb] in H. now apply andb_true_iff in H as [_ H].
    + apply tidy_last; [reflexivity|]. clear - H.
      induction data as [|[k v] data IH]; constructor.
      * cbn [forallb snd] in H. apply andb_true_iff in H as [Hv _].
        now apply tidy_literal.
      * apply IH. cbn [forallb] in H. now apply andb_true_iff in H as [_ H].
  - reflexivity.
  - rewrite (each_keyed _ Hkeyed). apply fragments_Forall2. clear.
    induction data as [|[k v] data IH]; constructor; [reflexivity | exact IH].
  - apply tidy_last; [reflexivity|]. clear.
    induction data as [|[k v] data IH]; constructor;
      [apply tidy_escapeId | exact IH].
Qed.

Lemma create_insert_witness :
  statement.create "user" (JObj [("name", JStr "O'Neil"); ("age", JNum 30);
                               ("nick", JNull)])
  = Ok ("INSERT INTO " ++ "`user`" ++ " (" ++ "`name`, `age`, `nick`"
          ++ ") VALUES (" ++ "'O\'Neil', 30, NULL" ++ ")").
Proof.
  apply (create_insert "user" [("name", JStr "O'Neil"); ("age", JNum 30);
                               ("nick", JNull)]); reflexivity.
Defined.

End Insert.

(** ** CREATE TABLE, SELECT, UPDATE and DELETE *)

Section Statements.

(** X13.  For a definition whose attributes all carry a string [type],
    [define] runs CREATE TABLE with the escaped table name and, in
    parentheses, the columns joined by ', ': each column is the escaped
    name, a space and the SQL type, followed by NOT NULL AUTO_INCREMENT
    and the PRIMARY KEY clause when [autoIncrement] is truthy and by a
    stray space otherwise; the last column has nothing after it. *)
Theorem define_statement (collectionName : string) (definition : jsval)
        (cols : list (string * jsval)) (final : string * jsval) :
  get definition "attributes" = JObj (cols ++ [final])%list ->
  forallb (fun kv => has_type (snd kv)) (cols ++ [final])%list = true ->
  statement.define collectionName definition
  = Ok ("CREATE TABLE " ++ mysql.escapeId collectionName ++ " ("
          ++ join ", " (map column_padded cols ++ [column_text final])%list
          ++ ")").
Proof.
  intros Hattrs Hcols. unfold statement.define.
  destruct definition; try discriminate. rewrite Hattrs. cbn [bind].
  now rewrite schema_columns.
Qed.

Lemma define_statement_witness :
  statement.define "user"
    (JObj [("attributes",
            JObj [("name", JObj [("type", JStr "STRING")]);
                  ("id", JObj [("type", JStr "int");
                               ("autoIncrement", JBool true)]);
                  ("age", JObj [("type", JStr "integer")])])])
  = Ok ("CREATE TABLE " ++ "`user`" ++ " ("
          ++ ("`name` TEXT , `id` INT NOT NULL AUTO_INCREMENT, "
                ++ "PRIMARY KEY(`id`), `age` INT")
          ++ ")").
Proof.
  apply (define_statement "user" _
           [("name", JObj [("type", JStr "STRING")]);
            ("id", JObj [("type", JStr "int");
                         ("autoIncrement", JBool true)])]
           ("age", JObj [("type", JStr "integer")])); reflexivity.
Defined.

(** X14.  For a criteria object whose predicate, if any, translates to
    [w], and whose sort attributes, if any, are walked by their own
    properties (none called [length] holds a number), [find] runs
    SELECT * FROM and [destroy] DELETE FROM the escaped table name, each
    followed by the same clauses (WHERE, ORDER BY, LIMIT, OFFSET);
    [update] runs UPDATE with, between SET and these clauses, the
    assignments of the scalar values joined by ', ', for values with no
    attribute [length] holding a number. *)
Theorem statements_with_criteria (collectionName : string)
        (c : CriteriaObject) (w : string) (values : list (string * jsval)) :
  match c_where c with
  | Some node => Translate (JObj node) = Ok w
  | None => True
  end ->
  keyed_mapping (c_sort c) = true ->
  keyed values = true ->
  forallb (fun kv => scalar (snd kv)) values = true ->
  let clauses :=
    where_clause c w ++ order_by_clause c
      ++ limit_clause_raw c ++ offset_clause c in
  statement.find collectionName (to_options c)
  = Ok ("SELECT * FROM " ++ mysql.escapeId collectionName ++ " " ++ clauses)
  /\ statement.destroy collectionName (to_options c)
     = Ok ("DELETE FROM " ++ mysql.escapeId collectionName ++ " " ++ clauses)
  /\ statement.update collectionName (to_options c) (JObj values)
     = Ok ("UPDATE " ++ mysql.escapeId collectionName ++ " SET "
             ++ join ", " (map equality_fragment values) ++ " " ++ clauses).
Proof.
  intros Hw Hsort Hkeyed Hvalues clauses.
  assert (Hc : SerializeOptions (to_options c) = Ok clauses).
  { rewrite SerializeOptions_clauses by assumption.
    subst clauses. unfold where_clause.
    destruct (c_where c) as [node|]; [now rewrite Hw | reflexivity]. }
  assert (Ha : Assignment (JObj values)
               = Ok (join ", " (map equality_fragment values))).
  { unfold Assignment, sql.criteria. rewrite fuel_for_S.
    apply (build_join (sql.prepareCriterion _) None None (JObj values) None).
    - reflexivity.
    - rewrite (each_keyed _ Hkeyed). now apply fragments_equalities.
    - apply tidy_last; [reflexivity|]. now apply tidy_equality_fragments. }
  unfold statement.find, statement.destroy, statement.update.
  rewrite Hc, Ha. cbn [bind]. repeat split; f_equal;
    now rewrite !append_assoc.
Qed.

Lemma statements_with_criteria_witness :
  statement.find "user"
    (to_options (mkCriteria (Some [("id", JNum 7)]) None None None))
  = Ok ("SELECT * FROM " ++ "`user`" ++ " "
          ++ "WHERE `id`=7 LIMIT 18446744073709551610 ")
  /\ statement.destroy "user"
       (to_options (mkCriteria (Some [("id", JNum 7)]) None None None))
     = Ok ("DELETE FROM " ++ "`user`" ++ " "
             ++ "WHERE `id`=7 LIMIT 18446744073709551610 ")
  /\ statement.update "user"
       (to_options (mkCriteria (Some [("id", JNum 7)]) None None None))
       (JObj [("name", JStr "x"); ("age", JNull)])
     = Ok ("UPDATE " ++ "`user`" ++ " SET "
             ++ "`name`='x', `age` IS NULL" ++ " "
             ++ "WHERE `id`=7 LIMIT 18446744073709551610 ").
Proof.
  apply (statements_with_criteria "user"
           (mkCriteria (Some [("id", JNum 7)]) None None None)
           "`id`=7" [("name", JStr "x"); ("age", JNull)]); reflexivity.
Defined.

End Statements.

(** ** The registry of databases *)

Section Registry.

Lemma own_assign {A : Type} (name : string) (v : A)
      (props : list (string * A)) :
  own name (assign name v props) = Some v.
Proof.
  induction props as [|[k x] rest IH]; simpl.
  - now rewrite String.eqb_refl.
  - destruct (k =? name) eqn:E; simpl; now rewrite E.
Qed.

Lemma own_assign_other {A : Type} (name other : string) (v : A)
      (props : list (string * A)) :
  other <> name -> own other (assign name v props) = own other props.
Proof.
  intros Hne. induction props as [|[k x] rest IH]; simpl.
  - destruct (name =? other) eqn:E; [|reflexivity].
    apply String.eqb_eq in E. congruence.
  - destruct (k =? name) eqn:E; simpl.
    + apply String.eqb_eq in E. subst k.
      destruct (name =? other) eqn:E'; [|reflexivity].
      apply String.eqb_eq in E'. congruence.
    + now rewrite IH.
Qed.

Lemma lookup_assign (name : string) (v : jsval)
      (props : list (string * jsval)) :
  lookup name (assign name v props) = v.
Proof.
  induction props as [|[k x] rest IH]; simpl.
  - now rewrite String.eqb_refl.
  - destruct (k =? name) eqn:E; simpl; now rewrite E.
Qed.

Lemma lookup_assign_other (name other : string) (v : jsval)
      (props : list (string * jsval)) :
  (name =? other) = false ->
  lookup other (assign name v props) = lookup other props.
Proof.
  intros Hne. induction props as [|[k x] rest IH]; simpl.
  - now rewrite Hne.
  - destruct (k =? name) eqn:E; simpl.
    + apply String.eqb_eq in E. subst k. now rewrite Hne.
    + now rewrite IH.
Qed.

Lemma marshalConfig_host (config : list (string * jsval)) :
  lookup "host" (marshalConfig config) = lookup "host" config
  /\ lookup "database" (marshalConfig config) = lookup "database" config.
Proof.
  unfold marshalConfig, underscore.extend. cbn [fold_left fst snd]. split.
  - rewrite !lookup_assign_other by reflexivity. apply lookup_assign.
  - apply lookup_assign.
Qed.

Lemma strict_equals_eq (a b : jsval) : strict_equals a b = true -> a = b.
Proof.
  destruct a, b; simpl; try discriminate; intros H; try reflexivity.
  - apply Bool.eqb_prop in H. now subst.
  - apply Z.eqb_eq in H. now subst.
  - apply String.eqb_eq in H. now subst.
Qed.

Lemma own_in {A : Type} (name : string) (v : A) (props : list (string * A)) :
  own name props = Some v -> exists k, In (k, v) props.
Proof.
  induction props as [|[k x] rest IH]; simpl; [discriminate|].
  destruct (k =? name).
  - intros H. injection H as <-. exists k. now left.
  - intros H. destruct (IH H) as (k' & Hin). exists k'. now right.
Qed.

Lemma find_passes {A : Type} (obj : list (string * A)) (iterator : A -> bool)
      (k : string) (v : A) :
  In (k, v) obj -> iterator v = true ->
  exists w, underscore.find obj iterator = Some w.
Proof.
  intros Hin Hv. unfold underscore.find.
  destruct (List.find (fun kv => iterator (snd kv)) obj) as [[k' w]|] eqn:E.
  - now exists w.
  - apply (find_none _ _ E) in Hin. simpl in Hin. congruence.
Qed.

Lemma find_passed {A : Type} (obj : list (string * A)) (iterator : A -> bool)
      (w : A) :
  underscore.find obj iterator = Some w -> iterator w = true.
Proof.
  unfold underscore.find.
  destruct (List.find (fun kv => iterator (snd kv)) obj) as [[k' x]|] eqn:E;
    [|discriminate].
  intros H. injection H as <-. now apply find_some in E as [_ E].
Qed.

(** The entry of the collection, after its registration. *)
Lemma registered (dbs : list (string * list (string * jsval)))
      (collection : list (string * jsval)) :
  exists db,
    own (to_string (lookup "identity" collection))
        (fst (adapter.registerCollection dbs collection)) = Some db
    /\ lookup "host" db = lookup "host" collection
    /\ lookup "database" db = lookup "database" collection.
Proof.
  unfold adapter.registerCollection.
  destruct (underscore.find dbs _) as [db|] eqn:E.
  - exists db. cbn [fst]. split; [apply own_assign|].
    apply find_passed in E. apply andb_true_iff in E as [Hh Hd].
    apply strict_equals_eq in Hh, Hd. now split.
  - exists (marshalConfig collection). split.
    + destruct (truthy (lookup "pool" collection)); apply own_assign.
    + apply marshalConfig_host.
Qed.

(** X15.  After [registerCollection], the registry holds under the
    identity of the collection a configuration with the host and the
    database of the collection, and what it holds under any other
    identity is unchanged. *)
Theorem registerCollection_registers
        (dbs : list (string * list (string * jsval)))
        (collection : list (string * jsval)) :
  let identity := to_string (lookup "identity" collection) in
  let dbs' := fst (adapter.registerCollection dbs collection) in
  (exists db,
      own identity dbs' = Some db
      /\ lookup "host" db = lookup "host" collection
      /\ lookup "database" db = lookup "database" collection)
  /\ (forall other, other <> identity -> own other dbs' = own other dbs).
Proof.
  split; [apply registered|].
  intros other Hne. unfold adapter.registerCollection.
  destruct (underscore.find dbs _) as [db|].
  - now apply own_assign_other.
  - destruct (truthy (lookup "pool" collection));
      now apply own_assign_other.
Qed.

(** X16.  When a collection is registered after another one that has the
    same host and the same database, its callback is never called: the
    configuration of the first is found and reused, and that branch
    returns without calling back. *)
Theorem shared_database_drops_callback
        (dbs : list (string * list (string * jsval)))
        (first second : list (string * jsval)) :
  strict_equals (lookup "host" second) (lookup "host" first) = true ->
  strict_equals (lookup "database" second) (lookup "database" first) = true ->
  snd (adapter.registerCollection
         (fst (adapter.registerCollection dbs first)) second)
  = Dropped.
Proof.
  intros Hh Hd.
  destruct (registered dbs first) as (db & Hown & Hhost & Hdb).
  apply own_in in Hown as (k & Hin).
  unfold adapter.registerCollection at 1.
  destruct (find_passes _
              (fun db =>
                 strict_equals (lookup "host" second) (lookup "host" db)
                 && strict_equals (lookup "database" second)
                                  (lookup "database" db))
              k db Hin) as (w & ->); [|reflexivity].
  now rewrite Hhost, Hdb, Hh, Hd.
Qed.

Lemma shared_database_drops_callback_witness :
  snd (adapter.registerCollection
         (fst (adapter.registerCollection []
                 [("identity", JStr "user"); ("host", JStr "localhost");
                  ("database", JStr "app")]))
         [("identity", JStr "pet"); ("host", JStr "localhost");
          ("database", JStr "app")])
  = Dropped.
Proof.
  apply (shared_database_drops_callback []
           [("identity", JStr "user"); ("host", JStr "localhost");
            ("database", JStr "app")]
           [("identity", JStr "pet"); ("host", JStr "localhost");
            ("database", JStr "app")]); reflexivity.
Defined.

End Registry.

(** ** The configuration handed to the driver *)

Section Marshal.

Lemma lookup_assign_same (name k : string) (v : jsval)
      (props : list (string * jsval)) :
  lookup k props = v -> lookup name (assign k v props) = lookup name props.
Proof.
  intros H. destruct (k =? name) eqn:E.
  - apply String.eqb_eq in E. subst name. now rewrite lookup_assign.
  - now apply lookup_assign_other.
Qed.

Lemma assign_own {A : Type} (k : string) (v : A) (props : list (string * A)) :
  own k props = Some v -> assign k v props = props.
Proof.
  induction props as [|[k' x] rest IH]; simpl; [discriminate|].
  destruct (k' =? k) eqn:E.
  - intros H. now injection H as ->.
  - intros H. now rewrite (IH H).
Qed.

Lemma marshalConfig_reads (config : list (string * jsval)) (name : string) :
  lookup name (marshalConfig config) = lookup name config.
Proof.
  unfold marshalConfig, underscore.extend. cbn [fold_left fst snd].
  repeat (rewrite lookup_assign_same;
          [|rewrite ?lookup_assign_other by reflexivity;
            try apply lookup_assign; reflexivity]).
  reflexivity.
Qed.

Lemma marshalConfig_owns (config : list (string * jsval)) :
  own "host" (marshalConfig config) = Some (lookup "host" config)
  /\ own "user" (marshalConfig config) = Some (lookup "user" config)
  /\ own "password" (marshalConfig config) = Some (lookup "password" config)
  /\ own "database" (marshalConfig config) = Some (lookup "database" config).
Proof.
  unfold marshalConfig, underscore.extend. cbn [fold_left fst snd].
  repeat split;
    rewrite ?own_assign_other by discriminate; apply own_assign.
Qed.

(** X17.  [marshalConfig] changes no property that can be read of the
    configuration, the four settings included (one that is absent reads
    as [undefined] before and after); applied to its own result, as it is
    for every connection, it changes nothing at all. *)
Theorem marshalConfig_idempotent (config : list (string * jsval)) :
  (forall name, lookup name (marshalConfig config) = lookup name config)
  /\ marshalConfig (marshalConfig config) = marshalConfig config.
Proof.
  split; [apply marshalConfig_reads|].
  destruct (marshalConfig_owns config) as (Hh & Hu & Hp & Hd).
  unfold marshalConfig at 1. unfold underscore.extend.
  cbn [fold_left fst snd]. rewrite !marshalConfig_reads.
  now rewrite (assign_own _ _ _ Hh), (assign_own _ _ _ Hu),
    (assign_own _ _ _ Hp), (assign_own _ _ _ Hd).
Qed.

End Marshal.

(** ** The errors of the adapter *)

Section Errors.

Lemma fails_properly_ok {A : Type} (a : A) : fails_properly (Ok a).
Proof. intros msg H. discriminate. Qed.

Lemma fails_properly_fuel {A : Type} : fails_properly (@OutOfFuel A).
Proof. intros msg H. discriminate. Qed.

Lemma fails_properly_type {A : Type} : fails_properly (@Throw A "TypeError").
Proof. intros msg H. injection H as <-. constructor. Qed.

Lemma fails_properly_bind {A B : Type} (r : result A) (k : A -> result B) :
  fails_properly r -> (forall a, fails_properly (k a)) ->
  fails_properly (bind r k).
Proof.
  intros Hr Hk. destruct r as [a|m|]; simpl.
  - apply Hk.
  - intros msg H. apply Hr. now injection H as <-.
  - apply fails_properly_fuel.
Qed.

Lemma escape_fails (n : nat) :
  forall v b, height v <= n -> fails_properly (mysql.escape b v).
Proof.
  induction n as [|n IH]; intros v b Hh.
  - destruct v; cbn [height] in Hh; try lia;
      try apply fails_properly_ok; try apply fails_properly_type.
    simpl. destruct b; apply fails_properly_ok.
  - destruct v as [| | | | | | | | |elems|props];
      try apply fails_properly_ok; try apply fails_properly_type.
    + simpl. destruct b; apply fails_properly_ok.
    + rewrite escape_array.
      apply fails_properly_bind; [|intros; apply fails_properly_ok].
      assert (Hlt : forall x, In x elems -> height x <= n).
      { intros x Hin. apply height_elem in Hin. lia. }
      clear Hh. unfold arrayToList.
      induction elems as [|x elems IHe]; [apply fails_properly_ok|].
      apply fails_properly_bind.
      * destruct x; try (apply IH, Hlt; now left).
        apply fails_properly_bind;
          [apply IH, Hlt; now left | intros; apply fails_properly_ok].
      * intros ?. apply fails_properly_bind;
          [|intros; apply fails_properly_ok].
        apply IHe. intros y Hy. apply Hlt. now right.
    + destruct b; [apply fails_properly_ok|]. rewrite escape_object.
      apply fails_properly_bind; [|intros; apply fails_properly_ok].
      assert (Hlt : forall k x, In (k, x) props -> height x <= n).
      { intros k x Hin. apply height_prop in Hin. lia. }
      clear Hh. unfold objectToValues.
      induction props as [|[k x] props IHp]; [apply fails_properly_ok|].
      assert (Hrest : fails_properly
                        ((fix objectToValues (l : list (string * jsval))
                            : result (list string) :=
                            match l with
                            | [] => Ok []
                            | (k, v) :: rest =>
                                match v with
                                | JFunc _ _ => objectToValues rest
                                | _ =>
                                    s <- mysql.escape true v ;;
                                    ss <- objectToValues rest ;;
                                    Ok ((mysql.escapeId k ++ " = " ++ s) :: ss)
                                end
                            end) props)).
      { apply IHp. intros k' y Hy. apply (Hlt k'). now right. }
      assert (Hx : fails_properly (mysql.escape true x))
        by (apply IH, (Hlt k); now left).
      destruct x; try exact Hrest;
        (apply fails_properly_bind; [exact Hx|]; intros ?;
         apply fails_properly_bind;
           [exact Hrest | intros; apply fails_properly_ok]).
Qed.

Lemma prepareValue_fails (v : jsval) (k : option jskey) :
  fails_properly (sql.prepareValue v k).
Proof.
  unfold sql.prepareValue.
  destruct v; try apply fails_properly_ok;
    apply (escape_fails _ _ _ (le_n _)).
Qed.

Lemma prepareAttribute_fails (v : jsval) (k : jskey) :
  fails_properly (sql.prepareAttribute v k).
Proof. destruct k; [apply fails_properly_ok | apply fails_properly_type]. Qed.

Lemma build_fails (fn : sql.iteratee) collection sep ko pk :
  (forall x k pk', fails_properly (fn x k pk')) ->
  fails_properly (sql.build collection fn sep ko pk).
Proof.
  intros Hfn. unfold sql.build. fold (separator_or_default sep).
  apply fails_properly_bind; [|intros; apply fails_properly_ok].
  generalize "". induction (underscore.each collection) as [|[k x] l IH];
    intros acc; cbn [sql.build_each]; [apply fails_properly_ok|].
  apply fails_properly_bind; [apply Hfn | intros; apply IH].
Qed.

Lemma like_fails v k pk : fails_properly (sql.like v k pk).
Proof.
  unfold sql.like. apply fails_properly_bind; [apply prepareAttribute_fails|].
  intros attrStr. destruct (underscore.isRegExp v).
  - intros msg H. injection H as <-. constructor.
  - apply fails_properly_bind;
      [apply prepareValue_fails | intros; apply fails_properly_ok].
Qed.

Lemma prepareCriterion_step_fails (w : sql.where_type) v key pk :
  (forall x k pk', fails_properly (w x k pk')) ->
  fails_properly (sql.prepareCriterion_step w v key pk).
Proof.
  intros Hw. unfold sql.prepareCriterion_step.
  destruct (validSubAttrCriteria v); [apply Hw|].
  destruct (if key_truthy pk then pk else None) as [parent|].
  - apply fails_properly_bind; [apply prepareAttribute_fails|]. intros attrStr.
    apply fails_properly_bind; [apply prepareValue_fails|]. intros valueStr.
    repeat match goal with
           | |- fails_properly (if ?b then _ else _) => destruct b
           end; try apply fails_properly_ok.
    intros msg H. injection H as <-. constructor.
  - apply fails_properly_bind; [apply prepareAttribute_fails|]. intros attrStr.
    apply fails_properly_bind; [apply prepareValue_fails|]. intros valueStr.
    destruct (underscore.isNull v); apply fails_properly_ok.
Qed.

Lemma predicate_step_fails (w : sql.where_type) (c : sql.iteratee) v key pk :
  (forall x k pk', fails_properly (c x k pk')) ->
  (forall x k pk', fails_properly (w x k pk')) ->
  fails_properly (sql.predicate_step w c v key pk).
Proof.
  intros Hc Hw. unfold sql.predicate_step.
  destruct (key_truthy pk); [apply Hc|].
  apply fails_properly_bind.
  { destruct key; [apply fails_properly_ok | apply fails_properly_type]. }
  intros lower.
  destruct (lower =? "or").
  { apply fails_properly_bind; [|intros; apply fails_properly_ok].
    apply build_fails. intros. apply Hw. }
  destruct (lower =? "and").
  { apply fails_properly_bind; [|intros; apply fails_properly_ok].
    apply build_fails. intros. apply Hw. }
  destruct (underscore.isArray v).
  { apply fails_properly_bind; [apply prepareAttribute_fails|]. intros attrStr.
    apply fails_properly_bind; [|intros; apply fails_properly_ok].
    apply build_fails. intros. apply prepareValue_fails. }
  destruct (lower =? "like").
  { apply build_fails. intros. apply like_fails. }
  destruct (lower =? "not"); [|apply Hc].
  intros msg H. injection H as <-. constructor.
Qed.

Lemma fuel_fails (n : nat) :
  (forall v key pk, fails_properly (sql.where_ n v key pk))
  /\ (forall v key pk, fails_properly (sql.predicate n v key pk))
  /\ (forall v key pk, fails_properly (sql.prepareCriterion n v key pk)).
Proof.
  induction n as [|n (W & P & C)].
  - repeat split; intros; apply fails_properly_fuel.
  - repeat split; intros v key pk.
    + cbn [sql.where_]. unfold sql.where_step. now apply build_fails.
    + cbn [sql.predicate]. now apply predicate_step_fails.
    + cbn [sql.prepareCriterion]. now apply prepareCriterion_step_fails.
Qed.

Lemma sort_each_fails (entries : list (jskey * jsval)) :
  forall queryPart, fails_properly (sql.sort_each entries queryPart).
Proof.
  induction entries as [|[k d] rest IH]; intros queryPart;
    cbn [sql.sort_each]; [apply fails_properly_ok|].
  apply fails_properly_bind; [apply prepareAttribute_fails|].
  intros attrStr. apply IH.
Qed.

Lemma SerializeOptions_fails (o : options) :
  fails_properly (SerializeOptions o).
Proof.
  unfold SerializeOptions, sql.serializeOptions.
  apply fails_properly_bind.
  { destruct (truthy (opt_where o)); [|apply fails_properly_ok].
    apply fails_properly_bind; [apply fuel_fails|].
    intros; apply fails_properly_ok. }
  intros q1. apply fails_properly_bind; [|intros; apply fails_properly_ok].
  destruct (truthy (opt_sort o)); [apply sort_each_fails|].
  apply fails_properly_ok.
Qed.

Lemma schema_fails (attributes : jsval) :
  fails_properly (sql.schema attributes).
Proof.
  apply build_fails. intros x k pk'. unfold sql._schema.
  apply fails_properly_bind.
  { destruct k; [apply fails_properly_ok | apply fails_properly_type]. }
  intros attrName. apply fails_properly_bind;
    [|intros; apply fails_properly_ok].
  destruct x; try apply fails_properly_type;
    cbn [get sqlTypeCast]; try apply fails_properly_type.
  unfold sqlTypeCast. destruct (lookup "type" props);
    try apply fails_properly_type.
  repeat match goal with
         | |- fails_properly (if ?b then _ else _) => destruct b
         end; apply fails_properly_ok.
Qed.

(** X18.  The translator, the assignment builder, the options
    serializer and the statements of [find], [update], [destroy],
    [create] and [define] fail in four ways only: with a TypeError, with
    'NOT not supported yet!', with the error for a regular expression as
    LIKE pattern, or with 'Unknown comparator: ' followed by a key. *)
Theorem errors_of_the_adapter (v : jsval) (key : jskey)
        (parentKey : option jskey) (o : options) (collectionName : string) :
  fails_properly (Translate v)
  /\ fails_properly (Predicate v key parentKey)
  /\ fails_properly (Criterion v key parentKey)
  /\ fails_properly (Assignment v)
  /\ fails_properly (SerializeOptions o)
  /\ fails_properly (statement.find collectionName o)
  /\ fails_properly (statement.update collectionName o v)
  /\ fails_properly (statement.destroy collectionName o)
  /\ fails_properly (statement.create collectionName v)
  /\ fails_properly (statement.define collectionName v).
Proof.
  assert (A : fails_properly (Assignment v)).
  { apply build_fails. apply fuel_fails. }
  repeat split.
  - apply fuel_fails.
  - apply fuel_fails.
  - apply fuel_fails.
  - exact A.
  - apply SerializeOptions_fails.
  - apply fails_properly_bind; [apply SerializeOptions_fails|].
    intros; apply fails_properly_ok.
  - apply fails_properly_bind; [exact A|]. intros a.
    apply fails_properly_bind; [apply SerializeOptions_fails|].
    intros; apply fails_properly_ok.
  - apply fails_properly_bind; [apply SerializeOptions_fails|].
    intros; apply fails_properly_ok.
  - apply fails_properly_bind.
    { apply build_fails. intros. apply prepareAttribute_fails. }
    intros a. apply fails_properly_bind; [|intros; apply fails_properly_ok].
    apply build_fails. intros. apply prepareValue_fails.
  - unfold statement.define. apply fails_properly_bind.
    { destruct v; try apply fails_properly_type; apply fails_properly_ok. }
    intros attrs. apply fails_properly_bind; [apply schema_fails|].
    intros; apply fails_properly_ok.
Qed.

Lemma errors_of_the_adapter_witness :
  translator_error "NOT not supported yet!".
Proof.
  apply (proj1 (errors_of_the_adapter (JObj [("not", JNum 1)]) (KStr "a")
                  None (mkOptions JUndefined JUndefined JUndefined JUndefined)
                  "user")).
  reflexivity.
Defined.

End Errors.

(** ** Connections: what the methods do, and in which order *)

Section Connections.

Ltac trace_done := eexists; repeat split; reflexivity.

Ltac query_cases d statement data cb :=
  unfold adapter.query, spawnConnection;
  destruct (underscore.isFunction data) eqn:Hf;
  [ destruct data; try discriminate; cbn [truthy];
    destruct (truthy (connect_error d _));
    [ trace_done
    | destruct (query_outcome d statement JUndefined) as [qerr qres];
      trace_done ]
  | destruct cb; try trace_done;
    (destruct (truthy (connect_error d _));
     [ trace_done |];
     destruct (truthy data);
     [ destruct (query_outcome d statement data) as [qerr qres]
     | destruct (query_outcome d statement JUndefined) as [qerr qres] ];
     trace_done) ].

(** X19.  [query] never calls the callback it is given.  It hands its
    callback to [spawnConnection] in the place of the configuration, so
    the callback of [spawnConnection] is [undefined]: whatever the
    statement, the data and the driver's answers, the call ends with a
    TypeError, at once when there is no callback to take for a
    configuration, and otherwise when the connection fails or after the
    statement has run and the connection is ended. *)
Theorem query_never_calls_back (d : driver) (statement : string)
        (data cb : jsval) :
  exists trace,
    adapter.query d statement data cb = Ok trace
    /\ existsb is_callback trace = false
    /\ last trace EndConnection = Exception "TypeError".
Proof. query_cases d statement data cb. Qed.

Lemma sort_each_returns (entries : list (jskey * jsval)) :
  forall queryPart, returns (sql.sort_each entries queryPart).
Proof.
  induction entries as [|[k x] rest IH]; intros queryPart;
    cbn [sql.sort_each]; [discriminate|].
  apply returns_bind; [apply prepareAttribute_returns | intros; apply IH].
Qed.

Lemma SerializeOptions_returns (o : options) : returns (SerializeOptions o).
Proof.
  unfold SerializeOptions, sql.serializeOptions.
  apply returns_bind.
  { destruct (truthy (opt_where o)); [|discriminate].
    apply returns_bind; [|discriminate].
    apply (translator_total (opt_where o) (KStr "") None). }
  intros q1. apply returns_bind; [|discriminate].
  destruct (truthy (opt_sort o)); [apply sort_each_returns | discriminate].
Qed.

Lemma each_height (v : jsval) (k : jskey) (x : jsval) :
  In (k, x) (underscore.each v) -> height x <= height v.
Proof.
  intros Hin. destruct v as [| | | | |s| |arity src| |elems|props];
    try contradiction.
  - destruct (each_atom (JStr s) k x) as (_ & _ & Hx);
      [reflexivity | assumption | lia].
  - destruct (each_atom (JFunc arity src) k x) as (_ & _ & Hx);
      [reflexivity | assumption | lia].
  - cbn [underscore.each] in Hin.
    assert (Hx : In x elems).
    { clear - Hin. generalize dependent 0.
      induction elems as [|y elems IHe]; intros i Hin; [contradiction|].
      destruct Hin as [E | Hin]; [injection E as _ <-; now left|].
      right. now apply (IHe (S i)). }
    apply height_elem in Hx. lia.
  - apply height_each_object in Hin. lia.
Qed.

Lemma Assignment_returns (vals : jsval) : returns (Assignment vals).
Proof.
  unfold Assignment, sql.criteria. apply build_returns.
  intros k x Hin. apply each_height in Hin.
  destruct (fuel_returns (height vals) x Hin) as (_ & C & _).
  destruct (fuel_le (4 + 3 * height vals) (fuel_for vals)) as (_ & _ & Hc);
    [unfold fuel_for; lia|].
  destruct (Hc x (effective_key None k) None) as [E | E];
    [now apply C in E|].
  rewrite E. apply C.
Qed.

Lemma schema_returns (attributes : jsval) : returns (sql.schema attributes).
Proof.
  apply build_returns. intros k x _. unfold sql._schema.
  apply returns_bind; [destruct (effective_key None k); discriminate|].
  intros attrName. apply returns_bind; [|discriminate].
  destruct x; try discriminate; cbn [get];
    destruct (lookup "type" props); try discriminate.
  unfold sqlTypeCast.
  repeat match goal with
         | |- returns (if ?b then _ else _) => destruct b
         end; discriminate.
Qed.

(** The statements are built with the fuel they need. *)
Lemma statements_return (collectionName : string) (o : options)
      (v : jsval) :
  returns (statement.find collectionName o)
  /\ returns (statement.update collectionName o v)
  /\ returns (statement.destroy collectionName o)
  /\ returns (statement.create collectionName v)
  /\ returns (statement.define collectionName v).
Proof.
  repeat split.
  - apply returns_bind; [apply SerializeOptions_returns | discriminate].
  - apply returns_bind; [apply Assignment_returns|]. intros a.
    apply returns_bind; [apply SerializeOptions_returns | discriminate].
  - apply returns_bind; [apply SerializeOptions_returns | discriminate].
  - apply returns_bind.
    { apply build_returns. intros. apply prepareAttribute_returns. }
    intros a. apply returns_bind; [apply values_returns | discriminate].
  - unfold statement.define. apply returns_bind.
    { destruct v; discriminate. }
    intros attrs. apply returns_bind; [apply schema_returns | discriminate].
Qed.

Ltac statement_cases E :=
  match goal with
  | |- context [match ?r with Ok _ => _ | Throw _ => _ | OutOfFuel => _ end] =>
      destruct r as [q|msg|] eqn:E
  end.

Ltac method_disciplined d cb Hreturns :=
  unfold spawnConnection, config_of, disciplined; cbv beta zeta;
  match goal with
  | |- context [own ?n ?dbs] => destruct (own n dbs) as [config|]
  end; [|trace_done];
  destruct (truthy (connect_error d _));
  [destruct cb; trace_done|];
  try (let E := fresh "E" in
       statement_cases E;
       [| destruct cb; trace_done
        | exfalso; first [now apply Hreturns | now apply Hreturns in E]]);
  match goal with
  | |- context [query_outcome d ?q ?data] =>
      let e := fresh "qerr" in
      let r := fresh "qres" in
      destruct (query_outcome d q data) as [e r];
      repeat match goal with
             | |- context [if ?b then _ else _] => destruct b
             end;
      try (destruct r; try (destruct cb; trace_done));
      destruct cb; trace_done
  end.

(** X20.  In every call of a method, whatever the driver answers, the
    callback is called at most once and nothing happens after it, and it
    is never called between a statement and the end of the connection
    that ran it. *)
Theorem callback_discipline (d : driver) (dbs : registry)
        (collectionName statement : string) (o : options)
        (schema v cb : jsval) :
  disciplined (adapter.query d statement v cb)
  /\ disciplined (adapter.describe d dbs schema collectionName cb)
  /\ disciplined (adapter.define d dbs collectionName v cb)
  /\ disciplined (adapter.drop d dbs collectionName cb)
  /\ disciplined (adapter.create d dbs collectionName v cb)
  /\ disciplined (adapter.find d dbs collectionName o cb)
  /\ disciplined (adapter.update d dbs collectionName o v cb)
  /\ disciplined (adapter.destroy d dbs collectionName o cb)
  /\ disciplined (adapter.teardown cb).
Proof.
  destruct (statements_return collectionName o v) as (F & U & D & C & T).
  repeat split.
  - unfold disciplined. query_cases d statement v cb.
  - unfold adapter.describe. destruct schema; method_disciplined d cb F.
  - unfold adapter.define. method_disciplined d cb T.
  - unfold adapter.drop. method_disciplined d cb F.
  - unfold adapter.create. method_disciplined d cb C.
  - unfold adapter.find. method_disciplined d cb F.
  - unfold adapter.update. method_disciplined d cb U.
  - unfold adapter.destroy. method_disciplined d cb D.
  - unfold adapter.teardown, disciplined.
    destruct (truthy cb); [destruct cb|]; trace_done.
Qed.

(** X21.  When the statement of [find], [update], [destroy], [create]
    or [define] cannot be built, the exception is raised after the
    connection was opened: the connection is never ended and the callback
    never called. *)
Theorem failed_statement_leaves_connection_open (d : driver) (dbs : registry)
        (collectionName : string) (config : list (string * jsval))
        (o : options) (v cb : jsval) (msg : string) :
  own collectionName dbs = Some config ->
  truthy (connect_error d (JObj (marshalConfig config))) = false ->
  let abandoned :=
    Ok [CreateConnection (JObj (marshalConfig config)); Exception msg] in
  (statement.find collectionName o = Throw msg ->
   adapter.find d dbs collectionName o cb = abandoned)
  /\ (statement.update collectionName o v = Throw msg ->
      adapter.update d dbs collectionName o v cb = abandoned)
  /\ (statement.destroy collectionName o = Throw msg ->
      adapter.destroy d dbs collectionName o cb = abandoned)
  /\ (statement.create collectionName v = Throw msg ->
      adapter.create d dbs collectionName v cb = abandoned)
  /\ (statement.define collectionName v = Throw msg ->
      adapter.define d dbs collectionName v cb = abandoned).
Proof.
  intros Hown Hconn abandoned.
  repeat split; intros E;
    unfold adapter.find, adapter.update, adapter.destroy, adapter.create,
      adapter.define, spawnConnection, config_of;
    rewrite Hown; cbv beta zeta; rewrite Hconn, E; reflexivity.
Qed.

Lemma failed_statement_leaves_connection_open_witness :
  adapter.find (mkDriver (fun _ => JNull) (fun _ _ => (JNull, JArr [])))
    [("user", [("host", JStr "localhost")])] "user"
    (mkOptions (JObj [("not", JNum 1)]) JUndefined JUndefined JUndefined)
    (JFunc 2 "function (err, result) {}")
  = Ok [CreateConnection
          (JObj (marshalConfig [("host", JStr "localhost")]));
        Exception "NOT not supported yet!"].
Proof.
  apply (proj1 (failed_statement_leaves_connection_open
                  (mkDriver (fun _ => JNull) (fun _ _ => (JNull, JArr [])))
                  [("user", [("host", JStr "localhost")])] "user"
                  [("host", JStr "localhost")]
                  (mkOptions (JObj [("not", JNum 1)]) JUndefined JUndefined
                             JUndefined)
                  JNull (JFunc 2 "function (err, result) {}")
                  "NOT not supported yet!" eq_refl eq_refl)).
  reflexivity.
Defined.

(** X22.  A table that does not exist is no error for [describe] and
    [drop]: when the driver reports ER_NO_SUCH_TABLE, respectively
    ER_BAD_TABLE_ERROR, the connection is ended and the callback gets
    [null] for the error and [null] for the result. *)
Theorem missing_table_is_no_error (d : driver) (dbs : registry)
        (collectionName : string) (config : list (string * jsval))
        (schema cb err result : jsval) :
  own collectionName dbs = Some config ->
  truthy (connect_error d (JObj (marshalConfig config))) = false ->
  underscore.isFunction cb = true ->
  (query_outcome d (statement.describe collectionName) JUndefined
   = (err, result) ->
   get err "code" = JStr "ER_NO_SUCH_TABLE" ->
   adapter.describe d dbs schema collectionName cb
   = Ok [CreateConnection (JObj (marshalConfig config));
         Query (statement.describe collectionName) JUndefined;
         EndConnection; Callback cb [JNull; JNull]])
  /\ (query_outcome d (statement.drop collectionName) JUndefined
      = (err, result) ->
      get err "code" = JStr "ER_BAD_TABLE_ERROR" ->
      adapter.drop d dbs collectionName cb
      = Ok [CreateConnection (JObj (marshalConfig config));
            Query (statement.drop collectionName) JUndefined;
            EndConnection; Callback cb [JNull; JNull]]).
Proof.
  intros Hown Hconn Hcb. destruct cb; try discriminate.
  split; intros Hq Hcode;
    unfold adapter.describe, adapter.drop, spawnConnection, config_of;
    rewrite Hown; cbv beta zeta; rewrite Hconn, Hq, Hcode;
    destruct err; try discriminate; reflexivity.
Qed.

Lemma missing_table_is_no_error_witness :
  adapter.describe
    (mkDriver (fun _ => JNull)
              (fun _ _ => (JObj [("code", JStr "ER_NO_SUCH_TABLE")],
                           JUndefined)))
    [("user", [("host", JStr "localhost")])] (JObj []) "user"
    (JFunc 2 "function (err, schema) {}")
  = Ok [CreateConnection
          (JObj (marshalConfig [("host", JStr "localhost")]));
        Query (statement.describe "user") JUndefined;
        EndConnection;
        Callback (JFunc 2 "function (err, schema) {}") [JNull; JNull]].
Proof.
  apply (proj1 (missing_table_is_no_error
                  (mkDriver (fun _ => JNull)
                     (fun _ _ => (JObj [("code", JStr "ER_NO_SUCH_TABLE")],
                                  JUndefined)))
                  [("user", [("host", JStr "localhost")])] "user"
                  [("host", JStr "localhost")] (JObj [])
                  (JFunc 2 "function (err, schema) {}")
                  (JObj [("code", JStr "ER_NO_SUCH_TABLE")]) JUndefined
                  eq_refl eq_refl eq_refl));
    reflexivity.
Defined.

(** X28.  [describe] of a table that exists reads the schema of the
    collection from [self.schema].  On an adapter without that property,
    as the object that MySQLAdapter.js returns, the read fails once the
    driver has answered: the exception is raised after the statement, the connection
    is never ended and the callback never called. *)
Theorem describe_without_schema (d : driver) (dbs : registry)
        (collectionName : string) (config : list (string * jsval))
        (cb err result : jsval) :
  own collectionName dbs = Some config ->
  truthy (connect_error d (JObj (marshalConfig config))) = false ->
  query_outcome d (statement.describe collectionName) JUndefined
  = (err, result) ->
  truthy err = false ->
  truthy result = true ->
  adapter.describe d dbs JUndefined collectionName cb
  = Ok [CreateConnection (JObj (marshalConfig config));
        Query (statement.describe collectionName) JUndefined;
        Exception "TypeError"].
Proof.
  intros Hown Hconn Hq Herr Hresult.
  unfold adapter.describe, spawnConnection, config_of.
  rewrite Hown. cbv beta zeta. rewrite Hconn, Hq, Herr, Hresult.
  reflexivity.
Qed.

Lemma describe_without_schema_witness :
  adapter.describe
    (mkDriver (fun _ => JNull)
              (fun _ _ => (JNull, JArr [JObj [("Field", JStr "id")]])))
    [("user", [("host", JStr "localhost")])] JUndefined "user"
    (JFunc 2 "function (err, schema) {}")
  = Ok [CreateConnection
          (JObj (marshalConfig [("host", JStr "localhost")]));
        Query (statement.describe "user") JUndefined;
        Exception "TypeError"].
Proof.
  apply (describe_without_schema
           (mkDriver (fun _ => JNull)
                     (fun _ _ => (JNull, JArr [JObj [("Field", JStr "id")]])))
           [("user", [("host", JStr "localhost")])] "user"
           [("host", JStr "localhost")]
           (JFunc 2 "function (err, schema) {}")
           JNull (JArr [JObj [("Field", JStr "id")]]));
    reflexivity.
Defined.

Lemma own_absent {A : Type} (name : string) (props : list (string * A)) :
  existsb (String.eqb name) (map fst props) = false -> own name props = None.
Proof.
  induction props as [|[k x] rest IH]; [reflexivity|].
  cbn [map fst existsb own]. intros H. apply orb_false_iff in H as [Hk Hrest].
  rewrite String.eqb_sym, Hk. now apply IH.
Qed.

Lemma lookup_own (name : string) (props : list (string * jsval)) :
  lookup name props
  = match own name props with Some v => v | None => JUndefined end.
Proof.
  induction props as [|[k x] rest IH]; [reflexivity|].
  simpl. now destruct (k =? name).
Qed.

Lemma lookup_extend (name : string) (source : list (string * jsval)) :
  distinct (map fst source) = true ->
  forall obj,
    lookup name (underscore.extend obj source)
    = match own name source with
      | Some v => v
      | None => lookup name obj
      end.
Proof.
  unfold underscore.extend.
  induction source as [|[k x] rest IH]; intros Hd obj; [reflexivity|].
  cbn [map fst distinct] in Hd. apply andb_true_iff in Hd as [Hk Hrest].
  apply negb_true_iff in Hk.
  cbn [fold_left fst snd own]. rewrite (IH Hrest).
  destruct (k =? name) eqn:E.
  - apply String.eqb_eq in E. subst k.
    rewrite (own_absent _ _ Hk). apply lookup_assign.
  - destruct (own name rest); [reflexivity|].
    now apply lookup_assign_other.
Qed.

(** X23.  When the INSERT of [create] succeeds, the callback gets a new
    record whose [id] is the [insertId] that the driver reports, whatever
    [id] the data had, and whose other properties are those of the
    data. *)
Theorem created_model (d : driver) (dbs : registry)
        (collectionName query : string)
        (config data packet : list (string * jsval))
        (cb err : jsval) :
  own collectionName dbs = Some config ->
  truthy (connect_error d (JObj (marshalConfig config))) = false ->
  underscore.isFunction cb = true ->
  distinct (map fst data) = true ->
  statement.create collectionName (JObj data) = Ok query ->
  query_outcome d query JUndefined = (err, JObj packet) ->
  truthy err = false ->
  exists model,
    adapter.create d dbs collectionName (JObj data) cb
    = Ok [CreateConnection (JObj (marshalConfig config));
          Query query JUndefined; EndConnection;
          Callback cb [err; JObj model]]
    /\ lookup "id" model = lookup "insertId" packet
    /\ forall name, name <> "id" -> lookup name model = lookup name data.
Proof.
  intros Hown Hconn Hcb Hd Hq Hr Herr. destruct cb; try discriminate.
  eexists. split; [|split].
  - unfold adapter.create, spawnConnection, config_of.
    rewrite Hown. cbv beta zeta. rewrite Hconn, Hq, Hr, Herr. reflexivity.
  - cbn [enumerable get]. rewrite lookup_extend by reflexivity.
    reflexivity.
  - intros name Hne. cbn [enumerable get].
    rewrite lookup_extend by reflexivity. cbn [own].
    destruct ("id" =? name) eqn:E;
      [apply String.eqb_eq in E; congruence|].
    rewrite lookup_extend by assumption. symmetry. apply lookup_own.
Qed.

Lemma created_model_witness :
  exists model,
    adapter.create
      (mkDriver (fun _ => JNull)
                (fun _ _ => (JNull, JObj [("insertId", JNum 7)])))
      [("user", [("host", JStr "localhost")])] "user"
      (JObj [("id", JNum 1); ("name", JStr "x")])
      (JFunc 2 "function (err, model) {}")
    = Ok [CreateConnection
            (JObj (marshalConfig [("host", JStr "localhost")]));
          Query "INSERT INTO `user` (`id`, `name`) VALUES (1, 'x')"
                JUndefined;
          EndConnection;
          Callback (JFunc 2 "function (err, model) {}")
                   [JNull; JObj model]]
    /\ lookup "id" model = lookup "insertId" [("insertId", JNum 7)]
    /\ forall name, name <> "id" ->
         lookup name model
         = lookup name [("id", JNum 1); ("name", JStr "x")].
Proof.
  apply (created_model
           (mkDriver (fun _ => JNull)
                     (fun _ _ => (JNull, JObj [("insertId", JNum 7)])))
           [("user", [("host", JStr "localhost")])] "user"
           "INSERT INTO `user` (`id`, `name`) VALUES (1, 'x')"
           [("host", JStr "localhost")]
           [("id", JNum 1); ("name", JStr "x")]
           [("insertId", JNum 7)]
           (JFunc 2 "function (err, model) {}") JNull);
    reflexivity.
Defined.

End Connections.
